(** * Waypoint EECBS runner: scenario parsing, segment decomposition,
      solver adapter and path stitching

    A shallow embedding of [waypoint_eecbs.py].

    Conventions of the embedding.
    - A Python [str] is a [string]; an [ascii] stands for a code point
      below 256.  Python integers are unbounded, so they are [Z]; lengths
      and indices that are never negative are [nat].
    - A Python exception is a value of [exn]; code that may raise lives in
      the error monad [res].
    - A dictionary with a fixed set of keys is a record; a dictionary
      whose set of keys depends on the branch that built it is an
      inductive type with one constructor per shape.
    - A string built by an f-string is kept as its template (a
      constructor) applied to the interpolated values.
    - The external solver process and the files it writes are an oracle
      (a [Variable] of a [Section]) that may depend on the whole history
      of earlier invocations.
    - A file is given by what reading it returns: the scenario file by
      its list of lines, a paths file by the matches of the regular
      expressions that are searched in it.

    Left out: what the runner prints, the names and the removal of the
    temporary files, and the saving of the results under [output_dir]. *)

From Stdlib Require Import Ascii.
From stdpp Require Import prelude strings.

Set Warnings "-clear-no-such-hyp".
Local Open Scope Z_scope.

(** ** Python's string primitives *)

Module PyStr.

(** [str.isspace] on code points below 256. *)
Definition is_space (c : ascii) : bool :=
  existsb (N.eqb (N_of_ascii c))
          [9; 10; 11; 12; 13; 28; 29; 30; 31; 32; 133; 160]%N.

Fixpoint lstrip (s : string) : string :=
  match s with
  | EmptyString => EmptyString
  | String c s' => if is_space c then lstrip s' else s
  end.

Fixpoint rstrip (s : string) : string :=
  match s with
  | EmptyString => EmptyString
  | String c s' =>
      match rstrip s' with
      | EmptyString => if is_space c then EmptyString else String c EmptyString
      | r => String c r
      end
  end.

(** [s.strip()] *)
Definition strip (s : string) : string := rstrip (lstrip s).

(** [s.split(sep)] for a one-character separator: never the empty list. *)
Fixpoint split (sep : ascii) (s : string) : list string :=
  match s with
  | EmptyString => [EmptyString]
  | String c s' =>
      if Ascii.eqb c sep then EmptyString :: split sep s'
      else match split sep s' with
           | [] => [String c EmptyString]
           | w :: ws => String c w :: ws
           end
  end.

(** [s.split()]: the maximal runs of non-whitespace characters. *)
Fixpoint split_ws (s : string) : list string :=
  match s with
  | EmptyString => []
  | String c s' =>
      if is_space c then split_ws s'
      else match s' with
           | EmptyString => [String c EmptyString]
           | String c' _ =>
               if is_space c' then String c EmptyString :: split_ws s'
               else match split_ws s' with
                    | [] => [String c EmptyString]
                    | w :: ws => String c w :: ws
                    end
           end
  end.

(** [sub in s] *)
Fixpoint contains (sub s : string) : bool :=
  String.prefix sub s ||
  match s with
  | EmptyString => false
  | String _ s' => contains sub s'
  end.

Definition digit_val (c : ascii) : option Z :=
  let n := N_of_ascii c in
  if (48 <=? n)%N && (n <=? 57)%N then Some (Z.of_N n - 48) else None.

Definition is_digit (c : ascii) : bool :=
  match digit_val c with Some _ => true | None => false end.

(** The tail of a [digitpart]: [(["_"] digit)*], with the value
    accumulated; [None] when a character that is neither a digit nor a
    well-placed underscore is met. *)
Fixpoint digits_tail (acc : Z) (s : string) : option Z :=
  match s with
  | EmptyString => Some acc
  | String c s' =>
      match digit_val c with
      | Some d => digits_tail (10 * acc + d) s'
      | None =>
          if Ascii.eqb c "_" then
            match s' with
            | EmptyString => None
            | String c' s'' =>
                match digit_val c' with
                | Some d => digits_tail (10 * acc + d) s''
                | None => None
                end
            end
          else None
      end
  end.

Definition unsigned_literal (s : string) : option Z :=
  match s with
  | EmptyString => None
  | String c s' =>
      match digit_val c with
      | Some d => digits_tail d s'
      | None => None
      end
  end.

(** The white space that [int()] and [float()] skip around a literal, on
    code points below 256: the white space of C (9 to 13 and 32) and the
    two other white-space characters 133 and 160.  The separators 28 to
    31 are white space for [str.isspace], [strip] and [split], but not
    here: [int] and [float] raise [ValueError] on them. *)
Definition is_literal_space (c : ascii) : bool :=
  existsb (N.eqb (N_of_ascii c)) [9; 10; 11; 12; 13; 32; 133; 160]%N.

Fixpoint lstrip_literal (s : string) : string :=
  match s with
  | EmptyString => EmptyString
  | String c s' => if is_literal_space c then lstrip_literal s' else s
  end.

Fixpoint rstrip_literal (s : string) : string :=
  match s with
  | EmptyString => EmptyString
  | String c s' =>
      match rstrip_literal s' with
      | EmptyString =>
          if is_literal_space c then EmptyString else String c EmptyString
      | r => String c r
      end
  end.

Definition strip_literal (s : string) : string :=
  rstrip_literal (lstrip_literal s).

(** [int(s)] in base 10: surrounding whitespace is dropped, one sign is
    allowed, digits may be grouped by single underscores.  [None] stands
    for [ValueError].  (The interpreter's limit on the number of digits of
    a literal is not part of the model.) *)
Definition int (s : string) : option Z :=
  match strip_literal s with
  | String "+" r => unsigned_literal r
  | String "-" r => Z.opp <$> unsigned_literal r
  | t => unsigned_literal t
  end.

(** What is left of [s] after [(["_"] digit)*]. *)
Fixpoint skip_digits (s : string) : string :=
  match s with
  | EmptyString => EmptyString
  | String c s' =>
      if is_digit c then skip_digits s'
      else if Ascii.eqb c "_" then
        match s' with
        | String c' s'' => if is_digit c' then skip_digits s'' else s
        | EmptyString => s
        end
      else s
  end.

Definition digitpart (s : string) : option string :=
  match s with
  | String c s' => if is_digit c then Some (skip_digits s') else None
  | EmptyString => None
  end.

Definition drop_sign (s : string) : string :=
  match s with
  | String "+" r => r
  | String "-" r => r
  | _ => s
  end.

Definition lower (c : ascii) : ascii :=
  let n := N_of_ascii c in
  if (65 <=? n)%N && (n <=? 90)%N then ascii_of_N (n + 32) else c.

Fixpoint lowercase (s : string) : string :=
  match s with
  | EmptyString => EmptyString
  | String c s' => String (lower c) (lowercase s')
  end.

Definition exponent_opt (s : string) : bool :=
  match s with
  | EmptyString => true
  | String c r =>
      if Ascii.eqb (lower c) "e" then
        match digitpart (drop_sign r) with
        | Some EmptyString => true
        | _ => false
        end
      else false
  end.

Definition float_number (s : string) : bool :=
  match digitpart s with
  | Some r =>
      match r with
      | String "." r1 =>
          match digitpart r1 with
          | Some r2 => exponent_opt r2
          | None => exponent_opt r1
          end
      | _ => exponent_opt r
      end
  | None =>
      match s with
      | String "." r =>
          match digitpart r with
          | Some r' => exponent_opt r'
          | None => false
          end
      | _ => false
      end
  end.

(** Whether [float(s)] returns ([true]) or raises [ValueError]
    ([false]).  The value itself is never inspected by the program, so a
    parsed float is kept as the literal it was read from. *)
Definition float_ok (s : string) : bool :=
  let t := drop_sign (strip_literal s) in
  let l := lowercase t in
  String.eqb l "inf" || String.eqb l "infinity" || String.eqb l "nan"
  || float_number t.

End PyStr.

(** ** Exceptions and the error monad *)

Inductive exn : Type :=
| ValueError_int (literal : string)    (* int() of a string that is no integer *)
| ValueError_float (literal : string)  (* float() of a string that is no float *)
| ValueError_max                       (* max() of an empty sequence *)
| IndexError                           (* list index out of range *)
| TimeoutExpired                       (* subprocess.TimeoutExpired *)
| OtherException (message : string).   (* any other exception, with its str() *)

Inductive res (A : Type) : Type :=
| Ok (a : A)
| Raise (e : exn).
Arguments Ok {A} a.
Arguments Raise {A} e.

#[global] Instance res_ret : MRet res := fun _ a => Ok a.
#[global] Instance res_bind : MBind res := fun _ _ f m =>
  match m with
  | Ok a => f a
  | Raise e => Raise e
  end.

(** [l[i]] for a non-negative index. *)
Definition item {A} (l : list A) (i : nat) : res A :=
  match l !! i with
  | Some a => Ok a
  | None => Raise IndexError
  end.

(** [l[i] = a] for a non-negative index. *)
Definition set_item {A} (l : list A) (i : nat) (a : A) : res (list A) :=
  if decide (i < length l)%nat then Ok (<[i := a]> l) else Raise IndexError.

Definition int (s : string) : res Z :=
  match PyStr.int s with
  | Some z => Ok z
  | None => Raise (ValueError_int s)
  end.

(** The float is represented by its literal. *)
Definition float (s : string) : res string :=
  if PyStr.float_ok s then Ok s else Raise (ValueError_float s).

(** [l[i:j]] *)
Definition clamp (n : nat) (i : Z) : nat :=
  Z.to_nat (if i <? 0 then Z.max (i + Z.of_nat n) 0 else Z.min i (Z.of_nat n)).

Definition slice {A} (l : list A) (i j : Z) : list A :=
  let lo := clamp (length l) i in
  let hi := clamp (length l) j in
  take (hi - lo) (drop lo l).

(** ** class WaypointScenarioParser *)

Abbreviation point := (Z * Z)%type (only parsing).

Record scenario : Type := mk_scenario {
  bucket : Z;
  map_name : string;
  width : Z;
  height : Z;
  start : point;
  goal : point;
  optimal_length : string;
  num_waypoints : Z;
  waypoints : list point
}.

(** What the parser prints. *)
Inductive printed : Type :=
| Warning_could_not_parse_line (line : string)
| Error_line (e : exn).

Definition tab : ascii := ascii_of_nat 9.
Definition newline : ascii := ascii_of_nat 10.

(** The loop [for i in range(0, len(waypoint_coords) - 1, 2)]: [i] runs
    over the even positions that have a successor, so the list is
    consumed two items at a time and a last unpaired item is never
    looked at (the test [i + 1 < len(waypoint_coords)] always holds). *)
Fixpoint parse_waypoint_coords (waypoint_coords : list string) : res (list point) :=
  match waypoint_coords with
  | x :: y :: rest =>
      wp_x ← int x;
      wp_y ← int y;
      waypoints ← parse_waypoint_coords rest;
      mret ((wp_x, wp_y) :: waypoints)
  | _ => mret []
  end.

(** The body of the [try] block, for the fields [parts] of one line. *)
Definition parse_parts (parts : list string) : res scenario :=
  bucket ← item parts 0 ≫= int;
  map_name ← item parts 1;
  width ← item parts 2 ≫= int;
  height ← item parts 3 ≫= int;
  start_x ← item parts 4 ≫= int;
  start_y ← item parts 5 ≫= int;
  goal_x ← item parts 6 ≫= int;
  goal_y ← item parts 7 ≫= int;
  optimal_length ← item parts 8 ≫= float;
  num_waypoints ← item parts 9 ≫= int;
  waypoints ←
    (if decide (10 < length parts)%nat
     then item parts 10 ≫= (fun f => parse_waypoint_coords (PyStr.split_ws f))
     else mret []);
  mret (mk_scenario bucket map_name width height (start_x, start_y)
          (goal_x, goal_y) optimal_length num_waypoints waypoints).

(** The state of the parsing loop: the entries accepted so far and what
    has been printed so far. *)
Definition parser_state : Type := list scenario * list printed.

(** One iteration of [for line in lines[1:]]. *)
Definition parse_line (st : parser_state) (raw : string) : parser_state :=
  let line := PyStr.strip raw in
  if String.eqb line "" then st
  else
    let parts := PyStr.split tab line in
    if decide (length parts < 10)%nat then st
    else
      match parse_parts parts with
      | Ok s => (st.1 ++ [s], st.2)
      | Raise e =>
          (st.1, st.2 ++ [Warning_could_not_parse_line (PyStr.strip line);
                          Error_line e])
      end.

(** [lines] is what [f.readlines()] returned for the scenario file. *)
Definition _parse_scenarios (lines : list string) : parser_state :=
  foldl parse_line ([], []) (drop 1 lines).

(** ** class WaypointEECBSRunner *)

Abbreviation path := (list (Z * Z)) (only parsing).
Abbreviation agent_pair := ((Z * Z) * (Z * Z))%type (only parsing).

(** One line of the temporary scenario file of a segment,
    [bucket map_name width height start_x start_y goal_x goal_y 0];
    the file is identified with the list of its lines after
    the version line. *)
Record instance_row : Type := mk_row {
  row_bucket : nat;
  row_map_name : string;
  row_width : Z;
  row_height : Z;
  row_start : point;
  row_goal : point
}.

Definition _create_temp_scenario_multi (map_name : string) (width height : Z)
    (agent_pairs : list agent_pair) : list instance_row :=
  imap (fun bucket '(start, goal) =>
          mk_row bucket map_name width height start goal) agent_pairs.

(** The command line of one solver invocation ([cmd]); the names of the
    two output files are left out. *)
Record eecbs_call : Type := mk_call {
  arg_m : string;               (* -m map_file *)
  arg_a : list instance_row;    (* -a scenario_file *)
  arg_k : Z;                    (* -k num_agents *)
  arg_t : Z;                    (* -t timeout *)
  arg_suboptimality : string    (* --suboptimality, as printed by str() *)
}.

(** What [subprocess.run] returns when it returns. *)
Record completed_process : Type := mk_completed {
  returncode : Z;
  stdout : string;
  stderr : string
}.

(** What one invocation of the solver leaves behind: the outcome of
    [subprocess.run], and the paths file, given by the successive matches
    [(agent id, coordinates)] of the two regular expressions of
    [_parse_paths_file] on its contents, or [None] when reading it
    raises. *)
Record eecbs_response : Type := mk_response {
  process : res completed_process;
  paths_file : option (list (nat * path))
}.

Inductive eecbs_error : Type :=
| EECBS_failed_with_return_code (returncode : Z)
| No_output_from_EECBS
| EECBS_did_not_succeed (result_line : string)
| EECBS_timed_out_after (timeout : Z)
| Error_running_EECBS (e : exn).

(** The dictionary returned by [_run_eecbs]. *)
Inductive eecbs_result : Type :=
| Eecbs_failure (error : eecbs_error) (stderr : option string)
| Eecbs_success (cost : option Z) (output stdout stderr : string).

Definition eecbs_success (r : eecbs_result) : bool :=
  match r with
  | Eecbs_success _ _ _ _ => true
  | Eecbs_failure _ _ => false
  end.

Definition eecbs_cost (r : eecbs_result) : option Z :=
  match r with
  | Eecbs_success cost _ _ _ => cost
  | Eecbs_failure _ _ => None
  end.

Definition eecbs_cmd (map_file : string) (scenario_file : list instance_row)
    (num_agents timeout : Z) (suboptimality : string) : eecbs_call :=
  mk_call map_file scenario_file num_agents timeout suboptimality.

(** [l[-1]] *)
Definition last_item {A} (l : list A) : res A :=
  match last l with
  | Some a => Ok a
  | None => Raise IndexError
  end.

(** The body of the [try] block of [_run_eecbs], from the outcome of
    [subprocess.run] on. *)
Definition run_eecbs_try (ran : res completed_process) : res eecbs_result :=
  result ← ran;
  if decide (returncode result ≠ 0) then
    mret (Eecbs_failure (EECBS_failed_with_return_code (returncode result))
                        (Some (stderr result)))
  else
    let output_lines := PyStr.split newline (PyStr.strip (stdout result)) in
    if decide (output_lines = []) then
      mret (Eecbs_failure No_output_from_EECBS None)
    else
      result_line ← last_item output_lines;
      if negb (PyStr.contains "Succeed" result_line) then
        mret (Eecbs_failure (EECBS_did_not_succeed result_line) None)
      else
        let parts := PyStr.split "," result_line in
        cost ← (if decide (5 ≤ length parts)%nat
                then c ← item parts 4 ≫= int; mret (Some c)
                else mret None);
        mret (Eecbs_success cost result_line (stdout result) (stderr result)).

(** [subprocess_run] stands for [subprocess.run]; the two [except]
    clauses turn every exception of the [try] block into a failure
    dictionary. *)
Definition _run_eecbs (subprocess_run : eecbs_call → res completed_process)
    (map_file : string) (scenario_file : list instance_row)
    (num_agents timeout : Z) (suboptimality : string) : eecbs_result :=
  let cmd := eecbs_cmd map_file scenario_file num_agents timeout suboptimality in
  match run_eecbs_try (subprocess_run cmd) with
  | Ok d => d
  | Raise TimeoutExpired => Eecbs_failure (EECBS_timed_out_after timeout) None
  | Raise e => Eecbs_failure (Error_running_EECBS e) None
  end.

(** [while len(paths) <= agent_id: paths.append([])] *)
Definition pad_paths (paths : list path) (agent_id : nat) : list path :=
  paths ++ replicate (S agent_id - length paths) [].

(** One match of the agent pattern: pad, then [paths[agent_id] = coordinates]. *)
Definition record_path (paths : list path) (m : nat * path) : list path :=
  <[m.1 := m.2]> (pad_paths paths m.1).

Definition _parse_paths_file (paths_file : option (list (nat * path))) : list path :=
  match paths_file with
  | Some matches => foldl record_path [] matches
  | None => []
  end.

(** The error messages of [run_waypoint_scenario]. *)
Inductive run_error : Type :=
| No_scenarios_found_in_file
| Scenario_index_out_of_range (scenario_index upper : Z)
| Not_enough_agents (need : Z) (have : nat)
| Segment_failed (number : nat) (error : eecbs_error).
    (* f"Segment {seg+1} failed: {result['error']}" *)

Record segment_result : Type := mk_segment_result {
  segment : nat;
  sr_agent_pairs : list agent_pair;
  sr_cost : option Z;
  sr_paths : list path;
  sr_eecbs_output : string
}.

(** The dictionary [final_result]. *)
Record final_result : Type := mk_final {
  fr_agents : list scenario;
  fr_total_cost : Z;
  fr_segment_results : list segment_result;
  fr_complete_paths : list path;
  fr_num_segments : nat;
  fr_num_agents : Z
}.

(** The dictionary returned by [run_waypoint_scenario]: a failure has the
    keys [success] and [error] only. *)
Inductive run_result : Type :=
| Run_failure (error : run_error)
| Run_success (r : final_result).

Definition run_success (r : run_result) : bool :=
  match r with
  | Run_success _ => true
  | Run_failure _ => false
  end.

(** [[agent['start']] + agent['waypoints'] + [agent['goal']]] *)
Definition route (agent : scenario) : list point :=
  [start agent] ++ waypoints agent ++ [goal agent].

(** [max(xs)] *)
Definition py_max (xs : list nat) : res nat :=
  match xs with
  | [] => Raise ValueError_max
  | x :: xs' => Ok (foldl Nat.max x xs')
  end.

(** The pair of one agent in segment [seg]. *)
Definition agent_pair_of (seg : nat) (seq : list point) : res agent_pair :=
  if decide (seg < length seq - 1)%nat then
    start_point ← item seq seg;
    end_point ← item seq (seg + 1);
    mret (start_point, end_point)
  else
    final_pos ← last_item seq;
    mret (final_pos, final_pos).

(** [for x in xs: acc.append(f(x))] where [f] may raise. *)
Fixpoint for_append {A B} (f : A → res B) (xs : list A) : res (list B) :=
  match xs with
  | [] => mret []
  | x :: xs' => y ← f x; ys ← for_append f xs'; mret (y :: ys)
  end.

(** The inner loop [for seq in seqs] that fills [agent_pairs]. *)
Definition build_agent_pairs (seqs : list (list point)) (seg : nat)
    : res (list agent_pair) :=
  for_append (agent_pair_of seg) seqs.

(** [for i in is: s = body(s, i)] where [body] may raise. *)
Fixpoint for_loop {S} (body : S → nat → res S) (indices : list nat) (s : S)
    : res S :=
  match indices with
  | [] => mret s
  | i :: indices' => s' ← body s i; for_loop body indices' s'
  end.

(** One iteration of the stitching loop. *)
Definition stitch_agent (seg : nat) (segment_paths : list path)
    (complete_paths : list path) (agent_id : nat) : res (list path) :=
  path ← (if decide (agent_id < length segment_paths)%nat
          then item segment_paths agent_id else mret []);
  if decide (seg = 0%nat) then
    set_item complete_paths agent_id path
  else if decide (1 < length path)%nat then
    own ← item complete_paths agent_id;
    set_item complete_paths agent_id (own ++ drop 1 path)
  else
    own ← item complete_paths agent_id;
    first ← item path 0;
    set_item complete_paths agent_id (own ++ [first]).

(** [for agent_id in range(num_agents)] *)
Definition stitch (seg : nat) (num_agents : Z) (segment_paths : list path)
    (complete_paths : list path) : res (list path) :=
  for_loop (stitch_agent seg segment_paths)
           (seq 0 (Z.to_nat num_agents)) complete_paths.

(** The local variables of [run_waypoint_scenario] that the segment loop
    updates, together with the solver invocations made so far. *)
Record loop_state : Type := mk_state {
  complete_paths : list path;
  total_cost : Z;
  segment_results : list segment_result;
  history : list eecbs_call
}.

(** How a piece of the loop ends: it falls through to what follows it,
    it executes [return d], or it raises. *)
Inductive loop_exit : Type :=
| Fell_through
| Returned (d : run_result)
| Raised (e : exn).

(** [c if c else 0] for an optional integer: [None] and [0] are falsy. *)
Definition cost_or_zero (cost : option Z) : Z :=
  match cost with
  | Some c => if decide (c = 0) then 0 else c
  | None => 0
  end.

Section Run.

(** The solver: what an invocation does may depend on the invocations
    made before it. *)
Variable eecbs : list eecbs_call → eecbs_call → eecbs_response.

Variables (map_file : string) (timeout : Z) (suboptimality : string).

Section Loop.

Variables (seqs : list (list point)) (map_name : string) (width height : Z).
Variable num_agents : Z.

(** The body of [for seg in range(num_segments)]. *)
Definition run_segment (st : loop_state) (seg : nat) : loop_state * loop_exit :=
  match build_agent_pairs seqs seg with
  | Raise e => (st, Raised e)
  | Ok agent_pairs =>
      let temp_scenario :=
        _create_temp_scenario_multi map_name width height agent_pairs in
      let cmd :=
        eecbs_cmd map_file temp_scenario num_agents timeout suboptimality in
      let response := eecbs (history st) cmd in
      let result :=
        _run_eecbs (fun cmd => process (eecbs (history st) cmd))
                   map_file temp_scenario num_agents timeout suboptimality in
      match result with
      | Eecbs_failure error _ =>
          (mk_state (complete_paths st) (total_cost st) (segment_results st)
                    (history st ++ [cmd]),
           Returned (Run_failure (Segment_failed (seg + 1) error)))
      | Eecbs_success cost output _ _ =>
          let segment_paths := _parse_paths_file (paths_file response) in
          let segment_results' :=
            segment_results st ++
              [mk_segment_result (seg + 1) agent_pairs cost segment_paths output] in
          let total_cost' := total_cost st + cost_or_zero cost in
          match stitch seg num_agents segment_paths (complete_paths st) with
          | Raise e =>
              (mk_state (complete_paths st) total_cost' segment_results'
                        (history st ++ [cmd]),
               Raised e)
          | Ok complete_paths' =>
              (mk_state complete_paths' total_cost' segment_results'
                        (history st ++ [cmd]),
               Fell_through)
          end
      end
  end.

Fixpoint segment_loop (segs : list nat) (st : loop_state)
    : loop_state * loop_exit :=
  match segs with
  | [] => (st, Fell_through)
  | seg :: segs' =>
      match run_segment st seg with
      | (st', Fell_through) => segment_loop segs' st'
      | stopped => stopped
      end
  end.

(** [complete_paths = [[] for _ in range(num_agents)]], [total_cost = 0],
    [segment_results = []]. *)
Definition initial_state : loop_state :=
  mk_state (replicate (Z.to_nat num_agents) []) 0 [] [].

Definition run_segments (num_segments : nat) : loop_state * loop_exit :=
  segment_loop (seq 0 num_segments) initial_state.

End Loop.

(** [run_waypoint_scenario] with [output_dir=None], on the lines of the
    scenario file; what it prints is not modelled. *)
Definition run_waypoint_scenario (lines : list string)
    (scenario_index num_agents : Z) : res run_result :=
  let scenarios := (_parse_scenarios lines).1 in
  if decide (length scenarios = 0)%nat then
    mret (Run_failure No_scenarios_found_in_file)
  else if decide (Z.of_nat (length scenarios) ≤ scenario_index) then
    mret (Run_failure (Scenario_index_out_of_range scenario_index
                         (Z.of_nat (length scenarios) - 1)))
  else
    let agents := slice scenarios scenario_index (scenario_index + num_agents) in
    if decide (Z.of_nat (length agents) < num_agents) then
      mret (Run_failure (Not_enough_agents num_agents (length agents)))
    else
      let seqs := route <$> agents in
      num_segments ← py_max ((fun seq => length seq - 1)%nat <$> seqs);
      agent0 ← item agents 0;
      match run_segments seqs (map_name agent0) (width agent0) (height agent0)
                         num_agents num_segments with
      | (st, Fell_through) =>
          mret (Run_success
                  (mk_final agents (total_cost st) (segment_results st)
                            (complete_paths st) num_segments num_agents))
      | (_, Returned d) => mret d
      | (_, Raised e) => Raise e
      end.

End Run.

(** * The vocabulary of the properties *)

(** The line [output_lines[-1]] of the standard output of the solver. *)
Definition final_status_line (out : string) : string :=
  default "" (last (PyStr.split newline (PyStr.strip out))).

(** The pair [agent_pair_of] computes on a non-empty route. *)
Definition pair_at (seg : nat) (seq : list point) : agent_pair :=
  if decide (seg < length seq - 1)%nat
  then (default (0, 0) (seq !! seg), default (0, 0) (seq !! (seg + 1)%nat))
  else (default (0, 0) (last seq), default (0, 0) (last seq)).

(** The path of an agent in the parsed paths of a segment: the empty
    path when there is no record for the agent. *)
Definition path_of (segment_paths : list path) (agent_id : nat) : path :=
  default [] (segment_paths !! agent_id).

(** What the assembled path [own] of an agent becomes when [p], the path
    of the agent in segment [seg], is not empty or [seg] is [0]. *)
Definition extend (seg : nat) (own p : path) : path :=
  if decide (seg = 0%nat) then p
  else if decide (1 < length p)%nat then own ++ drop 1 p
  else own ++ take 1 p.

(** Whether the stitching of one agent goes through. *)
Definition agent_ok (seg : nat) (segment_paths : list path) (agent_id : nat) : bool :=
  bool_decide (seg = 0%nat) ||
  match path_of segment_paths agent_id with
  | [] => false
  | _ :: _ => true
  end.

(** The effect of the iterations [i, ..., i + k - 1] of the stitching loop. *)
Definition stitched_range (seg : nat) (segment_paths : list path) (i k : nat)
    (complete_paths : list path) : list path :=
  imap (fun a own =>
          if decide (i ≤ a < i + k)%nat
          then extend seg own (path_of segment_paths a) else own)
       complete_paths.

(** The stitching of one segment into the assembled paths. *)
Definition stitched (seg : nat) (segment_paths complete_paths : list path)
    : list path :=
  imap (fun a own => extend seg own (path_of segment_paths a)) complete_paths.

Definition stitchable (seg : nat) (num_agents : Z) (segment_paths : list path) : bool :=
  forallb (agent_ok seg segment_paths) (seq 0 (Z.to_nat num_agents)).

Definition eecbs_output (r : eecbs_result) : string :=
  match r with
  | Eecbs_success _ output _ _ => output
  | Eecbs_failure _ _ => ""
  end.

(** *** The course of a run

    What segment [seg] is, and what the solver is asked and answers for
    it when all the segments before it went through.  The invocations
    made before segment [seg] are then those of the segments [0], ...,
    [seg - 1], which depend on the routes only. *)

Section Timeline.

Variable eecbs : list eecbs_call → eecbs_call → eecbs_response.
Variables (map_file : string) (timeout : Z) (suboptimality : string).
Variables (seqs : list (list (Z * Z))) (map_name : string) (width height : Z).
Variable num_agents : Z.

Definition pairs_at (seg : nat) : list agent_pair := pair_at seg <$> seqs.

Definition call_at (seg : nat) : eecbs_call :=
  eecbs_cmd map_file
    (_create_temp_scenario_multi map_name width height (pairs_at seg))
    num_agents timeout suboptimality.

Definition history_at (seg : nat) : list eecbs_call := call_at <$> seq 0 seg.

Definition response_at (seg : nat) : eecbs_response :=
  eecbs (history_at seg) (call_at seg).

Definition result_at (seg : nat) : eecbs_result :=
  _run_eecbs (fun cmd => process (eecbs (history_at seg) cmd)) map_file
    (_create_temp_scenario_multi map_name width height (pairs_at seg))
    num_agents timeout suboptimality.

Definition paths_at (seg : nat) : list path :=
  _parse_paths_file (paths_file (response_at seg)).

Definition segment_result_at (seg : nat) : segment_result :=
  mk_segment_result (seg + 1) (pairs_at seg) (eecbs_cost (result_at seg))
                    (paths_at seg) (eecbs_output (result_at seg)).

(** The assembled paths and the total cost after the first [m] segments. *)
Fixpoint assembled (m : nat) : list path :=
  match m with
  | O => replicate (Z.to_nat num_agents) []
  | S j => stitched j (paths_at j) (assembled j)
  end.

Fixpoint cost_sum (m : nat) : Z :=
  match m with
  | O => 0
  | S j => cost_sum j + cost_or_zero (eecbs_cost (result_at j))
  end.

Definition state_at (m : nat) : loop_state :=
  mk_state (assembled m) (cost_sum m) (segment_result_at <$> seq 0 m)
           (history_at m).

(** Segment [seg] goes through: the solver succeeds and every agent can
    be stitched. *)
Definition goes_through (seg : nat) : bool :=
  eecbs_success (result_at seg) && stitchable seg num_agents (paths_at seg).

(** The state in which the loop is left by segment [seg] when this
    segment does not go through, and how the loop is left. *)
Definition stopped_at (seg : nat) : loop_state :=
  match result_at seg with
  | Eecbs_failure _ _ =>
      mk_state (assembled seg) (cost_sum seg) (segment_result_at <$> seq 0 seg)
               (history_at (S seg))
  | Eecbs_success _ _ _ _ =>
      mk_state (assembled seg) (cost_sum (S seg))
               (segment_result_at <$> seq 0 (S seg)) (history_at (S seg))
  end.

Definition exit_at (seg : nat) : loop_exit :=
  match result_at seg with
  | Eecbs_failure error _ =>
      Returned (Run_failure (Segment_failed (seg + 1) error))
  | Eecbs_success _ _ _ _ => Raised IndexError
  end.

End Timeline.

(** The invariant of a successful segment outcome: one path per agent,
    from the first point of the pair of the agent to its second point. *)
Definition outcome_invariant (num_agents : nat) (agent_pairs : list agent_pair)
    (result : eecbs_result) (segment_paths : list path) : Prop :=
  eecbs_success result = true ∧
  length segment_paths = num_agents ∧
  ∀ a pair, agent_pairs !! a = Some pair →
    ∃ p, segment_paths !! a = Some p ∧ head p = Some pair.1 ∧ last p = Some pair.2.

(** How [run_waypoint_scenario] turns the end of the loop into its result. *)
Definition finish (agents : list scenario) (num_segments : nat) (num_agents : Z)
    (ended : loop_state * loop_exit) : res run_result :=
  match ended with
  | (st, Fell_through) =>
      Ok (Run_success (mk_final agents (total_cost st) (segment_results st)
                                (complete_paths st) num_segments num_agents))
  | (_, Returned d) => Ok d
  | (_, Raised e) => Raise e
  end.

(** The waypoint payload of a line: the eleventh field, when there is one. *)
Definition payload (after_ten : list string) : list string :=
  match after_ten with
  | [] => []
  | f :: _ => PyStr.split_ws f
  end.

(** What one line adds to the entries and to the output. *)
Definition line_entries (raw : string) : list scenario :=
  (parse_line ([], []) raw).1.
Definition line_printed (raw : string) : list printed :=
  (parse_line ([], []) raw).2.

(** The items of the complete pairs of a list. *)
Fixpoint paired {A} (l : list A) : list A :=
  match l with
  | x :: y :: rest => x :: y :: paired rest
  | _ => []
  end.

Definition is_int (s : string) : bool :=
  match PyStr.int s with
  | Some _ => true
  | None => false
  end.

(** The numeric fields of a line with at least ten fields: the fields 0,
    2 to 7 and 9 are integers, field 8 is a float, and the items of the
    complete pairs of the waypoint payload are integers. *)
Definition numeric_fields_parse (parts : list string) : bool :=
  forallb (fun i => is_int (default "" (parts !! i))) [0; 2; 3; 4; 5; 6; 7; 9]%nat
  && PyStr.float_ok (default "" (parts !! 8%nat))
  && forallb is_int (paired (payload (drop 10 parts))).

(** * Concrete inputs *)

(** A status line and a process used as concrete inputs. *)
Definition status_ok : string := "WDG+R+C+T+BP with AStar : Succeed,6,2.1e-05,0,7,6,6,6,".
Definition status_timeout : string := "WDG+R+C+T+BP with AStar : Timeout,-1,60,0,7,6,6,6,".
Definition status_bad_cost : string := "Succeed,6,2.1e-05,0,n/a,6".
Definition status_short : string := "Succeed,6,2.1e-05".

Definition exited (rc : Z) (out : string) : eecbs_call → res completed_process :=
  fun _ => Ok (mk_completed rc out "").

(** The two agents of the end-to-end scenario: the first one has the
    waypoint (2,2), the second one has none. *)
Definition agent_a : scenario :=
  mk_scenario 0 "empty-8-8.map" 8 8 (0, 0) (4, 4) "5.65" 1 [(2, 2)].
Definition agent_b : scenario :=
  mk_scenario 1 "empty-8-8.map" 8 8 (1, 1) (3, 3) "2.82" 0 [].

(** An agent with two waypoints: three segments. *)
Definition agent_c : scenario :=
  mk_scenario 2 "empty-8-8.map" 8 8 (7, 0) (0, 7) "9.9" 2 [(7, 7); (0, 0)].

(** The fields of a line, joined by tabs. *)
Fixpoint tsv (fields : list string) : string :=
  match fields with
  | [] => ""
  | [f] => f
  | f :: fields' => f +:+ String tab (tsv fields')
  end.

Definition line_a : string :=
  tsv ["0"; "empty-8-8.map"; "8"; "8"; "0"; "0"; "4"; "4"; "5.65"; "1"; "2 2"].
Definition line_b : string :=
  tsv ["1"; "empty-8-8.map"; "8"; "8"; "1"; "1"; "3"; "3"; "2.82"; "0"].
Definition line_c : string :=
  tsv ["2"; "empty-8-8.map"; "8"; "8"; "7"; "0"; "0"; "7"; "9.9"; "2"; "7 7 0 0"].

Definition scen_file : list string := ["version 1"; line_a; line_b; line_c].

(** A line with nine fields, and a line whose start is not a number. *)
Definition short_line : string :=
  tsv ["0"; "empty-8-8.map"; "8"; "8"; "0"; "0"; "4"; "4"; "5.65"].
Definition bad_line : string :=
  tsv ["0"; "empty-8-8.map"; "8"; "8"; "zero"; "0"; "4"; "4"; "5.65"; "1"; "2 2"].

(** A line that declares five waypoints and carries one. *)
Definition line_a5 : string :=
  tsv ["0"; "empty-8-8.map"; "8"; "8"; "0"; "0"; "4"; "4"; "5.65"; "5"; "2 2"].

(** A solver that always succeeds with the given standard output and
    moves every agent from its start to its goal in one step. *)
Definition one_step_solver (out : string) : list eecbs_call → eecbs_call → eecbs_response :=
  fun _ cmd =>
    mk_response (Ok (mk_completed 0 out ""))
                (Some ((fun r => (row_bucket r, [row_start r; row_goal r]))
                         <$> arg_a cmd)).

(** A solver that runs past the timeout from its invocation number [k]
    on, and behaves like [one_step_solver] before. *)
Definition timeout_from (k : nat) : list eecbs_call → eecbs_call → eecbs_response :=
  fun history cmd =>
    if decide (k ≤ length history)%nat
    then mk_response (Raise TimeoutExpired) None
    else one_step_solver status_ok history cmd.

(** A solver that replays a fixed sequence of outcomes, one per
    invocation. *)
Definition replay (outcomes : list eecbs_response)
    : list eecbs_call → eecbs_call → eecbs_response :=
  fun history _ =>
    default (mk_response (Raise (OtherException "no outcome left")) None)
            (outcomes !! length history).

Definition succeeded (records : list (nat * path)) : eecbs_response :=
  mk_response (Ok (mk_completed 0 status_ok "")) (Some records).

Definition timed_out : eecbs_response :=
  mk_response (Raise TimeoutExpired) None.

(** * More of the code *)

(** [range(start, stop, step)] for a positive [step]. *)
Definition py_range (start stop step : Z) : list Z :=
  (fun i => start + Z.of_nat i * step)
    <$> seq 0 (Z.to_nat ((stop - start + step - 1) / step)).

(** The body of [for i in range(0, len(waypoint_coords) - 1, 2)] in
    [_parse_scenarios], index by index, with the test [i + 1 <
    len(waypoint_coords)] and the two subscripts. *)
Definition waypoint_loop_body (waypoint_coords : list string)
    (waypoints : list (Z * Z)) (i : nat) : res (list (Z * Z)) :=
  if decide (i + 1 < length waypoint_coords)%nat then
    wp_x ← item waypoint_coords i ≫= int;
    wp_y ← item waypoint_coords (i + 1) ≫= int;
    mret (waypoints ++ [(wp_x, wp_y)])
  else mret waypoints.

Definition waypoint_loop (waypoint_coords : list string) : res (list (Z * Z)) :=
  for_loop (waypoint_loop_body waypoint_coords)
           (Z.to_nat <$> py_range 0 (Z.of_nat (length waypoint_coords) - 1) 2)
           [].

(** ** More of Python's primitives *)

(** [sep.join(items)] *)
Fixpoint join (sep : string) (items : list string) : string :=
  match items with
  | [] => ""
  | [item] => item
  | item :: items' => item +:+ sep +:+ join sep items'
  end.

Definition digit_char (d : N) : ascii := ascii_of_N (48 + d).

(** The decimal digits of [n] in front of [acc]; [fuel] bounds the number
    of digits. *)
Fixpoint str_digits (fuel : nat) (n : N) (acc : string) : string :=
  match fuel with
  | O => acc
  | S fuel' =>
      let acc' := String (digit_char (n mod 10)) acc in
      if (n <? 10)%N then acc' else str_digits fuel' (n / 10) acc'
  end.

(** [str(z)] for an integer. *)
Definition str (z : Z) : string :=
  match z with
  | Zneg p => String "-" (str_digits (S (Pos.to_nat p)) (Npos p) "")
  | _ => str_digits (S (Z.to_nat z)) (Z.to_N z) ""
  end.

(** Text files.  A file opened with [open(name, 'w')] holds the strings
    written to it one after the other (no translation of the newline on
    a POSIX system). *)
Definition written_content (written : list string) : string :=
  foldr String.append "" written.

Definition carriage_return : ascii := ascii_of_nat 13.

(** Reading with [open(name, 'r')]: each of the line ends CR LF, CR and
    LF is handed over as LF. *)
Fixpoint universal_newlines (s : string) : string :=
  match s with
  | EmptyString => EmptyString
  | String c s' =>
      if Ascii.eqb c carriage_return then
        String newline
          match s' with
          | EmptyString => EmptyString
          | String c' s'' =>
              if Ascii.eqb c' newline then universal_newlines s''
              else universal_newlines s'
          end
      else String c (universal_newlines s')
  end.

(** The lines of a text, each with its newline; the last one may lack
    it. *)
Fixpoint keep_ends (s : string) : list string :=
  match s with
  | EmptyString => []
  | String c s' =>
      if Ascii.eqb c newline then String c EmptyString :: keep_ends s'
      else match keep_ends s' with
           | [] => [String c EmptyString]
           | l :: ls => String c l :: ls
           end
  end.

(** [f.readlines()] on a file with the given content. *)
Definition readlines (content : string) : list string :=
  keep_ends (universal_newlines content).

(** The text of the temporary scenario file of a segment: what
    [_create_temp_scenario_multi] writes for each pair, and the strings
    written to the file. *)
Definition row_text (row : instance_row) : string :=
  str (Z.of_nat (row_bucket row)) +:+ String tab
  (row_map_name row +:+ String tab
  (str (row_width row) +:+ String tab
  (str (row_height row) +:+ String tab
  (str (row_start row).1 +:+ String tab
  (str (row_start row).2 +:+ String tab
  (str (row_goal row).1 +:+ String tab
  (str (row_goal row).2 +:+ String tab
  ("0" +:+ String newline "")))))))).

Definition temp_scenario_text (rows : list instance_row) : list string :=
  ("version 1" +:+ String newline "") :: (row_text <$> rows).

(** ** create_waypoint_scenarios (batch_waypoint_runner.py) *)

(** The variables [start_x], [start_y], [goal_x] and [goal_y] hold a
    string first and an integer once the waypoint loop has run. *)
Inductive pyval : Type :=
| Py_str (s : string)
| Py_int (z : Z).

(** [int(v)] *)
Definition pyval_int (v : pyval) : res Z :=
  match v with
  | Py_str s => int s
  | Py_int z => Ok z
  end.

(** [f"{v}"] *)
Definition pyval_format (v : pyval) : string :=
  match v with
  | Py_str s => s
  | Py_int z => str z
  end.

(** The local variables of the waypoint loop that change, and the state
    of the random generator. *)
Record gen_state (R : Type) : Type := mk_gen {
  g_start_x : pyval;
  g_start_y : pyval;
  g_goal_x : pyval;
  g_goal_y : pyval;
  g_waypoints : list string;
  g_rng : R
}.
Arguments mk_gen {R} _ _ _ _ _ _.
Arguments g_start_x {R} _.
Arguments g_start_y {R} _.
Arguments g_goal_x {R} _.
Arguments g_goal_y {R} _.
Arguments g_waypoints {R} _.
Arguments g_rng {R} _.

Section Generator.

(** The random generator: its states, the test [random.random() < 0.7]
    and the draw of a number below [n] on which [randint] rests; the
    draw is brought into the range, so every generator is covered. *)
Variable R : Type.
Variable random_below_07 : R → bool * R.
Variable randbelow : R → Z → Z * R.

(** [random.randint(a, b)]: an integer between [a] and [b], both
    included; a [ValueError] when the range is empty, whose message
    varies with the interpreter and is cut short here. *)
Definition randint (rng : R) (a b : Z) : res (Z * R) :=
  if decide (a ≤ b) then
    let '(v, rng') := randbelow rng (b - a + 1) in
    Ok (a + v `mod` (b - a + 1), rng')
  else Raise (OtherException "empty range for randrange()").

(** The body of [for i in range(wp_count)]. *)
Definition generate_waypoint (width height : string) (st : gen_state R)
    : res (gen_state R) :=
  start_x ← pyval_int (g_start_x st);
  start_y ← pyval_int (g_start_y st);
  goal_x ← pyval_int (g_goal_x st);
  goal_y ← pyval_int (g_goal_y st);
  let '(in_middle, rng1) := random_below_07 (g_rng st) in
  '(wp_x, wp_y, rng3) ←
    (if in_middle then
       '(wp_x, rng2) ← randint rng1 (Z.min start_x goal_x) (Z.max start_x goal_x);
       '(wp_y, rng3) ← randint rng2 (Z.min start_y goal_y) (Z.max start_y goal_y);
       mret (wp_x, wp_y, rng3)
     else
       w ← int width;
       '(wp_x, rng2) ← randint rng1 0 (w - 1);
       h ← int height;
       '(wp_y, rng3) ← randint rng2 0 (h - 1);
       mret (wp_x, wp_y, rng3));
  mret (mk_gen (Py_int start_x) (Py_int start_y) (Py_int goal_x) (Py_int goal_y)
               (g_waypoints st ++ [str wp_x; str wp_y]) rng3).

(** One iteration of [for line in lines[1:]]: the line written to the
    scenario file, if any, and the state of the generator afterwards. *)
Definition waypoint_line (map_name : string) (wp_count : Z) (rng : R)
    (line : string) : res (option string * R) :=
  let parts := PyStr.split tab (PyStr.strip line) in
  if decide (length parts < 8)%nat then mret (None, rng)
  else
    bucket ← item parts 0;
    width ← item parts 2;
    height ← item parts 3;
    start_x ← item parts 4;
    start_y ← item parts 5;
    goal_x ← item parts 6;
    goal_y ← item parts 7;
    optimal_length ← item parts 8;
    st ← for_loop (fun st _ => generate_waypoint width height st)
                  (seq 0 (Z.to_nat wp_count))
                  (mk_gen (Py_str start_x) (Py_str start_y) (Py_str goal_x)
                          (Py_str goal_y) [] rng);
    mret (Some (bucket +:+ String tab
                 (map_name +:+ ".map" +:+ String tab
                 (width +:+ String tab
                 (height +:+ String tab
                 (pyval_format (g_start_x st) +:+ String tab
                 (pyval_format (g_start_y st) +:+ String tab
                 (pyval_format (g_goal_x st) +:+ String tab
                 (pyval_format (g_goal_y st) +:+ String tab
                 (optimal_length +:+ String tab
                 (str wp_count +:+ String tab
                 (join " " (g_waypoints st) +:+ String newline ""))))))))))),
          g_rng st).

(** The lines written for one waypoint count after the version line. *)
Fixpoint waypoint_lines (map_name : string) (wp_count : Z) (rng : R)
    (lines : list string) : res (list string * R) :=
  match lines with
  | [] => mret ([], rng)
  | line :: lines' =>
      '(written, rng1) ← waypoint_line map_name wp_count rng line;
      '(rest, rng2) ← waypoint_lines map_name wp_count rng1 lines';
      mret (match written with
            | Some l => l :: rest
            | None => rest
            end, rng2)
  end.

(** The name of the scenario file of a waypoint count. *)
Definition waypoint_scenario_file (map_name : string) (wp_count : Z) : string :=
  "data/scenarios/" +:+ map_name +:+ "/" +:+ map_name +:+ "_" +:+ str wp_count
    +:+ "wp" +:+ "/" +:+ map_name +:+ "-random-1.scen".

(** [create_waypoint_scenarios]: the files written, each with its name
    and the strings written to it, in the order of [waypoint_counts].
    [lines] is what [readlines()] returned for the base scenario file. *)
Fixpoint create_waypoint_scenarios (lines : list string) (map_name : string)
    (waypoint_counts : list Z) (rng : R)
    : res (list (string * list string) * R) :=
  match waypoint_counts with
  | [] => mret ([], rng)
  | wp_count :: counts' =>
      '(body, rng1) ← waypoint_lines map_name wp_count rng (drop 1 lines);
      '(files, rng2) ← create_waypoint_scenarios lines map_name counts' rng1;
      mret ((waypoint_scenario_file map_name wp_count,
             ("version 1" +:+ String newline "") :: body) :: files, rng2)
  end.

End Generator.

(** * More vocabulary *)

(** Whether the character [c] occurs in [s]. *)
Fixpoint occurs (c : ascii) (s : string) : bool :=
  match s with
  | EmptyString => false
  | String c' s' => Ascii.eqb c' c || occurs c s'
  end.

(** Whether a white-space character occurs in [s]. *)
Fixpoint has_space (s : string) : bool :=
  match s with
  | EmptyString => false
  | String c s' => PyStr.is_space c || has_space s'
  end.

(** The last character of [s]. *)
Fixpoint last_char (s : string) : option ascii :=
  match s with
  | EmptyString => None
  | String c EmptyString => Some c
  | String _ s' => last_char s'
  end.

Definition first_char (s : string) : option ascii :=
  match s with
  | EmptyString => None
  | String c _ => Some c
  end.

(** A string that neither starts nor ends with white space. *)
Definition trimmed (s : string) : Prop :=
  (∀ c, first_char s = Some c → PyStr.is_space c = false) ∧
  (∀ c, last_char s = Some c → PyStr.is_space c = false).


(** The coordinates of the last record of agent [a] among the matches of
    the agent pattern. *)
Definition last_record (a : nat) (matches : list (nat * list (Z * Z)))
    : option (list (Z * Z)) :=
  snd <$> last (filter (fun m => m.1 = a) matches).

(** One more than the greatest agent id among the matches, [0] when
    there is no match. *)
Definition ids_bound (matches : list (nat * list (Z * Z))) : nat :=
  foldr (fun m n => Nat.max (S m.1) n) 0%nat matches.

(** Where [create_waypoint_scenarios] draws a waypoint: in the box
    spanned by the start and the goal, or anywhere on a map of [w]
    columns and [h] rows. *)
Definition waypoint_in_reach (start goal : Z * Z) (w h : Z) (wp : Z * Z) : Prop :=
  (Z.min start.1 goal.1 ≤ wp.1 ≤ Z.max start.1 goal.1 ∧
   Z.min start.2 goal.2 ≤ wp.2 ≤ Z.max start.2 goal.2) ∨
  (0 ≤ wp.1 < w ∧ 0 ≤ wp.2 < h).

(** The items [str(wp_x), str(wp_y)] of a list of waypoints. *)
Definition coords_of (wps : list (Z * Z)) : list string :=
  wps ≫= (fun wp => [str wp.1; str wp.2]).

(** A string without line end. *)
Definition no_line_end (s : string) : Prop :=
  occurs newline s = false ∧ occurs carriage_return s = false.

(** A string that is one line of a text file, with its newline. *)
Definition is_line (l : string) : Prop :=
  ∃ body, l = body +:+ String newline "" ∧ no_line_end body.

(** What the parser would read from a line of a base scenario file, of
    nine fields, had it the waypoint count [0] as tenth field. *)
Definition base_entry (line : string) : res scenario :=
  parse_parts (take 9 (PyStr.split tab (PyStr.strip line)) ++ ["0"]).

Definition base_entries (lines : list string) : list scenario :=
  omap (fun line => match base_entry line with
                    | Ok base => Some base
                    | Raise _ => None
                    end) (drop 1 lines).

(** The entry of a generated scenario file that stems from the entry
    [base] of the base file. *)
Definition generated_from (map_name : string) (wp_count : Z)
    (base s : scenario) : Prop :=
  s = mk_scenario (bucket base) (map_name +:+ ".map") (width base) (height base)
                  (start base) (goal base) (optimal_length base) wp_count
                  (waypoints s) ∧
  length (waypoints s) = Z.to_nat wp_count ∧
  Forall (waypoint_in_reach (start base) (goal base) (width base) (height base))
         (waypoints s).

(** A line of a base scenario file that [create_waypoint_scenarios]
    skips, or that has the nine fields of an entry on a map of at least
    one row and one column. *)
Definition usable_base_line (line : string) : Prop :=
  (length (PyStr.split tab (PyStr.strip line)) < 8)%nat ∨
  ∃ base, base_entry line = Ok base ∧ 1 ≤ width base ∧ 1 ≤ height base.

(** * More concrete inputs *)

(** A base line that lacks the optimal length. *)
Definition eight_fields : string :=
  "0" +:+ String tab ("empty-8-8.map" +:+ String tab ("8" +:+ String tab
  ("8" +:+ String tab ("0" +:+ String tab ("0" +:+ String tab
  ("4" +:+ String tab "4")))))).

(** A base scenario file: the version line, an entry, a blank line and
    an entry whose coordinates carry a sign and leading zeros. *)
Definition base_file : string :=
  "version 1" +:+ String newline
  (short_line +:+ String newline
  (String newline
  (tsv ["1"; "empty-8-8.map"; "8"; "8"; "+7"; "007"; "1"; "2"; "6.5"]
   +:+ String carriage_return (String newline "")))).

(** A random generator that counts its draws: the test succeeds at even
    counts, and the draw below [n] is the count. *)
Definition counting_test (r : nat) : bool * nat := (Nat.even r, S r).
Definition counting_below (r : nat) (n : Z) : Z * nat := (Z.of_nat r, S r).

(** * Properties *)

(** ** The error monad *)

Lemma bind_Ok {A B} (m : res A) (f : A → res B) (b : B) :
  m ≫= f = Ok b ↔ ∃ a, m = Ok a ∧ f a = Ok b.
Proof. destruct m; unfold mbind, res_bind; naive_solver. Qed.

Lemma bind_Raise {A B} (m : res A) (f : A → res B) (e : exn) :
  m ≫= f = Raise e ↔ m = Raise e ∨ ∃ a, m = Ok a ∧ f a = Raise e.
Proof. destruct m; unfold mbind, res_bind; naive_solver. Qed.

Lemma item_Ok {A} (l : list A) (i : nat) (a : A) :
  item l i = Ok a ↔ l !! i = Some a.
Proof. unfold item. destruct (l !! i); naive_solver. Qed.

Lemma item_lookup {A} (l : list A) (i : nat) (a : A) :
  l !! i = Some a → item l i = Ok a.
Proof. apply item_Ok. Qed.

Lemma item_Raise {A} (l : list A) (i : nat) (e : exn) :
  item l i = Raise e ↔ (length l ≤ i)%nat ∧ e = IndexError.
Proof.
  unfold item. destruct (l !! i) eqn:E.
  - apply lookup_lt_Some in E. split; [done | lia].
  - apply lookup_ge_None in E. naive_solver.
Qed.

Lemma set_item_Ok {A} (l : list A) (i : nat) (a : A) :
  (i < length l)%nat → set_item l i a = Ok (<[i := a]> l).
Proof. intros H. unfold set_item. by rewrite decide_True. Qed.

(** ** The primitives on strings *)

Example strip_example :
  PyStr.strip (String tab " 7 7 0 0 " +:+ String newline "") = "7 7 0 0".
Proof. reflexivity. Qed.

Example split_example : PyStr.split "," "Succeed,6,,0," = ["Succeed"; "6"; ""; "0"; ""].
Proof. reflexivity. Qed.

Example split_empty_example : PyStr.split "," "" = [""].
Proof. reflexivity. Qed.

Example split_ws_example : PyStr.split_ws "  7 7   0 0 " = ["7"; "7"; "0"; "0"].
Proof. reflexivity. Qed.

Example contains_example :
  PyStr.contains "Succeed" status_ok = true ∧
  PyStr.contains "Succeed" status_timeout = false.
Proof. by split. Qed.

Example int_examples :
  PyStr.int " -1_000 " = Some (-1000) ∧ PyStr.int "+007" = Some 7 ∧
  PyStr.int "1__0" = None ∧ PyStr.int "1_" = None ∧ PyStr.int "" = None ∧
  PyStr.int "2.5" = None ∧ PyStr.int "- 1" = None.
Proof. by repeat split. Qed.

Example float_examples :
  PyStr.float_ok "5.65" = true ∧ PyStr.float_ok "1." = true ∧
  PyStr.float_ok ".5e-3" = true ∧ PyStr.float_ok " -Infinity" = true ∧
  PyStr.float_ok "7" = true ∧ PyStr.float_ok "." = false ∧
  PyStr.float_ok "1e" = false ∧ PyStr.float_ok "1._5" = false ∧
  PyStr.float_ok "" = false.
Proof. by repeat split. Qed.

(** The separators 28 to 31 are stripped by [strip] but make [int] and
    [float] raise; the no-break space 160 is skipped by all three. *)
Example literal_space_examples :
  PyStr.strip (String (ascii_of_nat 28) "7") = "7" ∧
  PyStr.int (String (ascii_of_nat 28) "7") = None ∧
  PyStr.int ("8" +:+ String (ascii_of_nat 28) "") = None ∧
  PyStr.int (String (ascii_of_nat 31) "7 ") = None ∧
  PyStr.float_ok (String (ascii_of_nat 28) "7") = false ∧
  PyStr.float_ok ("5.65" +:+ String (ascii_of_nat 30) "") = false ∧
  PyStr.int (String (ascii_of_nat 160) "7") = Some 7 ∧
  PyStr.int (String (ascii_of_nat 9) ("7" +:+ String (ascii_of_nat 133) ""))
    = Some 7 ∧
  PyStr.float_ok (String (ascii_of_nat 160) "7") = true.
Proof. by repeat split. Qed.

Example slice_examples :
  slice [1; 2; 3] 0 2 = [1; 2] ∧ slice [1; 2; 3] 1 9 = [2; 3] ∧
  slice [1; 2; 3] 0 (-1) = [1; 2] ∧ slice [1; 2; 3] (-1) 0 = [] ∧
  slice [1; 2; 3] 2 2 = [].
Proof. by repeat split. Qed.

Lemma split_not_nil (sep : ascii) (s : string) : PyStr.split sep s ≠ [].
Proof.
  destruct s as [|c s]; simpl; [done|].
  destruct (Ascii.eqb c sep); [done|].
  by destruct (PyStr.split sep s).
Qed.

Lemma last_item_Ok {A} (l : list A) : l ≠ [] → ∃ a, last l = Some a ∧ last_item l = Ok a.
Proof.
  intros H. unfold last_item. destruct (last l) as [a|] eqn:E.
  - by exists a.
  - by apply last_None in E.
Qed.

(** ** The solver adapter *)

Section Adapter.

Variable subprocess_run : eecbs_call → res completed_process.
Variables (map_file : string) (scenario_file : list instance_row).
Variables (num_agents timeout : Z) (suboptimality : string).

Let cmd := eecbs_cmd map_file scenario_file num_agents timeout suboptimality.
Let outcome :=
  _run_eecbs subprocess_run map_file scenario_file num_agents timeout
             suboptimality.

(** [_run_eecbs] on a process that returned with exit status zero. *)
Lemma run_eecbs_zero (p : completed_process) :
  subprocess_run cmd = Ok p → returncode p = 0 →
  let line := final_status_line (stdout p) in
  let parts := PyStr.split "," line in
  outcome =
    if negb (PyStr.contains "Succeed" line) then
      Eecbs_failure (EECBS_did_not_succeed line) None
    else if decide (5 ≤ length parts)%nat then
      match PyStr.int (default "" (parts !! 4%nat)) with
      | Some c => Eecbs_success (Some c) line (stdout p) (stderr p)
      | None =>
          Eecbs_failure
            (Error_running_EECBS (ValueError_int (default "" (parts !! 4%nat))))
            None
      end
    else Eecbs_success None line (stdout p) (stderr p).
Proof.
  intros Hrun Hrc. subst outcome cmd. unfold _run_eecbs, final_status_line.
  rewrite Hrun. unfold run_eecbs_try. simpl.
  rewrite decide_False by (by intros ?).
  rewrite decide_False by apply split_not_nil.
  destruct (last_item_Ok (PyStr.split newline (PyStr.strip (stdout p))))
    as (line & -> & ->); [apply split_not_nil|]. simpl.
  destruct (PyStr.contains "Succeed" line); simpl; [|done].
  destruct (decide (5 ≤ length (PyStr.split "," line))%nat) as [Hlen|Hlen]; [|done].
  destruct (lookup_lt_is_Some_2 (PyStr.split "," line) 4 ltac:(lia)) as [f Hf].
  rewrite (item_lookup _ _ _ Hf), Hf. simpl. unfold int.
  by destruct (PyStr.int f).
Qed.

(** [_run_eecbs] on a process that returned with a non-zero exit status. *)
Lemma run_eecbs_nonzero (p : completed_process) :
  subprocess_run cmd = Ok p → returncode p ≠ 0 →
  outcome = Eecbs_failure (EECBS_failed_with_return_code (returncode p))
                          (Some (stderr p)).
Proof.
  intros Hrun Hrc. subst outcome cmd. unfold _run_eecbs.
  rewrite Hrun. unfold run_eecbs_try. simpl. by rewrite decide_True.
Qed.

(** Whatever [subprocess.run] raises becomes a failure dictionary. *)
Lemma run_eecbs_raised (e : exn) :
  subprocess_run cmd = Raise e →
  outcome = Eecbs_failure
              (match e with
               | TimeoutExpired => EECBS_timed_out_after timeout
               | _ => Error_running_EECBS e
               end) None.
Proof.
  intros Hrun. subst outcome cmd. unfold _run_eecbs.
  rewrite Hrun. simpl. by destruct e.
Qed.

End Adapter.

(** C7.  When the solver process terminates normally, [_run_eecbs]
    reports success only if the exit status is zero and the last line of
    the standard output contains the marker [Succeed]; when that line
    does not contain the marker the outcome is a failure, and with exit
    status zero it is the failure [EECBS did not succeed]. *)
Theorem success_needs_marker
    (subprocess_run : eecbs_call → res completed_process)
    (map_file : string) (scenario_file : list instance_row)
    (num_agents timeout : Z) (suboptimality : string) (p : completed_process) :
  subprocess_run (eecbs_cmd map_file scenario_file num_agents timeout suboptimality)
    = Ok p →
  let outcome := _run_eecbs subprocess_run map_file scenario_file num_agents
                            timeout suboptimality in
  let line := final_status_line (stdout p) in
  (eecbs_success outcome = true →
     returncode p = 0 ∧ PyStr.contains "Succeed" line = true) ∧
  (PyStr.contains "Succeed" line = false →
     eecbs_success outcome = false ∧
     (returncode p = 0 →
        outcome = Eecbs_failure (EECBS_did_not_succeed line) None)).
Proof.
  intros Hrun outcome line.
  destruct (decide (returncode p = 0)) as [Hrc|Hrc].
  - pose proof (run_eecbs_zero _ _ _ _ _ _ p Hrun Hrc) as Hout.
    simpl in Hout. fold outcome line in Hout.
    destruct (PyStr.contains "Succeed" line) eqn:Hmark; simpl in Hout.
    + split; [done|]. intros H. discriminate H.
    + rewrite Hout. split; [intros H; discriminate H | done].
  - pose proof (run_eecbs_nonzero _ _ _ _ _ _ p Hrun Hrc) as Hout.
    fold outcome in Hout. rewrite Hout.
    split; [intros H; discriminate H | done].
Qed.

Lemma success_needs_marker_witness :
  let outcome := _run_eecbs (exited 0 status_timeout) "m" [] 1 60 "1.2" in
  (eecbs_success outcome = true →
     0 = 0 ∧ PyStr.contains "Succeed" status_timeout = true) ∧
  (PyStr.contains "Succeed" status_timeout = false →
     eecbs_success outcome = false ∧
     (0 = 0 →
        outcome = Eecbs_failure (EECBS_did_not_succeed status_timeout) None)).
Proof.
  exact (success_needs_marker (exited 0 status_timeout) "m" [] 1 60 "1.2"
           (mk_completed 0 status_timeout "") eq_refl).
Defined.

(** ** Segment decomposition *)

Lemma agent_pair_of_total (seg : nat) (seq : list point) :
  seq ≠ [] → agent_pair_of seg seq = Ok (pair_at seg seq).
Proof.
  intros Hne. unfold agent_pair_of, pair_at.
  destruct (decide (seg < length seq - 1)%nat) as [Hlt|Hge].
  - destruct (lookup_lt_is_Some_2 seq seg ltac:(lia)) as [p Hp].
    destruct (lookup_lt_is_Some_2 seq (seg + 1) ltac:(lia)) as [q Hq].
    by rewrite (item_lookup _ _ _ Hp), (item_lookup _ _ _ Hq), Hp, Hq.
  - destruct (last_item_Ok seq Hne) as (g & Hg & ->). by rewrite Hg.
Qed.

Lemma for_append_total {A B} (f : A → res B) (g : A → B) (xs : list A) :
  Forall (fun x => f x = Ok (g x)) xs → for_append f xs = Ok (g <$> xs).
Proof.
  induction 1 as [|x xs Hx _ IH]; simpl; [done|].
  by rewrite Hx, IH.
Qed.

Lemma build_agent_pairs_total (seqs : list (list point)) (seg : nat) :
  Forall (fun seq => seq ≠ []) seqs →
  build_agent_pairs seqs seg = Ok (pair_at seg <$> seqs).
Proof.
  intros H. apply for_append_total.
  eapply Forall_impl; [exact H|]. intros seq. apply agent_pair_of_total.
Qed.

Lemma route_length (agent : scenario) :
  length (route agent) = S (S (length (waypoints agent))).
Proof. unfold route. simpl. rewrite length_app. simpl. lia. Qed.

Lemma route_not_nil (agent : scenario) : route agent ≠ [].
Proof. done. Qed.

Lemma route_first (agent : scenario) : route agent !! 0%nat = Some (start agent).
Proof. done. Qed.

Lemma route_last (agent : scenario) : last (route agent) = Some (goal agent).
Proof.
  unfold route. rewrite app_assoc. apply last_snoc.
Qed.

Lemma routes_not_nil (agents : list scenario) :
  Forall (fun seq => seq ≠ []) (route <$> agents).
Proof. apply Forall_fmap, Forall_forall. intros agent _. apply route_not_nil. Qed.

Lemma foldl_max_le (xs : list nat) (x : nat) :
  (x ≤ foldl Nat.max x xs)%nat ∧ Forall (fun y => (y ≤ foldl Nat.max x xs)%nat) xs.
Proof.
  revert x. induction xs as [|y xs IH]; intros x; simpl; [by split|].
  destruct (IH (Nat.max x y)) as [H1 H2]. split; [lia|].
  constructor; [lia|done].
Qed.

Lemma foldl_max_in (xs : list nat) (x : nat) :
  foldl Nat.max x xs = x ∨ foldl Nat.max x xs ∈ xs.
Proof.
  revert x. induction xs as [|y xs IH]; intros x; simpl; [by left|].
  destruct (IH (Nat.max x y)) as [H|H].
  - rewrite H. destruct (Nat.max_spec x y) as [[_ ->]|[_ ->]].
    + right. left.
    + by left.
  - right. by right.
Qed.

(** [max] on a non-empty list is its greatest element. *)
Lemma py_max_spec (xs : list nat) :
  xs ≠ [] →
  ∃ n, py_max xs = Ok n ∧ n ∈ xs ∧ Forall (fun y => (y ≤ n)%nat) xs.
Proof.
  destruct xs as [|x xs]; [done|]. intros _. simpl.
  exists (foldl Nat.max x xs). split; [done|].
  destruct (foldl_max_le xs x) as [H1 H2]. split.
  - destruct (foldl_max_in xs x) as [->|H]; [left | by right].
  - by constructor.
Qed.

(** ** Stitching *)

Lemma stitch_agent_spec (seg : nat) (segment_paths complete_paths : list path)
    (agent_id : nat) (own : path) :
  complete_paths !! agent_id = Some own →
  stitch_agent seg segment_paths complete_paths agent_id =
    if agent_ok seg segment_paths agent_id
    then Ok (<[agent_id := extend seg own (path_of segment_paths agent_id)]>
               complete_paths)
    else Raise IndexError.
Proof.
  intros Hown. pose proof (lookup_lt_Some _ _ _ Hown) as Hlt.
  unfold stitch_agent, agent_ok, extend, path_of.
  assert ((if decide (agent_id < length segment_paths)%nat
           then item segment_paths agent_id else mret [])
          = Ok (default [] (segment_paths !! agent_id))) as ->.
  { destruct (decide (agent_id < length segment_paths)%nat) as [H|H].
    - destruct (lookup_lt_is_Some_2 _ _ H) as [p Hp].
      by rewrite (item_lookup _ _ _ Hp), Hp.
    - by rewrite lookup_ge_None_2 by lia. }
  simpl. destruct (decide (seg = 0%nat)) as [->|Hseg].
  - simpl. by apply set_item_Ok.
  - rewrite bool_decide_eq_false_2 by done. simpl.
    rewrite (item_lookup _ _ _ Hown). simpl.
    destruct (default [] (segment_paths !! agent_id)) as [|p0 [|p1 rest]]; simpl.
    + done.
    + by apply set_item_Ok.
    + by apply set_item_Ok.
Qed.

Lemma stitch_loop (seg : nat) (segment_paths : list path) (k i : nat)
    (complete_paths : list path) :
  (i + k ≤ length complete_paths)%nat →
  for_loop (stitch_agent seg segment_paths) (seq i k) complete_paths =
    if forallb (agent_ok seg segment_paths) (seq i k)
    then Ok (stitched_range seg segment_paths i k complete_paths)
    else Raise IndexError.
Proof.
  revert i complete_paths. induction k as [|k IH]; intros i cp Hlen; simpl.
  - f_equal. apply list_eq. intros a. unfold stitched_range.
    rewrite list_lookup_imap. destruct (cp !! a); simpl; [|done].
    by rewrite decide_False by lia.
  - destruct (lookup_lt_is_Some_2 cp i ltac:(lia)) as [own Hown].
    rewrite (stitch_agent_spec _ _ _ _ _ Hown).
    destruct (agent_ok seg segment_paths i); simpl; [|done].
    rewrite IH by (rewrite length_insert; lia).
    destruct (forallb (agent_ok seg segment_paths) (seq (S i) k)); [|done].
    f_equal. apply list_eq. intros a. unfold stitched_range.
    rewrite !list_lookup_imap.
    destruct (decide (a = i)) as [->|Hne].
    + rewrite list_lookup_insert_eq by lia. rewrite Hown. simpl.
      rewrite decide_False by lia. by rewrite decide_True by lia.
    + rewrite list_lookup_insert_ne by done.
      destruct (cp !! a); simpl; [|done].
      repeat case_decide; first [done | lia].
Qed.

Lemma stitch_spec (seg : nat) (num_agents : Z) (segment_paths complete_paths : list path) :
  length complete_paths = Z.to_nat num_agents →
  stitch seg num_agents segment_paths complete_paths =
    if stitchable seg num_agents segment_paths
    then Ok (stitched seg segment_paths complete_paths)
    else Raise IndexError.
Proof.
  intros Hlen. unfold stitch, stitchable.
  rewrite stitch_loop by lia.
  destruct (forallb _ _); [|done]. f_equal.
  apply list_eq. intros a. unfold stitched_range, stitched.
  rewrite !list_lookup_imap. destruct (complete_paths !! a) eqn:E; simpl; [|done].
  apply lookup_lt_Some in E. by rewrite decide_True by lia.
Qed.

(** ** The segment loop *)

Lemma segment_loop_app eecbs map_file timeout suboptimality seqs map_name
    width height num_agents (segs1 segs2 : list nat) (st : loop_state) :
  segment_loop eecbs map_file timeout suboptimality seqs map_name width height
               num_agents (segs1 ++ segs2) st =
    match segment_loop eecbs map_file timeout suboptimality seqs map_name width
                       height num_agents segs1 st with
    | (st', Fell_through) =>
        segment_loop eecbs map_file timeout suboptimality seqs map_name width
                     height num_agents segs2 st'
    | stopped => stopped
    end.
Proof.
  revert st. induction segs1 as [|seg segs1 IH]; intros st; simpl; [done|].
  destruct (run_segment _ _ _ _ _ _ _ _ _ st seg) as [st' []]; [apply IH|done..].
Qed.

Section Analysis.

Variable eecbs : list eecbs_call → eecbs_call → eecbs_response.
Variables (map_file : string) (timeout : Z) (suboptimality : string).
Variables (seqs : list (list (Z * Z))) (map_name : string) (width height : Z).
Variable num_agents : Z.

Let run_segment' :=
  run_segment eecbs map_file timeout suboptimality seqs map_name width height
              num_agents.
Let segment_loop' :=
  segment_loop eecbs map_file timeout suboptimality seqs map_name width height
               num_agents.
Let call_at' :=
  call_at map_file timeout suboptimality seqs map_name width height num_agents.
Let history_at' :=
  history_at map_file timeout suboptimality seqs map_name width height num_agents.
Let response_at' :=
  response_at eecbs map_file timeout suboptimality seqs map_name width height
              num_agents.
Let result_at' :=
  result_at eecbs map_file timeout suboptimality seqs map_name width height
            num_agents.
Let paths_at' :=
  paths_at eecbs map_file timeout suboptimality seqs map_name width height
           num_agents.
Let segment_result_at' :=
  segment_result_at eecbs map_file timeout suboptimality seqs map_name width
                    height num_agents.
Let assembled' :=
  assembled eecbs map_file timeout suboptimality seqs map_name width height
            num_agents.
Let cost_sum' :=
  cost_sum eecbs map_file timeout suboptimality seqs map_name width height
           num_agents.
Let state_at' :=
  state_at eecbs map_file timeout suboptimality seqs map_name width height
           num_agents.
Let goes_through' :=
  goes_through eecbs map_file timeout suboptimality seqs map_name width height
               num_agents.
Let stopped_at' :=
  stopped_at eecbs map_file timeout suboptimality seqs map_name width height
             num_agents.
Let exit_at' :=
  exit_at eecbs map_file timeout suboptimality seqs map_name width height
          num_agents.

Lemma length_assembled (m : nat) : length (assembled' m) = Z.to_nat num_agents.
Proof.
  unfold assembled'. induction m as [|m IH]; simpl.
  - by rewrite length_replicate.
  - unfold stitched. by rewrite length_imap.
Qed.

Lemma history_at_S (seg : nat) :
  history_at' (S seg) = history_at' seg ++ [call_at' seg].
Proof. unfold history_at', history_at. by rewrite seq_S, fmap_app. Qed.

Hypothesis seqs_not_nil : Forall (fun seq => seq ≠ []) seqs.

Lemma run_segment_at (seg : nat) :
  run_segment' (state_at' seg) seg =
    if goes_through' seg then (state_at' (S seg), Fell_through)
    else (stopped_at' seg, exit_at' seg).
Proof.
  unfold run_segment', run_segment, goes_through', goes_through,
    stopped_at', stopped_at, exit_at', exit_at.
  rewrite (build_agent_pairs_total _ _ seqs_not_nil).
  change (history (state_at' seg)) with (history_at' seg).
  change (pair_at seg <$> seqs) with (pairs_at seqs seg).
  change (eecbs_cmd map_file
            (_create_temp_scenario_multi map_name width height (pairs_at seqs seg))
            num_agents timeout suboptimality) with (call_at' seg).
  change (_run_eecbs _ map_file _ num_agents timeout suboptimality)
    with (result_at' seg).
  change (eecbs (history_at' seg) (call_at' seg)) with (response_at' seg).
  change (_parse_paths_file (paths_file (response_at' seg))) with (paths_at' seg).
  rewrite <- history_at_S.
  change (result_at eecbs map_file timeout suboptimality seqs map_name width
                    height num_agents seg) with (result_at' seg).
  destruct (result_at' seg) as [error err|cost output out err] eqn:Hres.
  - done.
  - rewrite stitch_spec by apply length_assembled.
    assert (segment_result_at' <$> seq 0 (S seg) =
            (segment_result_at' <$> seq 0 seg) ++
            [mk_segment_result (seg + 1) (pairs_at seqs seg) cost (paths_at' seg)
                               output]) as Hsr.
    { rewrite seq_S, fmap_app. simpl.
      unfold segment_result_at' at 2, segment_result_at.
      change (result_at eecbs map_file timeout suboptimality seqs map_name width
                        height num_agents seg) with (result_at' seg).
      by rewrite Hres. }
    unfold state_at', state_at.
    change (segment_result_at eecbs map_file timeout suboptimality seqs map_name
                              width height num_agents) with segment_result_at'.
    rewrite Hsr.
    cbn [cost_sum assembled complete_paths total_cost segment_results andb
         eecbs_success].
    change (result_at eecbs map_file timeout suboptimality seqs map_name width
                      height num_agents seg) with (result_at' seg).
    rewrite Hres.
    unfold paths_at', history_at', segment_result_at'.
    by destruct (stitchable _ _ _).
Qed.

Lemma segment_loop_through (m : nat) :
  (∀ j, (j < m)%nat → goes_through' j = true) →
  segment_loop' (seq 0 m) (state_at' 0) = (state_at' m, Fell_through).
Proof.
  unfold segment_loop'. induction m as [|m IH]; intros Hgood; [done|].
  rewrite seq_S, segment_loop_app, IH by (intros j Hj; apply Hgood; lia).
  simpl. fold run_segment'. rewrite run_segment_at, Hgood by lia. done.
Qed.

(** The loop over [range(n)] stops at the first segment that does not
    go through. *)
Lemma segment_loop_stops (n k : nat) :
  (k < n)%nat →
  (∀ j, (j < k)%nat → goes_through' j = true) →
  goes_through' k = false →
  segment_loop' (seq 0 n) (state_at' 0) = (stopped_at' k, exit_at' k).
Proof.
  intros Hk Hgood Hbad.
  replace n with (k + S (n - S k))%nat by lia.
  rewrite seq_app. unfold segment_loop'.
  rewrite segment_loop_app. fold segment_loop'.
  rewrite segment_loop_through by done.
  simpl. fold run_segment'. rewrite run_segment_at, Hbad.
  unfold exit_at', exit_at. by destruct (result_at _ _ _ _ _ _ _ _ _ k).
Qed.

(** The loop over [range(n)] continues the loop over [range(m)]. *)
Lemma run_segments_prefix (n m : nat) :
  (m ≤ n)%nat →
  run_segments eecbs map_file timeout suboptimality seqs map_name width height
               num_agents n =
    match run_segments eecbs map_file timeout suboptimality seqs map_name width
                       height num_agents m with
    | (st, Fell_through) => segment_loop' (seq m (n - m)) st
    | stopped => stopped
    end.
Proof.
  intros Hle. unfold run_segments.
  replace n with (m + (n - m))%nat at 1 by lia.
  by rewrite seq_app, segment_loop_app.
Qed.

End Analysis.

(** ** Decomposition into segments (C1) *)

(** With a non-negative index and a non-negative count, the agents that
    pass the test [len(agents) < num_agents] are exactly [num_agents]. *)
Lemma selected_count {A} (scenarios : list A) (scenario_index num_agents : Z) :
  0 ≤ scenario_index → 0 ≤ num_agents →
  let agents := slice scenarios scenario_index (scenario_index + num_agents) in
  ¬ Z.of_nat (length agents) < num_agents →
  Z.of_nat (length agents) = num_agents.
Proof.
  intros Hindex Hcount agents Henough.
  assert (Z.of_nat (length agents) ≤ num_agents); [|lia].
  unfold agents, slice, clamp. rewrite length_take.
  rewrite !(proj2 (Z.ltb_ge _ _)) by lia. lia.
Qed.

Lemma pair_at_route (seg : nat) (agent : scenario) :
  if decide (seg < length (route agent) - 1)%nat then
    ∃ p q, route agent !! seg = Some p ∧ route agent !! (seg + 1)%nat = Some q ∧
           pair_at seg (route agent) = (p, q)
  else pair_at seg (route agent) = (goal agent, goal agent).
Proof.
  unfold pair_at. destruct (decide (seg < length (route agent) - 1)%nat) as [H|H].
  - destruct (lookup_lt_is_Some_2 (route agent) seg ltac:(lia)) as [p Hp].
    destruct (lookup_lt_is_Some_2 (route agent) (seg + 1) ltac:(lia)) as [q Hq].
    exists p, q. by rewrite Hp, Hq.
  - by rewrite route_last.
Qed.

(** C1.  For a non-empty batch of agents, [num_segments] is the greatest
    [len(route) - 1] over the agents, where the route of an agent is
    [[start] + waypoints + [goal]]; for every segment index below
    [num_segments] the inner loop builds one pair per agent, in the order
    of the agents: [(route[i], route[i+1])] when [i < len(route) - 1],
    the stationary pair [(goal, goal)] otherwise.  For the two agents of
    the end-to-end scenario this gives two segments with the stated
    pairs. *)
Theorem decomposition_pairs :
  (∀ agents : list scenario,
     agents ≠ [] →
     ∃ num_segments : nat,
       py_max ((fun seq => length seq - 1)%nat <$> (route <$> agents))
         = Ok num_segments ∧
       (∃ agent, agent ∈ agents ∧ num_segments = (length (route agent) - 1)%nat) ∧
       (∀ agent, agent ∈ agents → (length (route agent) - 1 ≤ num_segments)%nat) ∧
       ∀ i, (i < num_segments)%nat →
         ∃ agent_pairs,
           build_agent_pairs (route <$> agents) i = Ok agent_pairs ∧
           length agent_pairs = length agents ∧
           ∀ a agent, agents !! a = Some agent →
             if decide (i < length (route agent) - 1)%nat then
               ∃ p q, route agent !! i = Some p ∧
                      route agent !! (i + 1)%nat = Some q ∧
                      agent_pairs !! a = Some (p, q)
             else agent_pairs !! a = Some (goal agent, goal agent)) ∧
  route agent_a = [(0, 0); (2, 2); (4, 4)] ∧
  route agent_b = [(1, 1); (3, 3)] ∧
  py_max ((fun seq => length seq - 1)%nat <$> (route <$> [agent_a; agent_b]))
    = Ok 2%nat ∧
  build_agent_pairs (route <$> [agent_a; agent_b]) 0
    = Ok [((0, 0), (2, 2)); ((1, 1), (3, 3))] ∧
  build_agent_pairs (route <$> [agent_a; agent_b]) 1
    = Ok [((2, 2), (4, 4)); ((3, 3), (3, 3))].
Proof.
  split; [|by repeat split].
  intros agents Hne.
  destruct (py_max_spec ((fun seq => length seq - 1)%nat <$> (route <$> agents)))
    as (n & Hmax & Hin & Hle).
  { by destruct agents. }
  exists n. split; [done|]. split; [|split].
  - apply list_elem_of_fmap_1 in Hin as (r & -> & Hr).
    apply list_elem_of_fmap_1 in Hr as (agent & -> & Hagent). by exists agent.
  - intros agent Hagent. rewrite Forall_forall in Hle. apply Hle.
    apply list_elem_of_fmap. exists (route agent). split; [done|].
    apply list_elem_of_fmap. by exists agent.
  - intros i _. exists (pair_at i <$> (route <$> agents)).
    split; [apply build_agent_pairs_total, routes_not_nil|].
    split; [by rewrite !length_fmap|].
    intros a agent Ha.
    assert ((pair_at i <$> (route <$> agents)) !! a
            = Some (pair_at i (route agent))) as ->.
    { by rewrite !list_lookup_fmap, Ha. }
    pose proof (pair_at_route i agent) as H.
    destruct (decide (i < length (route agent) - 1)%nat).
    + destruct H as (p & q & Hp & Hq & ->). by exists p, q.
    + by rewrite H.
Qed.

Lemma decomposition_pairs_witness :
  ∃ num_segments : nat,
    py_max ((fun seq => length seq - 1)%nat <$> (route <$> [agent_b; agent_a]))
      = Ok num_segments ∧
    (∃ agent, agent ∈ [agent_b; agent_a] ∧
              num_segments = (length (route agent) - 1)%nat) ∧
    (∀ agent, agent ∈ [agent_b; agent_a] →
              (length (route agent) - 1 ≤ num_segments)%nat) ∧
    ∀ i, (i < num_segments)%nat →
      ∃ agent_pairs,
        build_agent_pairs (route <$> [agent_b; agent_a]) i = Ok agent_pairs ∧
        length agent_pairs = length [agent_b; agent_a] ∧
        ∀ a agent, [agent_b; agent_a] !! a = Some agent →
          if decide (i < length (route agent) - 1)%nat then
            ∃ p q, route agent !! i = Some p ∧
                   route agent !! (i + 1)%nat = Some q ∧
                   agent_pairs !! a = Some (p, q)
          else agent_pairs !! a = Some (goal agent, goal agent).
Proof.
  apply (proj1 decomposition_pairs [agent_b; agent_a]). discriminate.
Defined.

(** ** End points of the assembled paths (C3) *)

Lemma head_extend_first (own p : path) : head (extend 0 own p) = head p.
Proof. done. Qed.

Lemma head_extend_later (seg : nat) (own p : path) (x : Z * Z) :
  seg ≠ 0%nat → head own = Some x → head (extend seg own p) = Some x.
Proof.
  intros Hseg Hown. unfold extend. rewrite decide_False by done.
  destruct own as [|x' own]; [done|]. by destruct (decide (1 < length p)%nat).
Qed.

Lemma last_extend (seg : nat) (own p : path) (y : Z * Z) :
  last p = Some y → last (extend seg own p) = Some y.
Proof.
  intros Hp. unfold extend. destruct (decide (seg = 0%nat)); [done|].
  destruct p as [|p0 [|p1 rest]]; [done| |].
  - simpl in *. by rewrite last_snoc.
  - rewrite decide_True by (simpl; lia).
    rewrite last_cons_cons in Hp. simpl. by rewrite last_app, Hp.
Qed.

(** The second point of the pair of the last segment is the goal. *)
Lemma pair_at_final (agent : scenario) (n : nat) :
  (length (route agent) - 1 ≤ S n)%nat →
  (pair_at n (route agent)).2 = goal agent.
Proof.
  intros Hle. pose proof (route_last agent) as Hlast.
  unfold pair_at. destruct (decide (n < length (route agent) - 1)%nat) as [H|H].
  - simpl. rewrite last_lookup in Hlast.
    replace (n + 1)%nat with (pred (length (route agent))) by lia.
    by rewrite Hlast.
  - simpl. by rewrite Hlast.
Qed.

Lemma pair_at_initial (agent : scenario) :
  (pair_at 0 (route agent)).1 = start agent.
Proof.
  unfold pair_at. rewrite decide_True by (rewrite route_length; lia). done.
Qed.

Lemma outcome_invariant_stitchable (seg : nat) (agent_pairs : list agent_pair)
    (result : eecbs_result) (segment_paths : list path) :
  outcome_invariant (length agent_pairs) agent_pairs result segment_paths →
  stitchable seg (Z.of_nat (length agent_pairs)) segment_paths = true.
Proof.
  intros (_ & _ & Hpaths). unfold stitchable. rewrite Nat2Z.id.
  apply forallb_forall. intros a Ha%in_seq.
  destruct (lookup_lt_is_Some_2 agent_pairs a ltac:(lia)) as [pair Hpair].
  destruct (Hpaths a pair Hpair) as (p & Hp & Hhead & _).
  unfold agent_ok, path_of. rewrite Hp. simpl.
  destruct p; [done|]. by rewrite orb_true_r.
Qed.

Section Endpoints.

Variable eecbs : list eecbs_call → eecbs_call → eecbs_response.
Variables (map_file : string) (timeout : Z) (suboptimality : string).
Variables (agents : list scenario) (map_name : string) (width height : Z).

Let seqs := route <$> agents.
Let num_agents := Z.of_nat (length agents).
Let result_at' :=
  result_at eecbs map_file timeout suboptimality seqs map_name width height
            num_agents.
Let paths_at' :=
  paths_at eecbs map_file timeout suboptimality seqs map_name width height
           num_agents.
Let assembled' :=
  assembled eecbs map_file timeout suboptimality seqs map_name width height
            num_agents.

Lemma length_pairs_at (seg : nat) : length (pairs_at seqs seg) = length agents.
Proof. unfold pairs_at, seqs. by rewrite !length_fmap. Qed.

Lemma lookup_pairs_at (seg a : nat) (agent : scenario) :
  agents !! a = Some agent →
  pairs_at seqs seg !! a = Some (pair_at seg (route agent)).
Proof. intros Ha. unfold pairs_at, seqs. by rewrite !list_lookup_fmap, Ha. Qed.

Lemma assembled_step (m : nat) :
  assembled' (S m) = stitched m (paths_at' m) (assembled' m).
Proof. done. Qed.

Lemma assembled_ends (m a : nat) (agent : scenario) :
  (∀ j, (j ≤ m)%nat →
     outcome_invariant (length agents) (pairs_at seqs j) (result_at' j)
                       (paths_at' j)) →
  agents !! a = Some agent →
  ∃ P, assembled' (S m) !! a = Some P ∧
       head P = Some (start agent) ∧
       last P = Some (pair_at m (route agent)).2.
Proof.
  intros Hinv Ha. induction m as [|m IH].
  - destruct (Hinv 0%nat ltac:(lia)) as (_ & _ & Hpaths).
    destruct (Hpaths a _ (lookup_pairs_at 0 a agent Ha)) as (p & Hp & Hhead & Hlast).
    rewrite assembled_step. unfold stitched. rewrite list_lookup_imap.
    unfold assembled', assembled.
    rewrite lookup_replicate_2
      by (unfold num_agents; rewrite Nat2Z.id; by eapply lookup_lt_Some).
    simpl. unfold path_of. rewrite Hp. simpl.
    exists p. rewrite pair_at_initial in Hhead. done.
  - destruct IH as (own & Hown & Hhead_own & _).
    { intros j Hj. apply Hinv. lia. }
    destruct (Hinv (S m) ltac:(lia)) as (_ & _ & Hpaths).
    destruct (Hpaths a _ (lookup_pairs_at (S m) a agent Ha))
      as (p & Hp & Hhead & Hlast).
    exists (extend (S m) own p). split; [|split].
    + rewrite (assembled_step (S m)). unfold stitched at 1.
      rewrite list_lookup_imap, Hown. simpl. unfold path_of. by rewrite Hp.
    + by apply head_extend_later.
    + by apply last_extend.
Qed.

(** C3.  Suppose that each of the first [m] segments, [1 ≤ m ≤
    num_segments], has a successful outcome that satisfies the invariant
    of segment outcomes (one path per agent, from the first point of the
    agent's pair to its second point).  Then the loop gets through these
    [m] segments, and the assembled path of every agent starts at the
    start of the agent; when [m = num_segments], it ends at the goal of
    the agent.  (The loop over all the segments goes on from the state
    reached after the first [m], see [run_segments_prefix].) *)
Theorem assembled_path_endpoints (num_segments m : nat) :
  py_max ((fun seq => length seq - 1)%nat <$> seqs) = Ok num_segments →
  (1 ≤ m ≤ num_segments)%nat →
  (∀ j, (j < m)%nat →
     outcome_invariant (length agents) (pairs_at seqs j) (result_at' j)
                       (paths_at' j)) →
  ∃ st,
    run_segments eecbs map_file timeout suboptimality seqs map_name width height
                 num_agents m = (st, Fell_through) ∧
    ∀ a agent, agents !! a = Some agent →
      ∃ P, complete_paths st !! a = Some P ∧
           head P = Some (start agent) ∧
           (m = num_segments → last P = Some (goal agent)).
Proof.
  intros Hmax [Hm1 Hmn] Hinv.
  exists (state_at eecbs map_file timeout suboptimality seqs map_name width
                   height num_agents m).
  split.
  - unfold run_segments.
    change (initial_state num_agents)
      with (state_at eecbs map_file timeout suboptimality seqs map_name width
                     height num_agents 0).
    apply segment_loop_through; [apply routes_not_nil|].
    intros j Hj. destruct (Hinv j Hj) as (Hsucc & Hlen & Hpaths).
    unfold goes_through. fold result_at' paths_at'. rewrite Hsucc. simpl.
    unfold num_agents. rewrite <- (length_pairs_at j).
    eapply outcome_invariant_stitchable.
    rewrite length_pairs_at. by apply Hinv.
  - intros a agent Ha. destruct m as [|m]; [lia|].
    destruct (assembled_ends m a agent) as (P & HP & Hhead & Hlast); [|done|].
    { intros j Hj. apply Hinv. lia. }
    exists P. split; [exact HP|]. split; [done|].
    intros <-. rewrite Hlast. f_equal. apply pair_at_final.
    destruct (py_max_spec ((fun seq => length seq - 1)%nat <$> seqs))
      as (n & Hn & _ & Hle).
    { intros Hnil. rewrite Hnil in Hmax. discriminate Hmax. }
    rewrite Hmax in Hn. injection Hn as <-.
    rewrite Forall_forall in Hle. apply Hle.
    apply list_elem_of_fmap. exists (route agent). split; [done|].
    apply list_elem_of_fmap. exists agent. split; [done|].
    by eapply list_elem_of_lookup_2.
Qed.

End Endpoints.

Lemma assembled_path_endpoints_witness :
  ∃ st,
    run_segments (one_step_solver status_ok) "m.map" 60 "1.2"
                 (route <$> [agent_a; agent_b]) "empty-8-8.map" 8 8
                 (Z.of_nat (length [agent_a; agent_b])) 2 = (st, Fell_through) ∧
    ∀ a agent, [agent_a; agent_b] !! a = Some agent →
      ∃ P, complete_paths st !! a = Some P ∧
           head P = Some (start agent) ∧
           (2%nat = 2%nat → last P = Some (goal agent)).
Proof.
  apply (assembled_path_endpoints (one_step_solver status_ok) "m.map" 60 "1.2"
           [agent_a; agent_b] "empty-8-8.map" 8 8 2 2).
  - reflexivity.
  - lia.
  - intros j Hj. destruct j as [|[|j]]; [| |lia].
    + split; [reflexivity|]. split; [reflexivity|].
      intros [|[|a]] pair Hpair; [| |discriminate Hpair];
        injection Hpair as <-; eexists; (split; [reflexivity|]);
        split; reflexivity.
    + split; [reflexivity|]. split; [reflexivity|].
      intros [|[|a]] pair Hpair; [| |discriminate Hpair];
        injection Hpair as <-; eexists; (split; [reflexivity|]);
        split; reflexivity.
Defined.

(** ** Abort on the first failing segment (C4, C8) *)

Lemma py_max_routes (agents : list scenario) :
  agents ≠ [] →
  ∃ n, py_max ((fun seq => length seq - 1)%nat <$> (route <$> agents)) = Ok n ∧
       (1 ≤ n)%nat.
Proof.
  intros Hne.
  destruct (py_max_spec ((fun seq => length seq - 1)%nat <$> (route <$> agents)))
    as (n & Hmax & Hin & _).
  { by destruct agents. }
  exists n. split; [done|].
  apply list_elem_of_fmap_1 in Hin as (r & -> & Hr).
  apply list_elem_of_fmap_1 in Hr as (agent & -> & _).
  rewrite route_length. lia.
Qed.

(** [run_waypoint_scenario] once the agents have been selected. *)
Lemma run_waypoint_scenario_selected eecbs map_file timeout suboptimality
    (lines : list string) (scenario_index num_agents : Z)
    (agent0 : scenario) (others : list scenario) :
  let scenarios := (_parse_scenarios lines).1 in
  scenario_index < Z.of_nat (length scenarios) →
  slice scenarios scenario_index (scenario_index + num_agents) = agent0 :: others →
  num_agents ≤ Z.of_nat (length (agent0 :: others)) →
  ∃ num_segments,
    py_max ((fun seq => length seq - 1)%nat <$> (route <$> agent0 :: others))
      = Ok num_segments ∧
    (1 ≤ num_segments)%nat ∧
    run_waypoint_scenario eecbs map_file timeout suboptimality lines
                          scenario_index num_agents =
      finish (agent0 :: others) num_segments num_agents
        (run_segments eecbs map_file timeout suboptimality
           (route <$> agent0 :: others) (map_name agent0) (width agent0)
           (height agent0) num_agents num_segments).
Proof.
  intros scenarios Hindex Hslice Hcount.
  destruct (py_max_routes (agent0 :: others)) as (n & Hmax & Hn); [done|].
  exists n. split; [done|]. split; [done|].
  unfold run_waypoint_scenario. fold scenarios.
  assert (length scenarios ≠ 0%nat) as Hlen.
  { intros H0. unfold slice in Hslice. apply nil_length_inv in H0.
    rewrite H0, drop_nil, take_nil in Hslice. discriminate Hslice. }
  rewrite decide_False by done.
  rewrite decide_False by lia.
  rewrite Hslice. rewrite decide_False by lia.
  rewrite Hmax. simpl.
  by destruct (run_segments _ _ _ _ _ _ _ _ _ _) as [st [| |]].
Qed.

Section Abort.

Variable eecbs : list eecbs_call → eecbs_call → eecbs_response.
Variables (map_file : string) (timeout : Z) (suboptimality : string).
Variables (seqs : list (list (Z * Z))) (map_name : string) (width height : Z).
Variable num_agents : Z.

Let result_at' :=
  result_at eecbs map_file timeout suboptimality seqs map_name width height
            num_agents.
Let paths_at' :=
  paths_at eecbs map_file timeout suboptimality seqs map_name width height
           num_agents.
Let goes_through' :=
  goes_through eecbs map_file timeout suboptimality seqs map_name width height
               num_agents.
Let state_at' :=
  state_at eecbs map_file timeout suboptimality seqs map_name width height
           num_agents.
Let stopped_at' :=
  stopped_at eecbs map_file timeout suboptimality seqs map_name width height
             num_agents.
Let exit_at' :=
  exit_at eecbs map_file timeout suboptimality seqs map_name width height
          num_agents.
Let history_at' :=
  history_at map_file timeout suboptimality seqs map_name width height num_agents.
Let cost_sum' :=
  cost_sum eecbs map_file timeout suboptimality seqs map_name width height
           num_agents.
Let run_segments' :=
  run_segments eecbs map_file timeout suboptimality seqs map_name width height
               num_agents.

Hypothesis seqs_not_nil : Forall (fun seq => seq ≠ []) seqs.

(** Among the first [k] segments, either all go through or there is a
    first one that does not. *)
Lemma first_stop (k : nat) :
  (∀ j, (j < k)%nat → goes_through' j = true) ∨
  ∃ j, (j < k)%nat ∧ (∀ i, (i < j)%nat → goes_through' i = true) ∧
       goes_through' j = false.
Proof.
  induction k as [|k [IH|(j & Hj & Hbefore & Hbad)]].
  - left. intros j Hj. lia.
  - destruct (goes_through' k) eqn:Hk.
    + left. intros j Hj. destruct (decide (j = k)) as [->|]; [done|].
      apply IH. lia.
    + right. exists k. split; [lia|]. by split.
  - right. exists j. split; [lia|]. by split.
Qed.

(** The segment loop, for every behaviour of the solver. *)
Lemma run_segments_cases (n : nat) :
  (run_segments' n = (state_at' n, Fell_through) ∧
   ∀ j, (j < n)%nat → goes_through' j = true) ∨
  ∃ k, (k < n)%nat ∧ (∀ j, (j < k)%nat → goes_through' j = true) ∧
       goes_through' k = false ∧
       run_segments' n = (stopped_at' k, exit_at' k).
Proof.
  destruct (first_stop n) as [Hall|(k & Hk & Hbefore & Hbad)].
  - left. split; [|done]. by apply segment_loop_through.
  - right. exists k. split; [done|]. split; [done|]. split; [done|].
    by apply segment_loop_stops.
Qed.

(** When the solver fails on segment [k] and the segments before it went
    through, the run returns the failure of segment [k], numbered [k + 1],
    after invocations for the segments [0], ..., [k] and no other. *)
Lemma run_segments_failure (n k : nat) (error : eecbs_error) (err : option string) :
  (k < n)%nat →
  (∀ j, (j < k)%nat → goes_through' j = true) →
  result_at' k = Eecbs_failure error err →
  ∃ st, run_segments' n
          = (st, Returned (Run_failure (Segment_failed (k + 1) error))) ∧
        history st = history_at' (S k) ∧
        complete_paths st = complete_paths (state_at' k) ∧
        total_cost st = cost_sum' k ∧
        length (segment_results st) = k.
Proof.
  intros Hk Hbefore Hfail.
  assert (goes_through' k = false) as Hbad.
  { unfold goes_through', goes_through. fold result_at'. by rewrite Hfail. }
  exists (stopped_at' k).
  unfold run_segments', run_segments.
  change (initial_state num_agents) with (state_at' 0).
  unfold state_at'. rewrite segment_loop_stops with (k := k) by done.
  unfold stopped_at', exit_at', stopped_at, exit_at. fold result_at'.
  rewrite Hfail. simpl. repeat split; try done.
  by rewrite length_fmap, length_seq.
Qed.

End Abort.

Lemma scen_file_parsed :
  _parse_scenarios scen_file = ([agent_a; agent_b; agent_c], []).
Proof. reflexivity. Qed.

(** ** Failure on the first segment (C8) *)

(** C8.  When the solver fails on segment 0, the run returns the failure
    dictionary, whose only keys are [success] (false) and [error], the
    error being that of segment number 1 (index 0) with the reason given
    by the adapter; at that point one invocation has been made, every
    assembled path is empty, the total cost is 0 and no segment result
    has been recorded.  Whatever the solver does, when segment [k] is the
    first one on which it fails, the total cost at the end of the loop is
    the sum of the costs of the first [m] segments for some [m ≤ k], and
    at most [k + 1] invocations have been made. *)
Theorem failure_on_first_segment eecbs map_file timeout suboptimality
    (lines : list string) (scenario_index num_agents : Z)
    (agent0 : scenario) (others : list scenario) (num_segments : nat) :
  let scenarios := (_parse_scenarios lines).1 in
  let seqs := route <$> agent0 :: others in
  let result_at' :=
    result_at eecbs map_file timeout suboptimality seqs (map_name agent0)
              (width agent0) (height agent0) num_agents in
  let ended :=
    run_segments eecbs map_file timeout suboptimality seqs (map_name agent0)
                 (width agent0) (height agent0) num_agents num_segments in
  scenario_index < Z.of_nat (length scenarios) →
  slice scenarios scenario_index (scenario_index + num_agents) = agent0 :: others →
  num_agents ≤ Z.of_nat (length (agent0 :: others)) →
  py_max ((fun seq => length seq - 1)%nat <$> seqs) = Ok num_segments →
  (∀ error err,
     result_at' 0%nat = Eecbs_failure error err →
     run_waypoint_scenario eecbs map_file timeout suboptimality lines
                           scenario_index num_agents
       = Ok (Run_failure (Segment_failed (0 + 1) error)) ∧
     ended.2 = Returned (Run_failure (Segment_failed (0 + 1) error)) ∧
     length (history ended.1) = 1%nat ∧
     complete_paths ended.1 = replicate (Z.to_nat num_agents) [] ∧
     total_cost ended.1 = 0 ∧
     segment_results ended.1 = []) ∧
  (∀ k,
     (k < num_segments)%nat →
     (∀ j, (j < k)%nat → eecbs_success (result_at' j) = true) →
     eecbs_success (result_at' k) = false →
     ∃ m, (m ≤ k)%nat ∧
          total_cost ended.1 =
            cost_sum eecbs map_file timeout suboptimality seqs (map_name agent0)
                     (width agent0) (height agent0) num_agents m ∧
          (length (history ended.1) ≤ k + 1)%nat ∧
          ∀ r, finish (agent0 :: others) num_segments num_agents ended
                 ≠ Ok (Run_success r)).
Proof.
  intros scenarios seqs result_at' ended Hindex Hslice Hcount Hmax.
  assert (Forall (fun seq => seq ≠ []) seqs) as Hnil by apply routes_not_nil.
  destruct (run_waypoint_scenario_selected eecbs map_file timeout suboptimality
              lines scenario_index num_agents agent0 others Hindex Hslice Hcount)
    as (n & Hn & Hpos & Hrun).
  fold seqs in Hn, Hrun. rewrite Hmax in Hn. injection Hn as <-.
  fold ended in Hrun. split.
  - intros error err Hfail.
    destruct (run_segments_failure eecbs map_file timeout suboptimality seqs
                (map_name agent0) (width agent0) (height agent0) num_agents
                Hnil num_segments 0 error err) as (st & Hst & Hh & Hcp & Hcost & Hsr);
      [lia | intros j Hj; lia | exact Hfail |].
    fold ended in Hst. rewrite Hrun, Hst. simpl.
    split; [done|]. split; [done|]. split; [by rewrite Hh|].
    split; [done|]. split; [done|]. by apply nil_length_inv.
  - intros k Hk Hbefore Hfail.
    destruct (result_at' k) as [error err|] eqn:Hres; [|discriminate Hfail].
    destruct (first_stop eecbs map_file timeout suboptimality seqs
                (map_name agent0) (width agent0) (height agent0) num_agents k)
      as [Hall|(j & Hj & Hall & Hbad)].
    + destruct (run_segments_failure eecbs map_file timeout suboptimality seqs
                  (map_name agent0) (width agent0) (height agent0) num_agents
                  Hnil num_segments k error err Hk Hall Hres)
        as (st & Hst & Hh & _ & Hcost & _).
      fold ended in Hst. exists k. rewrite Hst. simpl.
      split; [done|]. split; [done|]. split; [|intros r H; discriminate H].
      rewrite Hh. unfold history_at. rewrite length_fmap, length_seq. lia.
    + pose proof (segment_loop_stops eecbs map_file timeout suboptimality seqs
                    (map_name agent0) (width agent0) (height agent0) num_agents
                    Hnil num_segments j ltac:(lia) Hall Hbad) as Hst.
      change (segment_loop _ _ _ _ _ _ _ _ _ _ _) with ended in Hst.
      specialize (Hbefore j Hj). unfold result_at' in Hbefore.
      exists (S j). rewrite Hst. unfold stopped_at, exit_at.
      destruct (result_at _ _ _ _ _ _ _ _ _ j); [discriminate Hbefore|]. simpl.
      split; [lia|]. split; [done|]. split; [|intros r H; discriminate H].
      unfold history_at. rewrite length_fmap, length_seq. lia.
Qed.

Lemma failure_on_first_segment_witness :
  (let ended :=
     run_segments (timeout_from 0) "m.map" 60 "1.2" (route <$> [agent_c])
                  "empty-8-8.map" 8 8 1 3 in
   run_waypoint_scenario (timeout_from 0) "m.map" 60 "1.2" scen_file 2 1
     = Ok (Run_failure (Segment_failed (0 + 1) (EECBS_timed_out_after 60))) ∧
   ended.2 = Returned (Run_failure (Segment_failed (0 + 1) (EECBS_timed_out_after 60))) ∧
   length (history ended.1) = 1%nat ∧
   complete_paths ended.1 = replicate (Z.to_nat 1) [] ∧
   total_cost ended.1 = 0 ∧
   segment_results ended.1 = []) ∧
  (let ended :=
     run_segments (timeout_from 2) "m.map" 60 "1.2" (route <$> [agent_c])
                  "empty-8-8.map" 8 8 1 3 in
   ∃ m, (m ≤ 2)%nat ∧
        total_cost ended.1 =
          cost_sum (timeout_from 2) "m.map" 60 "1.2" (route <$> [agent_c])
                   "empty-8-8.map" 8 8 1 m ∧
        (length (history ended.1) ≤ 2 + 1)%nat ∧
        ∀ r, finish [agent_c] 3 1 ended ≠ Ok (Run_success r)).
Proof.
  split.
  - apply (proj1 (failure_on_first_segment (timeout_from 0) "m.map" 60 "1.2"
                    scen_file 2 1 agent_c [] 3
                    ltac:(reflexivity) ltac:(reflexivity) ltac:(simpl; lia)
                    ltac:(reflexivity))
             (EECBS_timed_out_after 60) None).
    reflexivity.
  - apply (proj2 (failure_on_first_segment (timeout_from 2) "m.map" 60 "1.2"
                    scen_file 2 1 agent_c [] 3
                    ltac:(reflexivity) ltac:(reflexivity) ltac:(simpl; lia)
                    ltac:(reflexivity)) 2%nat).
    + lia.
    + intros j Hj. destruct j as [|[|j]]; [reflexivity | reflexivity | lia].
    + reflexivity.
Defined.

(** ** A successful segment without a path for some agent (C2, C4, C5) *)

(** In a segment after the first one, an agent whose path is empty makes
    the stitching raise [IndexError]. *)
Lemma stitch_agent_empty (seg : nat) (segment_paths complete_paths : list path)
    (agent_id : nat) :
  seg ≠ 0%nat →
  (agent_id < length complete_paths)%nat →
  path_of segment_paths agent_id = [] →
  stitch_agent seg segment_paths complete_paths agent_id = Raise IndexError.
Proof.
  intros Hseg Hlt Hempty.
  destruct (lookup_lt_is_Some_2 complete_paths agent_id Hlt) as [own Hown].
  rewrite (stitch_agent_spec _ _ _ _ _ Hown). unfold agent_ok.
  rewrite Hempty. by rewrite bool_decide_eq_false_2.
Qed.

(** In a segment after the first one, an agent whose path is not empty
    gets the path without its first point appended, or the single point
    of the path when it has only one. *)
Lemma stitch_agent_nonempty (seg : nat) (segment_paths complete_paths : list path)
    (agent_id : nat) (own : path) (first : Z * Z) (rest : path) :
  seg ≠ 0%nat →
  complete_paths !! agent_id = Some own →
  path_of segment_paths agent_id = first :: rest →
  stitch_agent seg segment_paths complete_paths agent_id =
    Ok (<[agent_id := own ++ match rest with [] => [first] | _ => rest end]>
          complete_paths).
Proof.
  intros Hseg Hown Hpath.
  rewrite (stitch_agent_spec _ _ _ _ _ Hown). unfold agent_ok, extend.
  rewrite Hpath, orb_true_r. destruct (decide (seg = 0%nat)); [done|].
  by destruct rest.
Qed.

(** In the first segment the path of the agent is taken as it is. *)
Lemma stitch_agent_first (segment_paths complete_paths : list path)
    (agent_id : nat) :
  (agent_id < length complete_paths)%nat →
  stitch_agent 0 segment_paths complete_paths agent_id =
    Ok (<[agent_id := path_of segment_paths agent_id]> complete_paths).
Proof.
  intros Hlt.
  destruct (lookup_lt_is_Some_2 complete_paths agent_id Hlt) as [own Hown].
  by rewrite (stitch_agent_spec _ _ _ _ _ Hown).
Qed.

(** C2.  The paths file of segment 1 has a record for agent 1 only, so
    the path of agent 0 is empty; stitching this segment raises
    [IndexError] at agent 0 instead of appending a point to its
    assembled path. *)
Theorem stitch_without_record :
  let segment_paths := _parse_paths_file (Some [(1%nat, [(3, 3)])]) in
  segment_paths = [[]; [(3, 3)]] ∧
  path_of segment_paths 0 = [] ∧
  stitch_agent 1 segment_paths [[(0, 0); (2, 2)]; [(1, 1); (3, 3)]] 0
    = Raise IndexError ∧
  stitch 1 2 segment_paths [[(0, 0); (2, 2)]; [(1, 1); (3, 3)]]
    = Raise IndexError.
Proof. repeat split. Qed.

(** C5.  Two agents, two segments; the solver succeeds on both segments
    but leaves no path record for segment 1.  No segment has failed, and
    [run_waypoint_scenario] raises [IndexError] instead of returning a
    dictionary. *)
Theorem run_raises_index_error :
  let solver :=
    replay [succeeded [(0%nat, [(0, 0); (2, 2)]); (1%nat, [(1, 1); (3, 3)])];
            succeeded []] in
  let result_at' :=
    result_at solver "m.map" 60 "1.2" (route <$> [agent_a; agent_b])
              "empty-8-8.map" 8 8 2 in
  eecbs_success (result_at' 0%nat) = true ∧
  eecbs_success (result_at' 1%nat) = true ∧
  run_waypoint_scenario solver "m.map" 60 "1.2" scen_file 0 2
    = Raise IndexError.
Proof. repeat split. Qed.

(** C4.  One agent, three segments; the solver succeeds on segment 0,
    succeeds on segment 1 without leaving a path record, and runs past
    the timeout on segment 2.  The first failing segment is segment 2,
    but the run raises [IndexError] while stitching segment 1 and reports
    no failing segment. *)
Theorem run_raises_before_first_failure :
  let solver :=
    replay [succeeded [(0%nat, [(7, 0); (7, 7)])]; succeeded []; timed_out] in
  let result_at' :=
    result_at solver "m.map" 60 "1.2" (route <$> [agent_c])
              "empty-8-8.map" 8 8 1 in
  eecbs_success (result_at' 0%nat) = true ∧
  eecbs_success (result_at' 1%nat) = true ∧
  result_at' 2%nat = Eecbs_failure (EECBS_timed_out_after 60) None ∧
  run_waypoint_scenario solver "m.map" 60 "1.2" scen_file 2 1
    = Raise IndexError ∧
  run_waypoint_scenario solver "m.map" 60 "1.2" scen_file 2 1
    ≠ Ok (Run_failure (Segment_failed (2 + 1) (EECBS_timed_out_after 60))).
Proof. repeat split. intros H. discriminate H. Qed.

(** ** The cost of a segment (C6) *)

Lemma cost_or_zero_spec (cost : option Z) :
  cost_or_zero cost = match cost with Some c => c | None => 0 end.
Proof. destruct cost as [c|]; simpl; [|done]. by destruct (decide (c = 0)). Qed.

(** The total cost after one iteration of the segment loop. *)
Lemma run_segment_total_cost eecbs map_file timeout suboptimality seqs map_name
    width height num_agents (st : loop_state) (seg : nat)
    (agent_pairs : list agent_pair) :
  build_agent_pairs seqs seg = Ok agent_pairs →
  let result :=
    _run_eecbs (fun cmd => process (eecbs (history st) cmd)) map_file
      (_create_temp_scenario_multi map_name width height agent_pairs)
      num_agents timeout suboptimality in
  total_cost (run_segment eecbs map_file timeout suboptimality seqs map_name
                          width height num_agents st seg).1
    = total_cost st + match eecbs_cost result with Some c => c | None => 0 end.
Proof.
  intros Hpairs result. unfold run_segment. rewrite Hpairs. fold result.
  destruct result as [error err|cost output out err]; simpl; [lia|].
  rewrite <- cost_or_zero_spec. by destruct (stitch _ _ _ _).
Qed.

(** The status line [status_bad_cost] has the marker and a fifth field
    that is not an integer: the adapter reports a failure, not a success
    without a cost.  (Counterexample to C6 as stated.) *)
Lemma unparsable_cost_fails :
  let outcome := _run_eecbs (exited 0 status_bad_cost) "m.map" [] 1 60 "1.2" in
  PyStr.contains "Succeed" (final_status_line status_bad_cost) = true ∧
  PyStr.split "," (final_status_line status_bad_cost) !! 4%nat = Some "n/a" ∧
  PyStr.int "n/a" = None ∧
  outcome = Eecbs_failure (Error_running_EECBS (ValueError_int "n/a")) None ∧
  ¬ (eecbs_success outcome = true ∧ eecbs_cost outcome = None).
Proof. repeat split. intros [H _]. discriminate H. Qed.

(** A cost field that [strip] would clean but [int] does not read: the
    separator 28 in front of the digit makes the adapter fail. *)
Example separator_in_cost_fails :
  let field := String (ascii_of_nat 28) "7" in
  let status := "Succeed,6,2.1e-05,0," +:+ field +:+ ",6" in
  PyStr.split "," (final_status_line status) !! 4%nat = Some field ∧
  _run_eecbs (exited 0 status) "m.map" [] 1 60 "1.2"
    = Eecbs_failure (Error_running_EECBS (ValueError_int field)) None.
Proof. by split. Qed.

(** C6, amended.  For a solver that exited with status zero and whose
    last line has the marker, the cost is read from the fifth
    comma-separated field of that line: when the line has fewer than five
    fields the segment is a success without a cost; when the fifth field
    is an integer literal the segment is a success with that cost; when
    the fifth field is not an integer literal the adapter returns the
    failure [Error running EECBS].  One iteration of the segment loop
    adds the cost of the segment to the total cost, and adds 0 when the
    segment has no cost (or failed). *)
Theorem cost_field
    (subprocess_run : eecbs_call → res completed_process)
    (map_file : string) (scenario_file : list instance_row)
    (num_agents timeout : Z) (suboptimality : string) (p : completed_process) :
  subprocess_run (eecbs_cmd map_file scenario_file num_agents timeout suboptimality)
    = Ok p →
  returncode p = 0 →
  PyStr.contains "Succeed" (final_status_line (stdout p)) = true →
  let outcome := _run_eecbs subprocess_run map_file scenario_file num_agents
                            timeout suboptimality in
  let line := final_status_line (stdout p) in
  let parts := PyStr.split "," line in
  ((length parts < 5)%nat →
     outcome = Eecbs_success None line (stdout p) (stderr p)) ∧
  (∀ field, parts !! 4%nat = Some field →
     match PyStr.int field with
     | Some c => outcome = Eecbs_success (Some c) line (stdout p) (stderr p)
     | None =>
         outcome = Eecbs_failure (Error_running_EECBS (ValueError_int field)) None
     end) ∧
  (∀ eecbs seqs map_name width height (st : loop_state) (seg : nat) agent_pairs,
     build_agent_pairs seqs seg = Ok agent_pairs →
     let result :=
       _run_eecbs (fun cmd => process (eecbs (history st) cmd)) map_file
         (_create_temp_scenario_multi map_name width height agent_pairs)
         num_agents timeout suboptimality in
     total_cost (run_segment eecbs map_file timeout suboptimality seqs map_name
                             width height num_agents st seg).1
       = total_cost st + match eecbs_cost result with Some c => c | None => 0 end).
Proof.
  intros Hrun Hrc Hmark outcome line parts.
  pose proof (run_eecbs_zero _ _ _ _ _ _ p Hrun Hrc) as Hout.
  simpl in Hout. fold outcome line parts in Hout. fold line in Hmark.
  rewrite Hmark in Hout. simpl in Hout.
  split; [|split].
  - intros Hlen. by rewrite decide_False in Hout by lia.
  - intros field Hfield. pose proof (lookup_lt_Some _ _ _ Hfield) as Hlen.
    rewrite decide_True in Hout by lia. rewrite Hfield in Hout. simpl in Hout.
    by destruct (PyStr.int field).
  - intros eecbs seqs map_name width height st seg agent_pairs Hpairs.
    by apply run_segment_total_cost.
Qed.

Lemma cost_field_witness :
  (let outcome := _run_eecbs (exited 0 status_short) "m.map" [] 1 60 "1.2" in
   (length (PyStr.split "," (final_status_line status_short)) < 5)%nat →
   outcome = Eecbs_success None (final_status_line status_short) status_short "") ∧
  (let outcome := _run_eecbs (exited 0 status_ok) "m.map" [] 1 60 "1.2" in
   outcome = Eecbs_success (Some 7) status_ok status_ok "") ∧
  (let outcome := _run_eecbs (exited 0 status_bad_cost) "m.map" [] 1 60 "1.2" in
   outcome = Eecbs_failure (Error_running_EECBS (ValueError_int "n/a")) None) ∧
  total_cost (run_segment (one_step_solver status_ok) "m.map" 60 "1.2"
                          (route <$> [agent_a; agent_b]) "empty-8-8.map" 8 8 2
                          (initial_state 2) 0).1 = 7 ∧
  total_cost (run_segment (one_step_solver status_short) "m.map" 60 "1.2"
                          (route <$> [agent_a; agent_b]) "empty-8-8.map" 8 8 2
                          (initial_state 2) 0).1 = 0.
Proof.
  split; [|split; [|split; [|split]]].
  - exact (proj1 (cost_field (exited 0 status_short) "m.map" [] 1 60 "1.2"
                    (mk_completed 0 status_short "") eq_refl eq_refl eq_refl)).
  - exact (proj1 (proj2 (cost_field (exited 0 status_ok) "m.map" [] 1 60 "1.2"
                           (mk_completed 0 status_ok "") eq_refl eq_refl eq_refl))
             "7" eq_refl).
  - exact (proj1 (proj2 (cost_field (exited 0 status_bad_cost) "m.map" [] 1 60 "1.2"
                           (mk_completed 0 status_bad_cost "") eq_refl eq_refl
                           eq_refl))
             "n/a" eq_refl).
  - exact (proj2 (proj2 (cost_field (exited 0 status_ok) "m.map" [] 2 60 "1.2"
                           (mk_completed 0 status_ok "") eq_refl eq_refl eq_refl))
             (one_step_solver status_ok) (route <$> [agent_a; agent_b])
             "empty-8-8.map" 8 8 (initial_state 2) 0%nat
             [((0, 0), (2, 2)); ((1, 1), (3, 3))] eq_refl).
  - exact (proj2 (proj2 (cost_field (exited 0 status_ok) "m.map" [] 2 60 "1.2"
                           (mk_completed 0 status_ok "") eq_refl eq_refl eq_refl))
             (one_step_solver status_short) (route <$> [agent_a; agent_b])
             "empty-8-8.map" 8 8 (initial_state 2) 0%nat
             [((0, 0), (2, 2)); ((1, 1), (3, 3))] eq_refl).
Defined.

(** ** The scenario parser (C9, C10) *)

Lemma int_Ok (s : string) (z : Z) : int s = Ok z ↔ PyStr.int s = Some z.
Proof. unfold int. destruct (PyStr.int s); naive_solver. Qed.

Lemma int_Raise (s : string) (e : exn) :
  int s = Raise e ↔ PyStr.int s = None ∧ e = ValueError_int s.
Proof. unfold int. destruct (PyStr.int s); naive_solver. Qed.

(** [parse_parts] on a line with at least ten fields, as one sequence of
    conversions. *)
Lemma parse_parts_ten (p0 p1 p2 p3 p4 p5 p6 p7 p8 p9 : string) (rest : list string) :
  parse_parts (p0 :: p1 :: p2 :: p3 :: p4 :: p5 :: p6 :: p7 :: p8 :: p9 :: rest) =
    bucket ← int p0;
    width ← int p2;
    height ← int p3;
    start_x ← int p4;
    start_y ← int p5;
    goal_x ← int p6;
    goal_y ← int p7;
    optimal_length ← float p8;
    num_waypoints ← int p9;
    waypoints ← parse_waypoint_coords (payload rest);
    mret (mk_scenario bucket p1 width height (start_x, start_y) (goal_x, goal_y)
            optimal_length num_waypoints waypoints).
Proof.
  unfold parse_parts. simpl.
  destruct (int p0); simpl; [|done]. destruct (int p2); simpl; [|done].
  destruct (int p3); simpl; [|done]. destruct (int p4); simpl; [|done].
  destruct (int p5); simpl; [|done]. destruct (int p6); simpl; [|done].
  destruct (int p7); simpl; [|done]. destruct (float p8); simpl; [|done].
  destruct (int p9); simpl; [|done].
  by destruct rest.
Qed.

Lemma ten_fields (parts : list string) :
  (10 ≤ length parts)%nat →
  ∃ p0 p1 p2 p3 p4 p5 p6 p7 p8 p9 rest,
    parts = p0 :: p1 :: p2 :: p3 :: p4 :: p5 :: p6 :: p7 :: p8 :: p9 :: rest.
Proof.
  intros H.
  do 10 (destruct parts as [|? parts]; [simpl in H; lia|]).
  by repeat eexists.
Qed.

Lemma parse_line_acc (st : parser_state) (raw : string) :
  parse_line st raw = (st.1 ++ line_entries raw, st.2 ++ line_printed raw).
Proof.
  unfold line_entries, line_printed, parse_line. destruct st as [entries out].
  destruct (String.eqb _ _); simpl; [by rewrite !app_nil_r|].
  destruct (decide _); simpl; [by rewrite !app_nil_r|].
  destruct (parse_parts _); simpl; by rewrite !app_nil_r.
Qed.

Lemma parse_lines_acc (ls : list string) (st : parser_state) :
  foldl parse_line st ls =
    (st.1 ++ concat (line_entries <$> ls), st.2 ++ concat (line_printed <$> ls)).
Proof.
  revert st. induction ls as [|l ls IH]; intros st; simpl.
  - rewrite !app_nil_r. by destruct st.
  - rewrite IH, parse_line_acc. simpl. by rewrite <- !app_assoc.
Qed.

(** The lists are consumed two items at a time. *)
Lemma pair_ind {A} (P : list A → Prop) :
  P [] → (∀ x, P [x]) → (∀ x y l, P l → P (x :: y :: l)) → ∀ l, P l.
Proof.
  intros Hnil Hone Hstep l.
  enough (P l ∧ ∀ x, P (x :: l)) as [H _] by exact H.
  induction l as [|y l [IH1 IH2]]; [by split|].
  split; [apply IH2|]. intros x. by apply Hstep.
Qed.

Lemma parse_waypoint_coords_paired (coords : list string) :
  parse_waypoint_coords coords = parse_waypoint_coords (paired coords).
Proof.
  induction coords as [| |x y rest IH] using pair_ind; [done..|].
  simpl. by rewrite IH.
Qed.

Lemma parse_waypoint_coords_Ok (coords : list string) :
  (∃ waypoints, parse_waypoint_coords coords = Ok waypoints) ↔
  forallb is_int (paired coords) = true.
Proof.
  induction coords as [| |x y rest IH] using pair_ind; simpl.
  - split; [done|]. by exists [].
  - split; [done|]. by exists [].
  - unfold int, is_int.
    destruct (PyStr.int x); simpl; [|split; [by intros [? ?]|done]].
    destruct (PyStr.int y); simpl; [|split; [by intros [? ?]|done]].
    rewrite <- IH. destruct (parse_waypoint_coords rest); simpl.
    + split; intros _; by eexists.
    + split; by intros [? ?].
Qed.

Lemma paired_snoc {A} (l : list A) (x : A) :
  Nat.Even (length l) → paired (l ++ [x]) = paired l.
Proof.
  induction l as [| |a b l IH] using pair_ind; simpl; intros Heven.
  - done.
  - destruct Heven as [k Hk]. lia.
  - rewrite IH; [done|]. destruct Heven as [k Hk]. exists (k - 1)%nat. lia.
Qed.

Lemma parse_parts_accepts (parts : list string) :
  (10 ≤ length parts)%nat →
  (∃ s, parse_parts parts = Ok s) ↔ numeric_fields_parse parts = true.
Proof.
  intros Hlen.
  destruct (ten_fields parts Hlen)
    as (p0 & p1 & p2 & p3 & p4 & p5 & p6 & p7 & p8 & p9 & rest & ->).
  rewrite parse_parts_ten. unfold numeric_fields_parse. simpl.
  unfold int, float, is_int.
  destruct (PyStr.int p0); simpl; [|split; [by intros [? ?]|done]].
  destruct (PyStr.int p2); simpl; [|split; [by intros [? ?]|done]].
  destruct (PyStr.int p3); simpl; [|split; [by intros [? ?]|done]].
  destruct (PyStr.int p4); simpl; [|split; [by intros [? ?]|done]].
  destruct (PyStr.int p5); simpl; [|split; [by intros [? ?]|done]].
  destruct (PyStr.int p6); simpl; [|split; [by intros [? ?]|done]].
  destruct (PyStr.int p7); simpl; [|split; [by intros [? ?]|done]].
  destruct (PyStr.int p9); simpl;
    [|split; [destruct (PyStr.float_ok p8); by intros [? ?]|done]].
  destruct (PyStr.float_ok p8); simpl; [|split; [by intros [? ?]|done]].
  fold is_int. rewrite drop_0, <- parse_waypoint_coords_Ok.
  destruct (parse_waypoint_coords (payload rest)); simpl.
  - split; intros _; by eexists.
  - split; by intros [? ?].
Qed.

(** A line with nine fields is dropped and nothing is printed for it.
    (Counterexample to C9 as stated.) *)
Lemma short_line_no_warning :
  length (PyStr.split tab (PyStr.strip short_line)) = 9%nat ∧
  _parse_scenarios ["version 1"; short_line; line_b] = ([agent_b], []) ∧
  line_printed short_line = [].
Proof. repeat split. Qed.

(** A width followed by the separator 28 is no integer for [int]: the
    line is rejected and the warning is printed. *)
Example separator_in_width_warns :
  let width := "8" +:+ String (ascii_of_nat 28) "" in
  let raw := tsv ["0"; "empty-8-8.map"; width; "8"; "0"; "0"; "4"; "4"; "5.65";
                  "1"; "2 2"] in
  line_entries raw = [] ∧
  line_printed raw
  = [Warning_could_not_parse_line raw; Error_line (ValueError_int width)].
Proof. by split. Qed.

(** C9, amended.  Every line after the first one contributes to the
    entries and to the output independently of the other lines, so no
    line stops the loading.  A blank line, or a line with fewer than ten
    tab-separated fields, contributes nothing: it is dropped and nothing
    is printed.  A line with at least ten fields contributes one entry
    when its numeric fields parse; otherwise it contributes no entry and
    the two lines of the warning are printed.  A last waypoint
    coordinate without a partner is discarded. *)
Theorem scenario_lines :
  (∀ (header : string) (ls : list string),
     _parse_scenarios (header :: ls) =
       (concat (line_entries <$> ls), concat (line_printed <$> ls))) ∧
  (∀ raw : string,
     let line := PyStr.strip raw in
     let parts := PyStr.split tab line in
     (line = "" ∨ (length parts < 10)%nat →
        line_entries raw = [] ∧ line_printed raw = []) ∧
     (line ≠ "" → (10 ≤ length parts)%nat →
        if numeric_fields_parse parts then
          ∃ s, parse_parts parts = Ok s ∧
               line_entries raw = [s] ∧ line_printed raw = []
        else
          ∃ e, parse_parts parts = Raise e ∧
               line_entries raw = [] ∧
               line_printed raw =
                 [Warning_could_not_parse_line (PyStr.strip line); Error_line e])) ∧
  (∀ (coords : list string) (extra : string),
     Nat.Even (length coords) →
     parse_waypoint_coords (coords ++ [extra]) = parse_waypoint_coords coords).
Proof.
  split; [|split].
  - intros header ls. unfold _parse_scenarios. simpl. by rewrite parse_lines_acc.
  - intros raw line parts. unfold line_entries, line_printed, parse_line.
    fold line. fold parts. split.
    + intros [Hblank|Hshort].
      * rewrite Hblank. done.
      * destruct (String.eqb line ""); [done|]. by rewrite decide_True.
    + intros Hline Hlen.
      destruct (String.eqb_spec line ""); [done|].
      rewrite decide_False by lia.
      pose proof (parse_parts_accepts parts Hlen) as Hacc.
      destruct (numeric_fields_parse parts).
      * destruct (proj2 Hacc eq_refl) as [s Hs]. exists s. by rewrite Hs.
      * destruct (parse_parts parts) as [s|e].
        -- assert (false = true) as H by (apply Hacc; by exists s).
           discriminate H.
        -- by exists e.
  - intros coords extra Heven.
    rewrite parse_waypoint_coords_paired, paired_snoc by done.
    by rewrite <- parse_waypoint_coords_paired.
Qed.

Lemma scenario_lines_witness :
  (line_entries "  " = [] ∧ line_printed "  " = []) ∧
  (line_entries short_line = [] ∧ line_printed short_line = []) ∧
  (∃ s, parse_parts (PyStr.split tab (PyStr.strip line_a)) = Ok s ∧
        line_entries line_a = [s] ∧ line_printed line_a = []) ∧
  (∃ e, parse_parts (PyStr.split tab (PyStr.strip bad_line)) = Raise e ∧
        line_entries bad_line = [] ∧
        line_printed bad_line =
          [Warning_could_not_parse_line (PyStr.strip (PyStr.strip bad_line));
           Error_line e]) ∧
  parse_waypoint_coords (["2"; "2"] ++ ["7"]) = parse_waypoint_coords ["2"; "2"].
Proof.
  split; [|split; [|split; [|split]]].
  - apply (proj1 (proj1 (proj2 scenario_lines) "  ")). by left.
  - apply (proj1 (proj1 (proj2 scenario_lines) short_line)). right. simpl. lia.
  - apply (proj2 (proj1 (proj2 scenario_lines) line_a)).
    + discriminate.
    + simpl. lia.
  - apply (proj2 (proj1 (proj2 scenario_lines) bad_line)).
    + discriminate.
    + simpl. lia.
  - apply (proj2 (proj2 scenario_lines) ["2"; "2"] "7"). by exists 1%nat.
Defined.

(** [line_entries] of a non-blank line with at least ten fields. *)
Lemma line_entries_ten (raw : string) (parts : list string) :
  PyStr.split tab (PyStr.strip raw) = parts →
  (10 ≤ length parts)%nat →
  line_entries raw =
    match parse_parts parts with
    | Ok s => [s]
    | Raise _ => []
    end.
Proof.
  intros Hparts Hlen. unfold line_entries, parse_line. rewrite Hparts.
  destruct (String.eqb_spec (PyStr.strip raw) "") as [Hblank|_].
  - rewrite Hblank in Hparts. subst parts. simpl in Hlen. lia.
  - rewrite decide_False by lia. by destruct (parse_parts parts).
Qed.

(** C10.  Two lines whose fields differ only in the tenth one, the
    declared number of waypoints, which is an integer in both: either
    both lines are rejected, or both are accepted and their entries
    differ at most in [num_waypoints]; the waypoints of both are the
    pairs of the coordinates of the payload field, whatever the declared
    numbers are. *)
Theorem declared_count_ignored (l1 l2 : string) (pre post : list string)
    (n1 n2 : string) (z1 z2 : Z) :
  PyStr.split tab (PyStr.strip l1) = pre ++ n1 :: post →
  PyStr.split tab (PyStr.strip l2) = pre ++ n2 :: post →
  length pre = 9%nat →
  PyStr.int n1 = Some z1 →
  PyStr.int n2 = Some z2 →
  (line_entries l1 = [] ∧ line_entries l2 = []) ∨
  ∃ s1 s2,
    line_entries l1 = [s1] ∧ line_entries l2 = [s2] ∧
    parse_waypoint_coords (payload post) = Ok (waypoints s1) ∧
    waypoints s2 = waypoints s1 ∧
    num_waypoints s1 = z1 ∧ num_waypoints s2 = z2 ∧
    s2 = mk_scenario (bucket s1) (map_name s1) (width s1) (height s1) (start s1)
                     (goal s1) (optimal_length s1) z2 (waypoints s1).
Proof.
  intros H1 H2 Hpre Hn1 Hn2.
  destruct pre as [|p0 [|p1 [|p2 [|p3 [|p4 [|p5 [|p6 [|p7 [|p8 [|? ?]]]]]]]]]];
    try discriminate Hpre.
  simpl in H1, H2.
  rewrite (line_entries_ten l1 _ H1) by (simpl; lia).
  rewrite (line_entries_ten l2 _ H2) by (simpl; lia).
  rewrite !parse_parts_ten.
  apply int_Ok in Hn1, Hn2. rewrite Hn1, Hn2.
  destruct (int p0); simpl; [|by left]. destruct (int p2); simpl; [|by left].
  destruct (int p3); simpl; [|by left]. destruct (int p4); simpl; [|by left].
  destruct (int p5); simpl; [|by left]. destruct (int p6); simpl; [|by left].
  destruct (int p7); simpl; [|by left]. destruct (float p8); simpl; [|by left].
  destruct (parse_waypoint_coords (payload post)); simpl; [|by left].
  right. by eexists _, _.
Qed.

Lemma declared_count_ignored_witness :
  (line_entries line_a = [] ∧ line_entries line_a5 = []) ∨
  ∃ s1 s2,
    line_entries line_a = [s1] ∧ line_entries line_a5 = [s2] ∧
    parse_waypoint_coords (payload ["2 2"]) = Ok (waypoints s1) ∧
    waypoints s2 = waypoints s1 ∧
    num_waypoints s1 = 1 ∧ num_waypoints s2 = 5 ∧
    s2 = mk_scenario (bucket s1) (map_name s1) (width s1) (height s1) (start s1)
                     (goal s1) (optimal_length s1) 5 (waypoints s1).
Proof.
  exact (declared_count_ignored line_a line_a5
           ["0"; "empty-8-8.map"; "8"; "8"; "0"; "0"; "4"; "4"; "5.65"] ["2 2"]
           "1" "5" 1 5 eq_refl eq_refl eq_refl eq_refl eq_refl).
Defined.

(** * Further properties of the runner *)

(** ** The whole run *)

Lemma stitchable_spec (seg : nat) (num_agents : Z) (segment_paths : list path) :
  stitchable seg num_agents segment_paths = true ↔
  seg = 0%nat ∨
  ∀ a, (a < Z.to_nat num_agents)%nat → path_of segment_paths a ≠ [].
Proof.
  unfold stitchable. rewrite forallb_forall. unfold agent_ok. split.
  - intros H. destruct (decide (seg = 0%nat)) as [|Hseg]; [by left|right].
    intros a Ha. specialize (H a). rewrite in_seq in H.
    rewrite bool_decide_eq_false_2 in H by done. simpl in H.
    destruct (path_of segment_paths a); [|done].
    specialize (H ltac:(lia)). discriminate H.
  - intros [->|H] a Ha; [done|]. apply in_seq in Ha.
    specialize (H a ltac:(lia)). destruct (path_of segment_paths a); [done|].
    by rewrite orb_true_r.
Qed.

(** X1.  Once the agents are selected, [run_waypoint_scenario] returns a
    success dictionary exactly when, for every segment, the adapter
    reports success and, from segment 1 on, every agent has a non-empty
    path; the dictionary then holds the selected agents, the sum of the
    costs, one segment result per segment in order, the assembled paths,
    the number of segments and [num_agents]. *)
Theorem run_success_iff eecbs map_file timeout suboptimality
    (lines : list string) (scenario_index num_agents : Z)
    (agent0 : scenario) (others : list scenario) (num_segments : nat)
    (r : final_result) :
  let scenarios := (_parse_scenarios lines).1 in
  let seqs := route <$> agent0 :: others in
  let result_at' :=
    result_at eecbs map_file timeout suboptimality seqs (map_name agent0)
              (width agent0) (height agent0) num_agents in
  let paths_at' :=
    paths_at eecbs map_file timeout suboptimality seqs (map_name agent0)
             (width agent0) (height agent0) num_agents in
  scenario_index < Z.of_nat (length scenarios) →
  slice scenarios scenario_index (scenario_index + num_agents) = agent0 :: others →
  num_agents ≤ Z.of_nat (length (agent0 :: others)) →
  py_max ((fun seq => length seq - 1)%nat <$> seqs) = Ok num_segments →
  run_waypoint_scenario eecbs map_file timeout suboptimality lines
                        scenario_index num_agents = Ok (Run_success r)
  ↔
  (∀ j, (j < num_segments)%nat →
     eecbs_success (result_at' j) = true ∧
     (j = 0%nat ∨
      ∀ a, (a < Z.to_nat num_agents)%nat → path_of (paths_at' j) a ≠ [])) ∧
  r = mk_final (agent0 :: others)
        (cost_sum eecbs map_file timeout suboptimality seqs (map_name agent0)
                  (width agent0) (height agent0) num_agents num_segments)
        (segment_result_at eecbs map_file timeout suboptimality seqs
                           (map_name agent0) (width agent0) (height agent0)
                           num_agents <$> seq 0 num_segments)
        (assembled eecbs map_file timeout suboptimality seqs (map_name agent0)
                   (width agent0) (height agent0) num_agents num_segments)
        num_segments num_agents.
Proof.
  intros scenarios seqs result_at' paths_at' Hindex Hslice Hcount Hmax.
  destruct (run_waypoint_scenario_selected eecbs map_file timeout suboptimality
              lines scenario_index num_agents agent0 others Hindex Hslice Hcount)
    as (n & Hn & _ & ->).
  fold seqs in Hn |- *. rewrite Hmax in Hn. injection Hn as <-.
  assert (∀ j,
            goes_through eecbs map_file timeout suboptimality seqs
                         (map_name agent0) (width agent0) (height agent0)
                         num_agents j = true ↔
            eecbs_success (result_at' j) = true ∧
            (j = 0%nat ∨
             ∀ a, (a < Z.to_nat num_agents)%nat → path_of (paths_at' j) a ≠ []))
    as Hgo.
  { intros j. unfold goes_through. fold result_at' paths_at'.
    by rewrite andb_true_iff, stitchable_spec. }
  destruct (run_segments_cases eecbs map_file timeout suboptimality seqs
              (map_name agent0) (width agent0) (height agent0) num_agents
              (routes_not_nil (agent0 :: others)) num_segments)
    as [[-> Hall]|(k & Hk & _ & Hbad & ->)].
  - simpl. split.
    + intros [= <-]. split; [|done]. intros j Hj. apply Hgo. by apply Hall.
    + intros [_ ->]. done.
  - split.
    + intros Hsucc. exfalso. unfold finish, exit_at in Hsucc.
      destruct (result_at _ _ _ _ _ _ _ _ _ k); discriminate Hsucc.
    + intros [Hall _]. exfalso.
      specialize (Hall k Hk). apply Hgo in Hall.
      rewrite Hall in Hbad. discriminate Hbad.
Qed.

Lemma run_success_iff_witness :
  run_waypoint_scenario (one_step_solver status_ok) "m.map" 60 "1.2" scen_file 0 2
    = Ok (Run_success
            (mk_final [agent_a; agent_b] 14
               [mk_segment_result 1 [((0, 0), (2, 2)); ((1, 1), (3, 3))] (Some 7)
                                  [[(0, 0); (2, 2)]; [(1, 1); (3, 3)]] status_ok;
                mk_segment_result 2 [((2, 2), (4, 4)); ((3, 3), (3, 3))] (Some 7)
                                  [[(2, 2); (4, 4)]; [(3, 3); (3, 3)]] status_ok]
               [[(0, 0); (2, 2); (4, 4)]; [(1, 1); (3, 3); (3, 3)]] 2 2)).
Proof.
  apply (proj2 (run_success_iff (one_step_solver status_ok) "m.map" 60 "1.2"
                  scen_file 0 2 agent_a [agent_b] 2 _
                  ltac:(reflexivity) ltac:(reflexivity) ltac:(simpl; lia)
                  ltac:(reflexivity))).
  split; [|reflexivity].
  intros j Hj. destruct j as [|[|j]]; [| |lia].
  - split; [reflexivity|by left].
  - split; [reflexivity|right].
    intros a Ha. destruct a as [|[|a]]; [discriminate..|simpl in Ha; lia].
Defined.

(** X13. What the run gives when it does not succeed.  Let segment [k]
    be the first one that does not go through, all segments before it
    having succeeded with a path for every agent.  If the solver fails
    on segment [k], the run returns the failure "Segment k+1 failed"
    with the adapter's error; if the solver succeeds on segment [k >= 1]
    but the paths file holds no path for some agent, the run raises
    [IndexError]. *)
Theorem run_outcome_at_first_stop eecbs map_file timeout suboptimality
    (lines : list string) (scenario_index num_agents : Z)
    (agent0 : scenario) (others : list scenario) (num_segments k : nat) :
  let scenarios := (_parse_scenarios lines).1 in
  let seqs := route <$> agent0 :: others in
  let result_at' :=
    result_at eecbs map_file timeout suboptimality seqs (map_name agent0)
              (width agent0) (height agent0) num_agents in
  let paths_at' :=
    paths_at eecbs map_file timeout suboptimality seqs (map_name agent0)
             (width agent0) (height agent0) num_agents in
  scenario_index < Z.of_nat (length scenarios) →
  slice scenarios scenario_index (scenario_index + num_agents) = agent0 :: others →
  num_agents ≤ Z.of_nat (length (agent0 :: others)) →
  py_max ((fun seq => length seq - 1)%nat <$> seqs) = Ok num_segments →
  (k < num_segments)%nat →
  (∀ j, (j < k)%nat →
     eecbs_success (result_at' j) = true ∧
     (j = 0%nat ∨
      ∀ a, (a < Z.to_nat num_agents)%nat → path_of (paths_at' j) a ≠ [])) →
  (∀ error err,
     result_at' k = Eecbs_failure error err →
     run_waypoint_scenario eecbs map_file timeout suboptimality lines
                           scenario_index num_agents
     = Ok (Run_failure (Segment_failed (k + 1) error))) ∧
  (∀ a,
     eecbs_success (result_at' k) = true → k ≠ 0%nat →
     (a < Z.to_nat num_agents)%nat → path_of (paths_at' k) a = [] →
     run_waypoint_scenario eecbs map_file timeout suboptimality lines
                           scenario_index num_agents
     = Raise IndexError).
Proof.
  intros scenarios seqs result_at' paths_at' Hindex Hslice Hcount Hmax Hk Hbefore.
  destruct (run_waypoint_scenario_selected eecbs map_file timeout suboptimality
              lines scenario_index num_agents agent0 others Hindex Hslice Hcount)
    as (n & Hn & _ & ->).
  fold seqs in Hn |- *. rewrite Hmax in Hn. injection Hn as <-.
  assert (∀ j,
            goes_through eecbs map_file timeout suboptimality seqs
                         (map_name agent0) (width agent0) (height agent0)
                         num_agents j = true ↔
            eecbs_success (result_at' j) = true ∧
            (j = 0%nat ∨
             ∀ a, (a < Z.to_nat num_agents)%nat → path_of (paths_at' j) a ≠ []))
    as Hgo.
  { intros j. unfold goes_through. fold result_at' paths_at'.
    by rewrite andb_true_iff, stitchable_spec. }
  assert (goes_through eecbs map_file timeout suboptimality seqs
            (map_name agent0) (width agent0) (height agent0) num_agents k
          = false →
          run_segments eecbs map_file timeout suboptimality seqs
            (map_name agent0) (width agent0) (height agent0) num_agents
            num_segments
          = (stopped_at eecbs map_file timeout suboptimality seqs
               (map_name agent0) (width agent0) (height agent0) num_agents k,
             exit_at eecbs map_file timeout suboptimality seqs
               (map_name agent0) (width agent0) (height agent0) num_agents k))
    as Hstop.
  { intros Hnot.
    destruct (run_segments_cases eecbs map_file timeout suboptimality seqs
                (map_name agent0) (width agent0) (height agent0) num_agents
                (routes_not_nil (agent0 :: others)) num_segments)
      as [[_ Hall]|(k' & Hk' & Hfirst & Hbad & ->)].
    - rewrite (Hall k Hk) in Hnot. discriminate Hnot.
    - destruct (lt_eq_lt_dec k' k) as [[Hlt| ->]|Hgt]; [| done |].
      + apply Hbefore, Hgo in Hlt. rewrite Hlt in Hbad. discriminate Hbad.
      + rewrite (Hfirst k Hgt) in Hnot. discriminate Hnot. }
  split.
  - intros error err Hfail. rewrite Hstop.
    + unfold finish, exit_at. fold result_at'. by rewrite Hfail.
    + unfold goes_through. fold result_at'. by rewrite Hfail.
  - intros a Hsucc Hk0 Ha Hempty. rewrite Hstop.
    + unfold finish, exit_at. fold result_at'.
      by destruct (result_at' k).
    + destruct (goes_through eecbs map_file timeout suboptimality seqs
                  (map_name agent0) (width agent0) (height agent0) num_agents k)
        eqn:Hthrough; [|done].
      apply Hgo in Hthrough as [_ [Hzero|Hpaths]]; [done|].
      by destruct (Hpaths a Ha).
Qed.

Lemma run_outcome_at_first_stop_witness :
  run_waypoint_scenario
    (replay [succeeded [(0%nat, [(0, 0); (2, 2)]); (1%nat, [(1, 1); (3, 3)])];
             succeeded [(1%nat, [(3, 3); (3, 3)])]])
    "m.map" 60 "1.2" scen_file 0 2
  = Raise IndexError.
Proof.
  apply (proj2 (run_outcome_at_first_stop
                  (replay [succeeded [(0%nat, [(0, 0); (2, 2)]);
                                      (1%nat, [(1, 1); (3, 3)])];
                           succeeded [(1%nat, [(3, 3); (3, 3)])]])
                  "m.map" 60 "1.2" scen_file 0 2 agent_a [agent_b] 2 1
                  ltac:(reflexivity) ltac:(reflexivity) ltac:(simpl; lia)
                  ltac:(reflexivity) ltac:(lia)
                  ltac:(intros [|j] Hj; [split; [reflexivity|by left]|lia]))
               0%nat); [reflexivity|done|simpl; lia|reflexivity].
Defined.

(** X2.  Whatever the solver does, the invocations made by the segment
    loop are those of the segments [0], [1], ..., [m - 1] in this order,
    for some [m] that is at most the number of segments, each with the
    instance built from the routes; the first segment is always tried,
    the loop falls through only after all the segments, and a segment
    result is recorded for all the invoked segments but possibly the
    last. *)
Theorem solver_invoked_in_order eecbs map_file timeout suboptimality
    (agents : list scenario) (map_name : string) (width height num_agents : Z)
    (num_segments : nat) :
  let ended :=
    run_segments eecbs map_file timeout suboptimality (route <$> agents)
                 map_name width height num_agents num_segments in
  ∃ m, (m ≤ num_segments)%nat ∧
       history ended.1 =
         call_at map_file timeout suboptimality (route <$> agents) map_name
                 width height num_agents <$> seq 0 m ∧
       (m = 0%nat ↔ num_segments = 0%nat) ∧
       (ended.2 = Fell_through →
          m = num_segments ∧ length (segment_results ended.1) = num_segments) ∧
       (m - 1 ≤ length (segment_results ended.1) ≤ m)%nat.
Proof.
  intros ended. subst ended.
  destruct (run_segments_cases eecbs map_file timeout suboptimality
              (route <$> agents) map_name width height num_agents
              (routes_not_nil agents) num_segments)
    as [[-> Hall]|(k & Hk & _ & Hbad & ->)].
  - exists num_segments. simpl. rewrite length_fmap, length_seq.
    split; [lia|]. split; [done|]. split; [done|]. split; [done|lia].
  - exists (S k). unfold stopped_at, exit_at. simpl.
    destruct (result_at _ _ _ _ _ _ _ _ _ k); simpl;
      rewrite length_fmap, length_seq;
      (split; [lia|]); (split; [done|]); (split; [lia|]);
      (split; [|lia]); intros H; discriminate H.
Qed.

Lemma solver_invoked_in_order_witness :
  let ended :=
    run_segments (timeout_from 1) "m.map" 60 "1.2" (route <$> [agent_c])
                 "empty-8-8.map" 8 8 1 3 in
  ∃ m, (m ≤ 3)%nat ∧
       history ended.1 =
         call_at "m.map" 60 "1.2" (route <$> [agent_c]) "empty-8-8.map" 8 8 1
           <$> seq 0 m ∧
       (m = 0%nat ↔ 3%nat = 0%nat) ∧
       (ended.2 = Fell_through →
          m = 3%nat ∧ length (segment_results ended.1) = 3%nat) ∧
       (m - 1 ≤ length (segment_results ended.1) ≤ m)%nat.
Proof.
  exact (solver_invoked_in_order (timeout_from 1) "m.map" 60 "1.2" [agent_c]
           "empty-8-8.map" 8 8 1 3).
Defined.

(** ** The selection of the agents *)

Lemma length_slice {A} (l : list A) (i k : Z) :
  0 ≤ i → 0 ≤ k →
  length (slice l i (i + k)) =
    Z.to_nat (Z.min k (Z.max 0 (Z.of_nat (length l) - i))).
Proof.
  intros Hi Hk. unfold slice, clamp. rewrite length_take, length_drop.
  rewrite !(proj2 (Z.ltb_ge _ _)) by lia. lia.
Qed.

(** X3.  With a non-negative scenario index, [run_waypoint_scenario]
    returns, before any segment is built: "No scenarios found in file"
    when no line of the file is accepted; "Scenario index out of range"
    with the greatest valid index when the index is not below the number
    of entries; "Not enough agents" with the number of entries from the
    index on when this number is below [num_agents].  With a valid index
    and [num_agents = 0] it raises the [ValueError] of [max()]. *)
Theorem selection_failures eecbs map_file timeout suboptimality
    (lines : list string) (scenario_index num_agents : Z) :
  let scenarios := (_parse_scenarios lines).1 in
  let count := Z.of_nat (length scenarios) in
  let run :=
    run_waypoint_scenario eecbs map_file timeout suboptimality lines
                          scenario_index num_agents in
  0 ≤ scenario_index →
  (count = 0 → run = Ok (Run_failure No_scenarios_found_in_file)) ∧
  (0 < count → count ≤ scenario_index →
     run = Ok (Run_failure (Scenario_index_out_of_range scenario_index
                              (count - 1)))) ∧
  (scenario_index < count → count - scenario_index < num_agents →
     run = Ok (Run_failure (Not_enough_agents num_agents
                              (Z.to_nat (count - scenario_index))))) ∧
  (scenario_index < count → num_agents = 0 → run = Raise ValueError_max).
Proof.
  intros scenarios count run Hindex. subst run. unfold run_waypoint_scenario.
  fold scenarios. split; [|split; [|split]].
  - intros Hcount. by rewrite decide_True by lia.
  - intros Hpos Hout. rewrite decide_False by lia. by rewrite decide_True by lia.
  - intros Hin Hfew. rewrite decide_False by lia. rewrite decide_False by lia.
    assert (length (slice scenarios scenario_index (scenario_index + num_agents))
            = Z.to_nat (count - scenario_index)) as Hlen.
    { rewrite length_slice by lia. fold count. lia. }
    rewrite decide_True by lia. by rewrite Hlen.
  - intros Hin ->. rewrite decide_False by lia. rewrite decide_False by lia.
    assert (slice scenarios scenario_index (scenario_index + 0) = []) as ->.
    { apply nil_length_inv. rewrite length_slice by lia. lia. }
    by rewrite decide_False by (simpl; lia).
Qed.

Lemma selection_failures_witness :
  run_waypoint_scenario (one_step_solver status_ok) "m.map" 60 "1.2"
                        ["version 1"; short_line] 0 1
    = Ok (Run_failure No_scenarios_found_in_file) ∧
  run_waypoint_scenario (one_step_solver status_ok) "m.map" 60 "1.2" scen_file 3 1
    = Ok (Run_failure (Scenario_index_out_of_range 3 (3 - 1))) ∧
  run_waypoint_scenario (one_step_solver status_ok) "m.map" 60 "1.2" scen_file 1 3
    = Ok (Run_failure (Not_enough_agents 3 (Z.to_nat (3 - 1)))) ∧
  run_waypoint_scenario (one_step_solver status_ok) "m.map" 60 "1.2" scen_file 1 0
    = Raise ValueError_max.
Proof.
  split; [|split; [|split]].
  - apply (proj1 (selection_failures (one_step_solver status_ok) "m.map" 60 "1.2"
                    ["version 1"; short_line] 0 1 ltac:(lia))).
    reflexivity.
  - apply (proj1 (proj2 (selection_failures (one_step_solver status_ok) "m.map" 60
                           "1.2" scen_file 3 1 ltac:(lia)))); simpl; lia.
  - apply (proj1 (proj2 (proj2 (selection_failures (one_step_solver status_ok)
                                  "m.map" 60 "1.2" scen_file 1 3 ltac:(lia)))));
      simpl; lia.
  - apply (proj2 (proj2 (proj2 (selection_failures (one_step_solver status_ok)
                                  "m.map" 60 "1.2" scen_file 1 0 ltac:(lia)))));
      [simpl; lia|reflexivity].
Defined.

(** X4.  A negative scenario index is not rejected by the range test but
    used as a Python slice bound counted from the end of the entries:
    whenever [scenario_index + num_agents] is not negative, so that the
    window would have to reach the last entry, fewer than [num_agents]
    entries are selected and the run returns "Not enough agents". *)
Theorem negative_index_not_enough eecbs map_file timeout suboptimality
    (lines : list string) (scenario_index num_agents : Z) :
  let scenarios := (_parse_scenarios lines).1 in
  scenarios ≠ [] →
  scenario_index < 0 →
  0 ≤ scenario_index + num_agents →
  ∃ have : nat,
    Z.of_nat have < num_agents ∧
    have = length (slice scenarios scenario_index (scenario_index + num_agents)) ∧
    run_waypoint_scenario eecbs map_file timeout suboptimality lines
                          scenario_index num_agents
      = Ok (Run_failure (Not_enough_agents num_agents have)).
Proof.
  intros scenarios Hne Hneg Hwin.
  assert (length scenarios ≠ 0%nat) as Hlen.
  { intros H0. by apply nil_length_inv in H0. }
  assert (Z.of_nat (length (slice scenarios scenario_index
                                  (scenario_index + num_agents))) < num_agents)
    as Hfew.
  { unfold slice, clamp. rewrite length_take, length_drop.
    rewrite (proj2 (Z.ltb_lt scenario_index 0)) by lia.
    rewrite (proj2 (Z.ltb_ge (scenario_index + num_agents) 0)) by lia. lia. }
  eexists. split; [exact Hfew|]. split; [done|].
  unfold run_waypoint_scenario. fold scenarios.
  rewrite decide_False by done. rewrite decide_False by lia.
  by rewrite decide_True by lia.
Qed.

Lemma negative_index_not_enough_witness :
  ∃ have : nat,
    Z.of_nat have < 1 ∧
    have = length (slice (_parse_scenarios scen_file).1 (-1) (-1 + 1)) ∧
    run_waypoint_scenario (one_step_solver status_ok) "m.map" 60 "1.2" scen_file
                          (-1) 1
      = Ok (Run_failure (Not_enough_agents 1 have)).
Proof.
  apply (negative_index_not_enough (one_step_solver status_ok) "m.map" 60 "1.2"
           scen_file (-1) 1); [discriminate|lia|lia].
Defined.

(** ** How the assembled paths grow *)

(** X5.  From the second segment on, stitching only appends: when the
    loop gets through the first [m + 1] segments, [1 ≤ m], the assembled
    path of every agent after [m] segments is a proper prefix of its
    assembled path after [m + 1] segments. *)
Theorem assembled_paths_grow eecbs map_file timeout suboptimality
    (agents : list scenario) (map_name : string) (width height num_agents : Z)
    (m : nat) (st st' : loop_state) (a : nat) (own : path) :
  (1 ≤ m)%nat →
  run_segments eecbs map_file timeout suboptimality (route <$> agents) map_name
               width height num_agents m = (st, Fell_through) →
  run_segments eecbs map_file timeout suboptimality (route <$> agents) map_name
               width height num_agents (S m) = (st', Fell_through) →
  complete_paths st !! a = Some own →
  ∃ own', complete_paths st' !! a = Some own' ∧
          own `prefix_of` own' ∧ (length own < length own')%nat.
Proof.
  intros Hm Hst Hst' Hown.
  destruct (run_segments_cases eecbs map_file timeout suboptimality
              (route <$> agents) map_name width height num_agents
              (routes_not_nil agents) m)
    as [[H1 _]|(k & _ & _ & _ & H1)]; rewrite Hst in H1;
    [|unfold exit_at in H1; destruct (result_at _ _ _ _ _ _ _ _ _ k);
      discriminate H1].
  destruct (run_segments_cases eecbs map_file timeout suboptimality
              (route <$> agents) map_name width height num_agents
              (routes_not_nil agents) (S m))
    as [[H2 Hall]|(k & _ & _ & _ & H2)]; rewrite Hst' in H2;
    [|unfold exit_at in H2; destruct (result_at _ _ _ _ _ _ _ _ _ k);
      discriminate H2].
  injection H1 as ->. injection H2 as ->.
  specialize (Hall m ltac:(lia)). unfold goes_through in Hall.
  apply andb_true_iff in Hall as [_ Hstitch].
  apply stitchable_spec in Hstitch as [->|Hpaths]; [lia|].
  simpl in Hown |- *. unfold stitched. rewrite list_lookup_imap, Hown. simpl.
  pose proof (lookup_lt_Some _ _ _ Hown) as Ha. rewrite length_assembled in Ha.
  specialize (Hpaths a Ha).
  eexists. split; [done|]. unfold extend. rewrite decide_False by lia.
  destruct (path_of _ a) as [|p0 [|p1 rest]]; [done| |]; simpl.
  - split; [by apply prefix_app_r|]. rewrite length_app. simpl. lia.
  - split; [by apply prefix_app_r|]. rewrite length_app. simpl. lia.
Qed.

Lemma assembled_paths_grow_witness :
  ∃ own',
    complete_paths
      (run_segments (one_step_solver status_ok) "m.map" 60 "1.2"
                    (route <$> [agent_a; agent_b]) "empty-8-8.map" 8 8 2 2).1
      !! 1%nat = Some own' ∧
    [(1, 1); (3, 3)] `prefix_of` own' ∧
    (length [(1, 1); (3, 3)] < length own')%nat.
Proof.
  exact (assembled_paths_grow (one_step_solver status_ok) "m.map" 60 "1.2"
           [agent_a; agent_b] "empty-8-8.map" 8 8 2 1
           (run_segments (one_step_solver status_ok) "m.map" 60 "1.2"
                         (route <$> [agent_a; agent_b]) "empty-8-8.map" 8 8 2 1).1
           (run_segments (one_step_solver status_ok) "m.map" 60 "1.2"
                         (route <$> [agent_a; agent_b]) "empty-8-8.map" 8 8 2 2).1
           1 [(1, 1); (3, 3)] (le_n 1) eq_refl eq_refl eq_refl).
Defined.

(** In a route, the pair of a segment starts where the pair of the
    segment before it ends. *)
Lemma pair_at_chain (seq : list (Z * Z)) (m : nat) :
  seq ≠ [] → (pair_at (S m) seq).1 = (pair_at m seq).2.
Proof.
  intros Hne. unfold pair_at.
  destruct (decide (S m < length seq - 1)%nat),
           (decide (m < length seq - 1)%nat); simpl; try lia.
  - by rewrite Nat.add_1_r.
  - rewrite last_lookup. by replace (m + 1)%nat with (pred (length seq)) by lia.
  - done.
Qed.

Section Lossless.

Variable eecbs : list eecbs_call → eecbs_call → eecbs_response.
Variables (map_file : string) (timeout : Z) (suboptimality : string).
Variables (agents : list scenario) (map_name : string) (width height : Z).

Let seqs := route <$> agents.
Let num_agents := Z.of_nat (length agents).
Let result_at' :=
  result_at eecbs map_file timeout suboptimality seqs map_name width height
            num_agents.
Let paths_at' :=
  paths_at eecbs map_file timeout suboptimality seqs map_name width height
           num_agents.

(** X6.  When the outcomes of the segments [0], ..., [m] satisfy the
    invariant of segment outcomes, the loop gets through them and, right
    after segment [m] is stitched, the assembled path of every agent ends
    with the whole path of the agent in segment [m]: dropping the first
    point of a segment path loses nothing, since the assembled path
    already ends with this point. *)
Theorem stitching_keeps_segment_path (m : nat) :
  (∀ j, (j ≤ m)%nat →
     outcome_invariant (length agents) (pairs_at seqs j) (result_at' j)
                       (paths_at' j)) →
  ∃ st,
    run_segments eecbs map_file timeout suboptimality seqs map_name width height
                 num_agents (S m) = (st, Fell_through) ∧
    ∀ a agent, agents !! a = Some agent →
      ∃ P p, complete_paths st !! a = Some P ∧
             paths_at' m !! a = Some p ∧
             p `suffix_of` P.
Proof.
  intros Hinv.
  exists (state_at eecbs map_file timeout suboptimality seqs map_name width
                   height num_agents (S m)).
  split.
  - unfold run_segments.
    change (initial_state num_agents)
      with (state_at eecbs map_file timeout suboptimality seqs map_name width
                     height num_agents 0).
    apply segment_loop_through; [apply routes_not_nil|].
    intros j Hj. destruct (Hinv j ltac:(lia)) as (Hsucc & _).
    unfold goes_through. fold result_at' paths_at'. rewrite Hsucc. simpl.
    unfold num_agents. rewrite <- (length_pairs_at agents j).
    eapply outcome_invariant_stitchable.
    rewrite length_pairs_at. apply Hinv. lia.
  - intros a agent Ha.
    destruct (Hinv m ltac:(lia)) as (_ & _ & Hpaths).
    destruct (Hpaths a _ (lookup_pairs_at agents m a agent Ha))
      as (p & Hp & Hhead & _).
    change (complete_paths (state_at eecbs map_file timeout suboptimality seqs
                              map_name width height num_agents (S m)))
      with (stitched m (paths_at' m)
              (assembled eecbs map_file timeout suboptimality seqs map_name
                         width height num_agents m)).
    unfold stitched. rewrite list_lookup_imap. unfold path_of. rewrite Hp. simpl.
    destruct m as [|m].
    + simpl. rewrite lookup_replicate_2
        by (unfold num_agents; rewrite Nat2Z.id; by eapply lookup_lt_Some).
      simpl. by exists p, p.
    + destruct (assembled_ends eecbs map_file timeout suboptimality agents
                  map_name width height m a agent) as (own & Hown & _ & Hlast);
        [intros j Hj; apply Hinv; lia|done|].
      fold seqs num_agents in Hown. rewrite Hown. simpl.
      eexists _, p. split; [done|]. split; [done|].
      rewrite pair_at_chain in Hhead by apply route_not_nil.
      apply last_Some in Hlast as [own' ->].
      destruct p as [|x rest]; [done|]. injection Hhead as ->.
      unfold extend. rewrite decide_False by lia.
      destruct rest as [|y rest]; simpl.
      * by apply suffix_app_r.
      * exists own'. by rewrite <- app_assoc.
Qed.

End Lossless.

Lemma stitching_keeps_segment_path_witness :
  ∃ st,
    run_segments (one_step_solver status_ok) "m.map" 60 "1.2"
                 (route <$> [agent_a; agent_b]) "empty-8-8.map" 8 8
                 (Z.of_nat (length [agent_a; agent_b])) 2 = (st, Fell_through) ∧
    ∀ a agent, [agent_a; agent_b] !! a = Some agent →
      ∃ P p, complete_paths st !! a = Some P ∧
             paths_at (one_step_solver status_ok) "m.map" 60 "1.2"
                      (route <$> [agent_a; agent_b]) "empty-8-8.map" 8 8
                      (Z.of_nat (length [agent_a; agent_b])) 1 !! a = Some p ∧
             p `suffix_of` P.
Proof.
  apply (stitching_keeps_segment_path (one_step_solver status_ok) "m.map" 60
           "1.2" [agent_a; agent_b] "empty-8-8.map" 8 8 1).
  intros j Hj. destruct j as [|[|j]]; [| |lia].
  - split; [reflexivity|]. split; [reflexivity|].
    intros [|[|a]] pair Hpair; [| |discriminate Hpair];
      injection Hpair as <-; eexists; (split; [reflexivity|]);
      split; reflexivity.
  - split; [reflexivity|]. split; [reflexivity|].
    intros [|[|a]] pair Hpair; [| |discriminate Hpair];
      injection Hpair as <-; eexists; (split; [reflexivity|]);
      split; reflexivity.
Defined.

(** ** The paths file *)

Lemma length_record_path (paths : list path) (m : nat * path) :
  length (record_path paths m) = Nat.max (length paths) (S m.1).
Proof.
  unfold record_path, pad_paths.
  rewrite length_insert, length_app, length_replicate. lia.
Qed.

Lemma path_of_record_path (paths : list path) (m : nat * path) (a : nat) :
  path_of (record_path paths m) a = if decide (m.1 = a) then m.2 else path_of paths a.
Proof.
  unfold path_of, record_path, pad_paths. destruct (decide (m.1 = a)) as [<-|Hne].
  - rewrite list_lookup_insert_eq; [done|].
    rewrite length_app, length_replicate. lia.
  - rewrite list_lookup_insert_ne by done.
    destruct (decide (a < length paths)%nat) as [Hlt|Hge].
    + by rewrite lookup_app_l.
    + rewrite lookup_app_r by lia. rewrite (lookup_ge_None_2 paths) by lia.
      simpl. destruct (replicate _ _ !! _) as [p|] eqn:E; [|done].
      by apply lookup_replicate in E as [-> _].
Qed.

Lemma last_record_snoc (a : nat) (matches : list (nat * path)) (m : nat * path) :
  last_record a (matches ++ [m]) =
    if decide (m.1 = a) then Some m.2 else last_record a matches.
Proof.
  unfold last_record. rewrite filter_app.
  destruct (decide (m.1 = a)) as [Heq|Hne].
  - rewrite (filter_cons_True _ m []) by done. by rewrite filter_nil, last_snoc.
  - rewrite (filter_cons_False _ m []) by done. by rewrite filter_nil, app_nil_r.
Qed.

(** X7.  The paths parsed from the records of a paths file: the path of
    an agent is made of the coordinates of its last record, and is empty
    when it has no record; there are as many paths as the greatest agent
    id plus one, and none when there is no record or the file cannot be
    read. *)
Theorem paths_file_records (matches : list (nat * path)) (a : nat) :
  path_of (_parse_paths_file (Some matches)) a
    = default [] (last_record a matches) ∧
  length (_parse_paths_file (Some matches)) = ids_bound matches ∧
  _parse_paths_file None = [].
Proof.
  split; [|split; [|done]]; simpl.
  - induction matches as [|m matches IH] using rev_ind; [done|].
    rewrite foldl_app. simpl. rewrite path_of_record_path, last_record_snoc, IH.
    by destruct (decide (m.1 = a)).
  - induction matches as [|m matches IH] using rev_ind; [done|].
    rewrite foldl_app. simpl. rewrite length_record_path, IH.
    clear IH. induction matches as [|m' matches IH]; simpl; [lia|].
    rewrite <- IH. lia.
Qed.

(** ** The adapter *)

(** X8.  The failure "No output from EECBS" is never returned: the list
    of output lines is never empty, and a solver that exits with status
    zero and prints nothing but white space is reported as "EECBS did not
    succeed" with an empty status line. *)
Theorem no_output_never_reported
    (subprocess_run : eecbs_call → res completed_process)
    (map_file : string) (scenario_file : list instance_row)
    (num_agents timeout : Z) (suboptimality : string) :
  let outcome := _run_eecbs subprocess_run map_file scenario_file num_agents
                            timeout suboptimality in
  (∀ err, outcome ≠ Eecbs_failure No_output_from_EECBS err) ∧
  (∀ p,
     subprocess_run (eecbs_cmd map_file scenario_file num_agents timeout
                               suboptimality) = Ok p →
     returncode p = 0 →
     PyStr.strip (stdout p) = "" →
     outcome = Eecbs_failure (EECBS_did_not_succeed "") None).
Proof.
  intros outcome. split.
  - intros err Hout. subst outcome.
    destruct (subprocess_run (eecbs_cmd map_file scenario_file num_agents timeout
                                        suboptimality)) as [p|e] eqn:Hrun.
    + destruct (decide (returncode p = 0)) as [Hrc|Hrc].
      * rewrite (run_eecbs_zero _ _ _ _ _ _ p Hrun Hrc) in Hout. simpl in Hout.
        destruct (negb _); [discriminate Hout|].
        destruct (decide _); [|discriminate Hout].
        destruct (PyStr.int _); discriminate Hout.
      * rewrite (run_eecbs_nonzero _ _ _ _ _ _ p Hrun Hrc) in Hout.
        discriminate Hout.
    + rewrite (run_eecbs_raised _ _ _ _ _ _ e Hrun) in Hout.
      destruct e; discriminate Hout.
  - intros p Hrun Hrc Hblank. subst outcome.
    rewrite (run_eecbs_zero _ _ _ _ _ _ p Hrun Hrc). simpl.
    unfold final_status_line. rewrite Hblank. done.
Qed.

Lemma no_output_never_reported_witness :
  _run_eecbs (exited 0 " ") "m.map" [] 1 60 "1.2"
    = Eecbs_failure (EECBS_did_not_succeed "") None.
Proof.
  exact (proj2 (no_output_never_reported (exited 0 " ") "m.map" [] 1 60 "1.2")
           (mk_completed 0 " " "") eq_refl eq_refl eq_refl).
Defined.

(** ** The loop over the waypoint coordinates *)

Example py_range_examples :
  py_range 0 (-1) 2 = [] ∧ py_range 0 0 2 = [] ∧ py_range 0 1 2 = [0] ∧
  py_range 0 2 2 = [0] ∧ py_range 0 3 2 = [0; 2] ∧ py_range 1 8 3 = [1; 4; 7].
Proof. by repeat split. Qed.

Lemma waypoint_indices (n : nat) :
  Z.to_nat <$> py_range 0 (Z.of_nat n - 1) 2
    = (fun k => 2 * k)%nat <$> seq 0 (n / 2).
Proof.
  unfold py_range. rewrite <- list_fmap_compose.
  replace (Z.to_nat ((Z.of_nat n - 1 - 0 + 2 - 1) / 2)) with (n / 2)%nat.
  - apply list_fmap_ext. intros i k _. simpl. lia.
  - replace (Z.of_nat n - 1 - 0 + 2 - 1) with (Z.of_nat n) by lia.
    change 2 with (Z.of_nat 2). rewrite <- Nat2Z.inj_div. lia.
Qed.

Lemma waypoint_loop_body_at (coords : list string) (acc : list (Z * Z))
    (i : nat) (x y : string) :
  coords !! i = Some x → coords !! (i + 1)%nat = Some y →
  waypoint_loop_body coords acc i =
    (wp_x ← int x; wp_y ← int y; mret (acc ++ [(wp_x, wp_y)])).
Proof.
  intros Hx Hy. unfold waypoint_loop_body.
  rewrite decide_True by (by eapply lookup_lt_Some).
  by rewrite (item_lookup _ _ _ Hx), (item_lookup _ _ _ Hy).
Qed.

Lemma waypoint_loop_from (coords pre rest : list string) (k0 : nat)
    (acc : list (Z * Z)) :
  coords = pre ++ rest →
  length pre = (2 * k0)%nat →
  for_loop (waypoint_loop_body coords)
           ((fun k => 2 * k)%nat <$> seq k0 (length rest / 2)) acc
    = (waypoints ← parse_waypoint_coords rest; mret (acc ++ waypoints)).
Proof.
  revert pre k0 acc.
  induction rest as [|x|x y rest IH] using pair_ind; intros pre k0 acc -> Hpre.
  - simpl. by rewrite app_nil_r.
  - simpl. by rewrite app_nil_r.
  - replace (length (x :: y :: rest) / 2)%nat with (S (length rest / 2)).
    2:{ simpl length. replace (S (S (length rest))) with (length rest + 1 * 2)%nat
          by lia.
        rewrite Nat.div_add by lia. lia. }
    cbn [seq fmap list_fmap for_loop].
    assert ((pre ++ x :: y :: rest) !! (2 * k0)%nat = Some x) as Hx.
    { rewrite lookup_app_r by lia. by replace (2 * k0 - length pre)%nat with 0%nat
        by lia. }
    assert ((pre ++ x :: y :: rest) !! (2 * k0 + 1)%nat = Some y) as Hy.
    { rewrite lookup_app_r by lia.
      by replace (2 * k0 + 1 - length pre)%nat with 1%nat by lia. }
    rewrite (waypoint_loop_body_at _ _ _ _ _ Hx Hy).
    cbn [parse_waypoint_coords].
    destruct (int x) as [wp_x|e]; simpl; [|done].
    destruct (int y) as [wp_y|e]; simpl; [|done].
    rewrite (IH (pre ++ [x; y]) (S k0)).
    + destruct (parse_waypoint_coords rest); simpl; [|done].
      by rewrite <- app_assoc.
    + by rewrite <- app_assoc.
    + rewrite length_app. simpl. lia.
Qed.

Lemma parse_waypoint_coords_items (coords : list string) (waypoints : list (Z * Z)) :
  parse_waypoint_coords coords = Ok waypoints →
  length waypoints = (length coords / 2)%nat ∧
  ∀ k x y, waypoints !! k = Some (x, y) →
    ∃ cx cy, coords !! (2 * k)%nat = Some cx ∧ coords !! (2 * k + 1)%nat = Some cy ∧
             PyStr.int cx = Some x ∧ PyStr.int cy = Some y.
Proof.
  revert waypoints.
  induction coords as [|c|cx cy coords IH] using pair_ind; intros waypoints Hparse.
  - injection Hparse as <-. split; [done|]. intros k x y H. discriminate H.
  - injection Hparse as <-. split; [done|]. intros k x y H. discriminate H.
  - simpl in Hparse.
    destruct (int cx) as [x0|] eqn:Hcx; simpl in Hparse; [|discriminate Hparse].
    destruct (int cy) as [y0|] eqn:Hcy; simpl in Hparse; [|discriminate Hparse].
    destruct (parse_waypoint_coords coords) as [rest|]; simpl in Hparse;
      [|discriminate Hparse].
    injection Hparse as <-. destruct (IH rest eq_refl) as [Hlen Hitems].
    split.
    + simpl length. rewrite Hlen.
      replace (S (S (length coords))) with (length coords + 1 * 2)%nat by lia.
      rewrite Nat.div_add by lia. lia.
    + intros [|k] x y Hk.
      * injection Hk as -> ->. exists cx, cy.
        apply int_Ok in Hcx, Hcy. done.
      * simpl in Hk. destruct (Hitems k x y Hk) as (c1 & c2 & H1 & H2 & H3 & H4).
        exists c1, c2. split; [|split; [|done]].
        -- by replace (2 * S k)%nat with (S (S (2 * k))) by lia.
        -- by replace (2 * S k + 1)%nat with (S (S (2 * k + 1))) by lia.
Qed.

(** X9.  The loop over [range(0, len(waypoint_coords) - 1, 2)], run index
    by index, computes what reading the coordinates two at a time
    computes; when it does not raise, it yields half as many waypoints
    as there are coordinates (rounded down), the waypoint [k] being made
    of the coordinates [2k] and [2k + 1]. *)
Theorem waypoint_loop_pairs (waypoint_coords : list string) :
  waypoint_loop waypoint_coords = parse_waypoint_coords waypoint_coords ∧
  ∀ waypoints,
    waypoint_loop waypoint_coords = Ok waypoints →
    length waypoints = (length waypoint_coords / 2)%nat ∧
    ∀ k x y, waypoints !! k = Some (x, y) →
      ∃ cx cy, waypoint_coords !! (2 * k)%nat = Some cx ∧
               waypoint_coords !! (2 * k + 1)%nat = Some cy ∧
               PyStr.int cx = Some x ∧ PyStr.int cy = Some y.
Proof.
  assert (waypoint_loop waypoint_coords = parse_waypoint_coords waypoint_coords)
    as Heq.
  { unfold waypoint_loop. rewrite waypoint_indices.
    rewrite (waypoint_loop_from waypoint_coords [] waypoint_coords 0 []) by done.
    by destruct (parse_waypoint_coords waypoint_coords). }
  split; [done|]. intros waypoints Hloop. rewrite Heq in Hloop.
  by apply parse_waypoint_coords_items.
Qed.

Lemma waypoint_loop_pairs_witness :
  length [(7, 7); (0, 0)] = (length ["7"; "7"; "0"; "0"; "9"] / 2)%nat ∧
  ∀ k x y, [(7, 7); (0, 0)] !! k = Some (x, y) →
    ∃ cx cy, ["7"; "7"; "0"; "0"; "9"] !! (2 * k)%nat = Some cx ∧
             ["7"; "7"; "0"; "0"; "9"] !! (2 * k + 1)%nat = Some cy ∧
             PyStr.int cx = Some x ∧ PyStr.int cy = Some y.
Proof.
  exact (proj2 (waypoint_loop_pairs ["7"; "7"; "0"; "0"; "9"])
           [(7, 7); (0, 0)] eq_refl).
Defined.

(** * Strings: conversions and round trips *)

Example str_examples :
  str 0 = "0" ∧ str 7 = "7" ∧ str 10 = "10" ∧ str 4096 = "4096" ∧
  str (-1) = "-1" ∧ str (-250) = "-250".
Proof. by repeat split. Qed.

Example join_examples :
  join " " ["2"; "2"; "7"] = "2 2 7" ∧ join " " [] = "" ∧ join "->" ["a"] = "a".
Proof. by repeat split. Qed.

Lemma app_nil_str (s : string) : "" +:+ s = s.
Proof. reflexivity. Qed.

Lemma app_cons_str (c : ascii) (s t : string) :
  String c s +:+ t = String c (s +:+ t).
Proof. reflexivity. Qed.

Lemma app_empty_r (s : string) : s +:+ "" = s.
Proof.
  induction s as [|c s IH]; [done|]. by rewrite app_cons_str, IH.
Qed.

Lemma app_assoc_str (s1 s2 s3 : string) : (s1 +:+ s2) +:+ s3 = s1 +:+ s2 +:+ s3.
Proof.
  induction s1 as [|c s1 IH]; [done|]. by rewrite !app_cons_str, IH.
Qed.

Lemma occurs_app (c : ascii) (s1 s2 : string) :
  occurs c (s1 +:+ s2) = occurs c s1 || occurs c s2.
Proof.
  induction s1 as [|c' s1 IH]; [done|].
  rewrite app_cons_str. simpl. by rewrite IH, orb_assoc.
Qed.

Lemma has_space_app (s1 s2 : string) :
  has_space (s1 +:+ s2) = has_space s1 || has_space s2.
Proof.
  induction s1 as [|c' s1 IH]; [done|].
  rewrite app_cons_str. simpl. by rewrite IH, orb_assoc.
Qed.

(** *** [split] and [join] *)

Lemma split_no_sep (sep : ascii) (s : string) :
  occurs sep s = false → PyStr.split sep s = [s].
Proof.
  induction s as [|c s IH]; simpl; [done|]. intros H.
  apply orb_false_iff in H as [Hc Hs]. rewrite Hc, (IH Hs). done.
Qed.

Lemma split_app (sep : ascii) (s rest : string) :
  occurs sep s = false →
  PyStr.split sep (s +:+ String sep rest) = s :: PyStr.split sep rest.
Proof.
  induction s as [|c s IH]; intros H.
  - rewrite app_nil_str. simpl. by rewrite Ascii.eqb_refl.
  - simpl in H. apply orb_false_iff in H as [Hc Hs].
    rewrite app_cons_str. simpl. rewrite Hc, (IH Hs). done.
Qed.

Lemma split_join (sep : ascii) (items : list string) :
  items ≠ [] →
  Forall (fun item => occurs sep item = false) items →
  PyStr.split sep (join (String sep "") items) = items.
Proof.
  intros Hne Hall. induction Hall as [|item items Hitem Hall IH]; [done|].
  destruct items as [|item' items].
  - simpl. by apply split_no_sep.
  - change (join (String sep "") (item :: item' :: items))
      with (item +:+ String sep (join (String sep "") (item' :: items))).
    rewrite split_app by done. by rewrite IH.
Qed.

Lemma split_elements (sep : ascii) (s : string) :
  Forall (fun item => occurs sep item = false) (PyStr.split sep s).
Proof.
  induction s as [|c s IH]; simpl; [by constructor|].
  destruct (Ascii.eqb c sep) eqn:Hc; [by constructor|].
  destruct (PyStr.split sep s) as [|w ws]; [by constructor; [simpl; rewrite Hc|]|].
  inversion IH as [|? ? Hw Hws]; subst. constructor; [|done].
  simpl. by rewrite Hc.
Qed.

(** *** [strip] *)

Lemma lstrip_id (s : string) :
  (∀ c, first_char s = Some c → PyStr.is_space c = false) → PyStr.lstrip s = s.
Proof.
  destruct s as [|c s]; simpl; [done|]. intros H. by rewrite (H c).
Qed.

Lemma rstrip_id (s : string) :
  (∀ c, last_char s = Some c → PyStr.is_space c = false) → PyStr.rstrip s = s.
Proof.
  induction s as [|c s IH]; simpl; [done|]. intros H.
  destruct s as [|c' s].
  - simpl. by rewrite (H c).
  - rewrite IH by done. done.
Qed.

Lemma strip_id (s : string) : trimmed s → PyStr.strip s = s.
Proof.
  intros [H1 H2]. unfold PyStr.strip. rewrite lstrip_id by done.
  by apply rstrip_id.
Qed.

Lemma rstrip_space (s : string) (c : ascii) :
  PyStr.is_space c = true → PyStr.rstrip (s +:+ String c "") = PyStr.rstrip s.
Proof.
  intros Hc. induction s as [|c' s IH].
  - rewrite app_nil_str. simpl. by rewrite Hc.
  - rewrite app_cons_str. simpl. by rewrite IH.
Qed.

Lemma lstrip_first (s : string) (c : ascii) :
  first_char (PyStr.lstrip s) = Some c → PyStr.is_space c = false.
Proof.
  induction s as [|c' s IH]; simpl; [done|].
  destruct (PyStr.is_space c') eqn:Hc'; [done|].
  simpl. by intros [= <-].
Qed.

Lemma rstrip_first (s : string) (c : ascii) :
  first_char s = Some c → PyStr.is_space c = false →
  first_char (PyStr.rstrip s) = Some c.
Proof.
  destruct s as [|c' s]; simpl; [done|]. intros [= ->] Hc.
  destruct (PyStr.rstrip s); [by rewrite Hc|done].
Qed.

Lemma rstrip_last (s : string) (c : ascii) :
  last_char (PyStr.rstrip s) = Some c → PyStr.is_space c = false.
Proof.
  induction s as [|c' s IH]; simpl; [done|].
  destruct (PyStr.rstrip s) as [|c'' r] eqn:Hr.
  - destruct (PyStr.is_space c') eqn:Hc'; [done|]. simpl. by intros [= <-].
  - intros H. apply IH. exact H.
Qed.

(** A stripped string neither starts nor ends with white space. *)
Lemma strip_trimmed (s : string) : trimmed (PyStr.strip s).
Proof.
  unfold PyStr.strip. split.
  - intros c Hc. destruct (PyStr.lstrip s) as [|c' r] eqn:Hl; [done|].
    assert (PyStr.is_space c' = false) as Hc'.
    { apply (lstrip_first s). by rewrite Hl. }
    rewrite (rstrip_first (String c' r) c' eq_refl Hc') in Hc.
    by injection Hc as <-.
  - apply rstrip_last.
Qed.

Lemma first_char_app (s1 s2 : string) (c : ascii) :
  first_char s1 = Some c → first_char (s1 +:+ s2) = Some c.
Proof. by destruct s1. Qed.

Lemma last_char_app (s1 s2 : string) :
  s2 ≠ "" → last_char (s1 +:+ s2) = last_char s2.
Proof.
  intros Hne. induction s1 as [|c s1 IH]; [done|].
  rewrite app_cons_str. simpl. rewrite IH.
  destruct (s1 +:+ s2) eqn:E; [|done].
  destruct s1; [by rewrite app_nil_str in E|].
  rewrite app_cons_str in E. discriminate E.
Qed.

Lemma first_char_split (sep : ascii) (s : string) (c : ascii) (item : string)
    (items : list string) :
  first_char s = Some c → Ascii.eqb c sep = false →
  PyStr.split sep s = item :: items → first_char item = Some c.
Proof.
  destruct s as [|c' s]; simpl; [done|]. intros [= ->] Hc. rewrite Hc.
  destruct (PyStr.split sep s); by intros [= <- _].
Qed.

(** *** [str] and [int] *)

Lemma digit_cases (d : N) :
  (d < 10)%N →
  d = 0%N ∨ d = 1%N ∨ d = 2%N ∨ d = 3%N ∨ d = 4%N ∨
  d = 5%N ∨ d = 6%N ∨ d = 7%N ∨ d = 8%N ∨ d = 9%N.
Proof. lia. Qed.

Ltac digit_case d H :=
  destruct (digit_cases d H) as [->|[->|[->|[->|[->|[->|[->|[->|[->| ->]]]]]]]]].

Lemma digit_val_char (d : N) :
  (d < 10)%N → PyStr.digit_val (digit_char d) = Some (Z.of_N d).
Proof. intros H. digit_case d H; reflexivity. Qed.

Lemma digit_char_space (d : N) :
  (d < 10)%N → PyStr.is_space (digit_char d) = false.
Proof. intros H. digit_case d H; reflexivity. Qed.

Lemma digit_char_other (d : N) (c : ascii) :
  (d < 10)%N → PyStr.is_digit c = false → Ascii.eqb (digit_char d) c = false.
Proof.
  intros H Hc. destruct (Ascii.eqb_spec (digit_char d) c) as [<-|]; [|done].
  unfold PyStr.is_digit in Hc. by rewrite digit_val_char in Hc.
Qed.

Lemma mod_10_lt (n : N) : (n mod 10 < 10)%N.
Proof. apply N.mod_lt. lia. Qed.

Lemma str_digits_first (fuel : nat) (n : N) (acc : string) :
  ∃ d rest, (d < 10)%N ∧
            str_digits (S fuel) n acc = String (digit_char d) rest.
Proof.
  revert n acc. induction fuel as [|fuel IH]; intros n acc.
  - exists (n mod 10)%N, acc. split; [apply mod_10_lt|].
    simpl. by destruct (n <? 10)%N.
  - cbn [str_digits]. destruct (n <? 10)%N.
    + exists (n mod 10)%N, acc. split; [apply mod_10_lt|done].
    + apply IH.
Qed.

Lemma occurs_str_digits (c : ascii) (fuel : nat) (n : N) (acc : string) :
  PyStr.is_digit c = false →
  occurs c (str_digits fuel n acc) = occurs c acc.
Proof.
  intros Hc. revert n acc. induction fuel as [|fuel IH]; intros n acc; [done|].
  cbn [str_digits]. destruct (n <? 10)%N.
  - simpl. by rewrite digit_char_other by (apply mod_10_lt || done).
  - rewrite IH. simpl. by rewrite digit_char_other by (apply mod_10_lt || done).
Qed.

Lemma has_space_str_digits (fuel : nat) (n : N) (acc : string) :
  has_space (str_digits fuel n acc) = has_space acc.
Proof.
  revert n acc. induction fuel as [|fuel IH]; intros n acc; [done|].
  cbn [str_digits]. destruct (n <? 10)%N.
  - simpl. by rewrite digit_char_space by apply mod_10_lt.
  - rewrite IH. simpl. by rewrite digit_char_space by apply mod_10_lt.
Qed.

Lemma digits_tail_str_digits (fuel : nat) (n : N) (acc : string) :
  (N.to_nat n < fuel)%nat →
  ∃ p, ∀ a, PyStr.digits_tail a (str_digits fuel n acc)
            = PyStr.digits_tail (a * p + Z.of_N n) acc.
Proof.
  revert n acc. induction fuel as [|fuel IH]; intros n acc Hfuel; [lia|].
  cbn [str_digits]. destruct (n <? 10)%N eqn:Hn.
  - apply N.ltb_lt in Hn. exists 10. intros a. cbn [PyStr.digits_tail].
    rewrite digit_val_char by apply mod_10_lt.
    rewrite N.mod_small by done. f_equal. lia.
  - apply N.ltb_ge in Hn.
    destruct (IH (n / 10)%N (String (digit_char (n mod 10)) acc)) as [p Hp].
    { assert (n / 10 < n)%N by (apply N.div_lt; lia). lia. }
    exists (10 * p). intros a. rewrite Hp. cbn [PyStr.digits_tail].
    rewrite digit_val_char by apply mod_10_lt. f_equal.
    pose proof (N.div_mod n 10 ltac:(lia)) as Hdiv. lia.
Qed.

Lemma unsigned_literal_str_digits (n : N) :
  PyStr.unsigned_literal (str_digits (S (N.to_nat n)) n "") = Some (Z.of_N n).
Proof.
  destruct (digits_tail_str_digits (S (N.to_nat n)) n "" ltac:(lia)) as [p Hp].
  destruct (str_digits_first (N.to_nat n) n "") as (d & rest & Hd & Hstr).
  specialize (Hp 0). rewrite Hstr in Hp |- *.
  cbn [PyStr.digits_tail PyStr.unsigned_literal] in Hp |- *.
  rewrite digit_val_char in Hp |- * by done.
  replace (10 * 0 + Z.of_N d) with (Z.of_N d) in Hp by lia. rewrite Hp.
  simpl. f_equal; lia.
Qed.

Lemma has_space_str (z : Z) : has_space (str z) = false.
Proof.
  destruct z; unfold str; cbn [has_space]; rewrite ?has_space_str_digits; done.
Qed.

Lemma str_not_empty (z : Z) : str z ≠ "".
Proof.
  destruct z as [|p|p]; unfold str; [done| |done].
  destruct (str_digits_first (Z.to_nat (Z.pos p)) (Z.to_N (Z.pos p)) "")
    as (d & rest & _ & ->). done.
Qed.

Lemma occurs_str (c : ascii) (z : Z) :
  PyStr.is_digit c = false → Ascii.eqb "-" c = false → occurs c (str z) = false.
Proof.
  intros Hc Hminus. destruct z; unfold str; cbn [occurs];
    rewrite ?occurs_str_digits by done; rewrite ?Hminus; done.
Qed.

Lemma no_space_trimmed (s : string) : has_space s = false → trimmed s.
Proof.
  intros H. split.
  - destruct s as [|c s]; [done|]. simpl in H. intros c' [= <-].
    by apply orb_false_iff in H as [? _].
  - induction s as [|c s IH]; [done|]. simpl in H.
    apply orb_false_iff in H as [Hc Hs]. destruct s as [|c' s].
    + by intros c' [= <-].
    + intros c'' Hlast. by apply IH.
Qed.

Lemma literal_space_is_space (c : ascii) :
  PyStr.is_space c = false → PyStr.is_literal_space c = false.
Proof.
  unfold PyStr.is_space, PyStr.is_literal_space. cbn [existsb].
  rewrite !orb_false_iff. intros (? & ? & ? & ? & ? & _ & _ & _ & _ & ? & ? & ? & _).
  by repeat split.
Qed.

Lemma strip_literal_no_space (s : string) :
  has_space s = false → PyStr.strip_literal s = s.
Proof.
  intros Hs. unfold PyStr.strip_literal.
  assert (PyStr.lstrip_literal s = s) as ->.
  { destruct s as [|c s]; [done|]. cbn [has_space] in Hs.
    apply orb_false_iff in Hs as [Hc _]. cbn [PyStr.lstrip_literal].
    by rewrite (literal_space_is_space c Hc). }
  induction s as [|c s IH]; [done|]. cbn [has_space] in Hs.
  apply orb_false_iff in Hs as [Hc Hs]. cbn [PyStr.rstrip_literal].
  rewrite (IH Hs), (literal_space_is_space c Hc). by destruct s.
Qed.

(** [int(str(z))] is [z]. *)
Lemma int_str (z : Z) : PyStr.int (str z) = Some z.
Proof.
  unfold PyStr.int.
  rewrite strip_literal_no_space by apply has_space_str.
  destruct z as [|p|p]; [done| |].
  - unfold str. pose proof (unsigned_literal_str_digits (N.pos p)) as Hlit.
    replace (N.to_nat (N.pos p)) with (Z.to_nat (Z.pos p)) in Hlit by lia.
    change (Z.to_N (Z.pos p)) with (N.pos p).
    destruct (str_digits_first (Z.to_nat (Z.pos p)) (N.pos p) "")
      as (d & rest & Hd & Hstr).
    rewrite Hstr in Hlit |- *. change (Z.of_N (N.pos p)) with (Z.pos p) in Hlit.
    rewrite <- Hlit. digit_case d Hd; reflexivity.
  - unfold str. pose proof (unsigned_literal_str_digits (N.pos p)) as Hlit.
    replace (N.to_nat (N.pos p)) with (Pos.to_nat p) in Hlit by lia.
    rewrite Hlit. done.
Qed.

(** *** [split()] and [" ".join] *)

Lemma split_ws_space (s : string) : PyStr.split_ws (String " " s) = PyStr.split_ws s.
Proof. reflexivity. Qed.

Lemma split_ws_word (w rest : string) :
  w ≠ "" → has_space w = false →
  PyStr.split_ws (w +:+ String " " rest) = w :: PyStr.split_ws rest.
Proof.
  induction w as [|c w IH]; [done|]. intros _ Hw. simpl in Hw.
  apply orb_false_iff in Hw as [Hc Hw].
  rewrite app_cons_str. destruct w as [|c' w].
  - rewrite app_nil_str. cbn [PyStr.split_ws]. rewrite Hc.
    change (PyStr.is_space " ") with true. cbn iota. done.
  - specialize (IH ltac:(done) Hw). rewrite app_cons_str in IH |- *.
    cbn [PyStr.split_ws] in IH |- *. rewrite Hc.
    simpl in Hw. apply orb_false_iff in Hw as [Hc' Hw]. rewrite Hc' in IH |- *.
    cbn iota in IH |- *. by rewrite IH.
Qed.

Lemma split_ws_single (w : string) :
  w ≠ "" → has_space w = false → PyStr.split_ws w = [w].
Proof.
  induction w as [|c w IH]; [done|]. intros _ Hw. simpl in Hw.
  apply orb_false_iff in Hw as [Hc Hw]. destruct w as [|c' w].
  - cbn [PyStr.split_ws]. by rewrite Hc.
  - specialize (IH ltac:(done) Hw). cbn [PyStr.split_ws] in IH |- *.
    rewrite Hc. simpl in Hw. apply orb_false_iff in Hw as [Hc' Hw].
    rewrite Hc' in IH |- *. cbn iota in IH |- *. by rewrite IH.
Qed.

Lemma split_ws_join (items : list string) :
  Forall (fun item => item ≠ "" ∧ has_space item = false) items →
  PyStr.split_ws (join " " items) = items.
Proof.
  induction 1 as [|item items [Hne Hsp] _ IH]; [done|].
  destruct items as [|item' items].
  - by apply split_ws_single.
  - change (join " " (item :: item' :: items))
      with (item +:+ String " " (join " " (item' :: items))).
    rewrite split_ws_word by done. by rewrite IH.
Qed.

(** ** Joining and stripping *)

Lemma join_cons (sep item : string) (items : list string) :
  items ≠ [] → join sep (item :: items) = item +:+ sep +:+ join sep items.
Proof. by destruct items. Qed.

Lemma join_snoc (sep : string) (items : list string) (item : string) :
  items ≠ [] → join sep (items ++ [item]) = join sep items +:+ sep +:+ item.
Proof.
  induction items as [|a items IH]; [done|]. intros _.
  destruct items as [|b items]; [done|].
  change ((a :: b :: items) ++ [item]) with (a :: ((b :: items) ++ [item])).
  rewrite join_cons by done. rewrite IH by done.
  rewrite (join_cons sep a (b :: items)) by done.
  by rewrite !app_assoc_str.
Qed.

Lemma app_not_empty_r (s t : string) : t ≠ "" → s +:+ t ≠ "".
Proof.
  destruct s; [by rewrite app_nil_str|]. by rewrite app_cons_str.
Qed.

Lemma rstrip_app_keep (s t : string) :
  PyStr.rstrip t ≠ "" → PyStr.rstrip (s +:+ t) = s +:+ PyStr.rstrip t.
Proof.
  intros Ht. induction s as [|c s IH]; [by rewrite !app_nil_str|].
  rewrite !app_cons_str. cbn [PyStr.rstrip]. rewrite IH.
  pose proof (app_not_empty_r s _ Ht) as Hne.
  by destruct (s +:+ PyStr.rstrip t).
Qed.

Lemma rstrip_app_all (s t : string) :
  PyStr.rstrip t = "" → PyStr.rstrip (s +:+ t) = PyStr.rstrip s.
Proof.
  intros Ht. induction s as [|c s IH]; [by rewrite app_nil_str|].
  rewrite app_cons_str. cbn [PyStr.rstrip]. by rewrite IH.
Qed.

Lemma rstrip_join_keep (sep : string) (pre : list string) (last : string) :
  PyStr.rstrip last ≠ "" →
  PyStr.rstrip (join sep (pre ++ [last])) = join sep (pre ++ [PyStr.rstrip last]).
Proof.
  intros Hlast. induction pre as [|a pre IH]; [done|].
  change ((a :: pre) ++ [last]) with (a :: (pre ++ [last])).
  change ((a :: pre) ++ [PyStr.rstrip last]) with (a :: (pre ++ [PyStr.rstrip last])).
  rewrite !join_cons by (by destruct pre).
  assert (join sep (pre ++ [PyStr.rstrip last]) ≠ "") as Hne.
  { clear IH. induction pre as [|b pre IH]; [done|].
    change ((b :: pre) ++ [PyStr.rstrip last])
      with (b :: (pre ++ [PyStr.rstrip last])).
    rewrite join_cons by (by destruct pre).
    by do 2 apply app_not_empty_r. }
  rewrite rstrip_app_keep; rewrite rstrip_app_keep; rewrite IH; try done.
  by apply app_not_empty_r.
Qed.

Lemma rstrip_join_drop (sep : string) (pre : list string) (pen last : string) :
  PyStr.rstrip sep = "" → PyStr.rstrip last = "" → PyStr.rstrip pen ≠ "" →
  PyStr.rstrip (join sep (pre ++ [pen; last])) = join sep (pre ++ [PyStr.rstrip pen]).
Proof.
  intros Hsep Hlast Hpen.
  change (pre ++ [pen; last]) with (pre ++ [pen] ++ [last]).
  rewrite (assoc_L (++)).
  rewrite join_snoc by (by destruct pre).
  rewrite rstrip_app_all; [by apply rstrip_join_keep|].
  by rewrite rstrip_app_all.
Qed.

Lemma occurs_join (c : ascii) (sep : string) (items : list string) :
  occurs c sep = false →
  Forall (fun item => occurs c item = false) items →
  occurs c (join sep items) = false.
Proof.
  intros Hsep. induction 1 as [|a items Ha _ IH]; [done|].
  destruct items as [|b items]; [done|].
  rewrite join_cons by done. rewrite !occurs_app. by rewrite Ha, Hsep, IH.
Qed.

Lemma occurs_split (c sep : ascii) (s : string) :
  occurs c s = false →
  Forall (fun item => occurs c item = false) (PyStr.split sep s).
Proof.
  induction s as [|c' s IH]; intros Hs.
  - by constructor.
  - cbn [occurs] in Hs. apply orb_false_iff in Hs as [Hc Hs].
    specialize (IH Hs). cbn [PyStr.split].
    destruct (Ascii.eqb c' sep); [by constructor|].
    destruct (PyStr.split sep s) as [|w ws]; constructor; try done.
    + cbn [occurs]. by rewrite Hc.
    + inversion IH; subst. cbn [occurs]. by rewrite Hc.
    + by inversion IH.
Qed.

Lemma rstrip_join_words (items : list string) :
  items ≠ [] →
  Forall (fun item => item ≠ "" ∧ has_space item = false) items →
  PyStr.rstrip (join " " items) = join " " items ∧ join " " items ≠ "".
Proof.
  intros Hne Hall. induction Hall as [|a items [Ha Hsp] Hall IH]; [done|].
  destruct items as [|b items].
  - split; [|done]. apply rstrip_id. by apply no_space_trimmed.
  - destruct IH as [IH1 IH2]; [done|].
    rewrite join_cons by done. split.
    + rewrite rstrip_app_keep; rewrite rstrip_app_keep; rewrite IH1;
        solve [done | by apply app_not_empty_r].
    + by do 2 apply app_not_empty_r.
Qed.

Lemma coords_of_words (wps : list (Z * Z)) :
  Forall (fun item => item ≠ "" ∧ has_space item = false) (coords_of wps).
Proof.
  induction wps as [|wp wps IH]; [by constructor|].
  change (coords_of (wp :: wps)) with (str wp.1 :: str wp.2 :: coords_of wps).
  repeat constructor; auto using str_not_empty, has_space_str.
Qed.

Lemma coords_of_no_tab (wps : list (Z * Z)) :
  Forall (fun item => occurs tab item = false) (coords_of wps).
Proof.
  induction wps as [|wp wps IH]; [by constructor|].
  change (coords_of (wp :: wps)) with (str wp.1 :: str wp.2 :: coords_of wps).
  repeat constructor; try done; by apply occurs_str.
Qed.

Lemma parse_coords_of (wps : list (Z * Z)) :
  parse_waypoint_coords (coords_of wps) = Ok wps.
Proof.
  induction wps as [|[x y] wps IH]; [done|].
  change (coords_of ((x, y) :: wps)) with (str x :: str y :: coords_of wps).
  cbn [parse_waypoint_coords]. unfold int at 1 2. rewrite !int_str.
  cbn. by rewrite IH.
Qed.

Lemma length_coords_of (wps : list (Z * Z)) :
  length (coords_of wps) = (2 * length wps)%nat.
Proof.
  induction wps as [|wp wps IH]; [done|].
  change (coords_of (wp :: wps)) with (str wp.1 :: str wp.2 :: coords_of wps).
  cbn [length]. lia.
Qed.

(** The tab-separated fields of a line of eleven fields whose last one
    is a list of coordinates, as the parser sees them: without
    waypoints the line ends with a tab, which [strip] removes, and
    ten fields remain. *)
Lemma generated_line_fields (b m w h a1 a2 a3 a4 o c : string)
    (wps : list (Z * Z)) (ch : ascii) :
  first_char b = Some ch → PyStr.is_space ch = false →
  Forall (fun item => occurs tab item = false) [b; m; w; h; a1; a2; a3; a4; o; c] →
  c ≠ "" → has_space c = false →
  PyStr.split tab (PyStr.strip
    (b +:+ String tab (m +:+ String tab (w +:+ String tab (h +:+ String tab
    (a1 +:+ String tab (a2 +:+ String tab (a3 +:+ String tab (a4 +:+ String tab
    (o +:+ String tab (c +:+ String tab
    (join " " (coords_of wps) +:+ String newline "")))))))))))) =
  [b; m; w; h; a1; a2; a3; a4; o; c]
    ++ match wps with [] => [] | _ => [join " " (coords_of wps)] end.
Proof.
  intros Hb Hch Htabs Hc Hsp.
  set (J := join " " (coords_of wps)).
  set (sep := String tab "").
  change (b +:+ String tab (m +:+ String tab (w +:+ String tab (h +:+ String tab
    (a1 +:+ String tab (a2 +:+ String tab (a3 +:+ String tab (a4 +:+ String tab
    (o +:+ String tab (c +:+ String tab (J +:+ String newline "")))))))))))
    with (join sep ([b; m; w; h; a1; a2; a3; a4; o; c] ++ [J +:+ String newline ""])).
  assert (PyStr.rstrip c = c) as Hrc.
  { apply rstrip_id. by apply no_space_trimmed. }
  unfold PyStr.strip. rewrite lstrip_id.
  2:{ intros c0 Hc0. destruct b as [|c1 b]; [done|].
      cbn [join app] in Hc0. rewrite app_cons_str in Hc0.
      cbn in Hb, Hc0. congruence. }
  destruct wps as [|wp wps].
  - change ([b; m; w; h; a1; a2; a3; a4; o; c] ++ [J +:+ String newline ""])
      with ([b; m; w; h; a1; a2; a3; a4; o] ++ [c; J +:+ String newline ""]).
    rewrite rstrip_join_drop; [|done|done|by rewrite Hrc]. rewrite Hrc.
    rewrite app_nil_r.
    apply split_join; [done|exact Htabs].
  - assert (coords_of (wp :: wps) ≠ []) as Hne by done.
    destruct (rstrip_join_words _ Hne (coords_of_words _)) as [HJ1 HJ2].
    fold J in HJ1, HJ2.
    rewrite rstrip_join_keep; rewrite rstrip_space; try done; rewrite HJ1; [|done].
    apply split_join; [done|].
    apply Forall_app; split; [exact Htabs|].
    constructor; [|done]. apply occurs_join; [done|apply coords_of_no_tab].
Qed.

(** ** Reading back what was written *)

Lemma universal_newlines_line (body rest : string) :
  occurs carriage_return body = false →
  universal_newlines (body +:+ String newline rest)
  = body +:+ String newline (universal_newlines rest).
Proof.
  induction body as [|c body IH]; intros Hcr.
  - by rewrite !app_nil_str.
  - cbn [occurs] in Hcr. apply orb_false_iff in Hcr as [Hc Hcr].
    rewrite !app_cons_str. cbn [universal_newlines]. rewrite Hc.
    by rewrite IH.
Qed.

Lemma keep_ends_line (body rest : string) :
  occurs newline body = false →
  keep_ends (body +:+ String newline rest)
  = (body +:+ String newline "") :: keep_ends rest.
Proof.
  induction body as [|c body IH]; intros Hnl.
  - by rewrite !app_nil_str.
  - cbn [occurs] in Hnl. apply orb_false_iff in Hnl as [Hc Hnl].
    rewrite !app_cons_str. cbn [keep_ends]. rewrite Hc.
    by rewrite IH.
Qed.

Lemma readlines_written (written : list string) :
  Forall is_line written → readlines (written_content written) = written.
Proof.
  unfold readlines. induction 1 as [|l written (body & -> & Hnl & Hcr) _ IH];
    [done|].
  cbn [written_content foldr]. fold (written_content written).
  rewrite app_assoc_str. rewrite app_cons_str, app_nil_str.
  rewrite universal_newlines_line by done.
  rewrite keep_ends_line by done. by rewrite IH.
Qed.

(** ** The scenario generator *)

Lemma parse_parts_inv (f0 f1 f2 f3 f4 f5 f6 f7 f8 c : string) (s : scenario) :
  parse_parts [f0; f1; f2; f3; f4; f5; f6; f7; f8; c] = Ok s →
  int f0 = Ok (bucket s) ∧ map_name s = f1 ∧
  int f2 = Ok (width s) ∧ int f3 = Ok (height s) ∧
  int f4 = Ok (start s).1 ∧ int f5 = Ok (start s).2 ∧
  int f6 = Ok (goal s).1 ∧ int f7 = Ok (goal s).2 ∧
  float f8 = Ok (optimal_length s) ∧ int c = Ok (num_waypoints s) ∧
  waypoints s = [].
Proof.
  unfold parse_parts. cbn [item lookup list_lookup mbind res_bind].
  destruct (int f0); [|done]. destruct (int f2); [|done].
  destruct (int f3); [|done]. destruct (int f4); [|done].
  destruct (int f5); [|done]. destruct (int f6); [|done].
  destruct (int f7); [|done]. destruct (float f8); [|done].
  destruct (int c); [|done]. cbn. intros [= <-]. by cbn.
Qed.

Lemma first_field (line f0 : string) (fields : list string) :
  PyStr.split tab (PyStr.strip line) = f0 :: fields → fields ≠ [] →
  ∃ ch, first_char f0 = Some ch ∧ PyStr.is_space ch = false.
Proof.
  intros Hsplit Hne.
  destruct (strip_trimmed line) as [Hfirst _].
  destruct (PyStr.strip line) as [|ch s] eqn:Hline.
  - cbn in Hsplit. by injection Hsplit as <- <-.
  - exists ch. specialize (Hfirst ch eq_refl). split; [|done].
    apply (first_char_split tab (String ch s) ch f0 fields); [done| |done].
    destruct (Ascii.eqb ch tab) eqn:Heq; [|done].
    apply Ascii.eqb_eq in Heq. by subst.
Qed.

Lemma rendered_line_parsed (b m w h a1 a2 a3 a4 o : string)
    (wps : list (Z * Z)) (ch : ascii) (vb vw vh sx sy gx gy vc : Z)
    (o' : string) (st : parser_state) :
  first_char b = Some ch → PyStr.is_space ch = false →
  Forall (fun item => occurs tab item = false) [b; m; w; h; a1; a2; a3; a4; o] →
  int b = Ok vb → int w = Ok vw → int h = Ok vh →
  int a1 = Ok sx → int a2 = Ok sy → int a3 = Ok gx → int a4 = Ok gy →
  float o = Ok o' →
  parse_line st
    (b +:+ String tab (m +:+ String tab (w +:+ String tab (h +:+ String tab
    (a1 +:+ String tab (a2 +:+ String tab (a3 +:+ String tab (a4 +:+ String tab
    (o +:+ String tab (str vc +:+ String tab
    (join " " (coords_of wps) +:+ String newline "")))))))))))
  = (st.1 ++ [mk_scenario vb m vw vh (sx, sy) (gx, gy) o' vc wps], st.2).
Proof.
  intros Hb Hch Htabs Hvb Hvw Hvh Hsx Hsy Hgx Hgy Ho.
  pose proof (generated_line_fields b m w h a1 a2 a3 a4 o (str vc) wps ch Hb Hch)
    as Hfields.
  assert (Forall (fun item => occurs tab item = false)
                 ([b; m; w; h; a1; a2; a3; a4; o] ++ [str vc])) as Htabs'.
  { apply Forall_app. split; [exact Htabs|].
    constructor; [|done]. by apply occurs_str. }
  specialize (Hfields Htabs' (str_not_empty vc) (has_space_str vc)).
  unfold parse_line. rewrite Hfields.
  destruct (String.eqb_spec (PyStr.strip
    (b +:+ String tab (m +:+ String tab (w +:+ String tab (h +:+ String tab
    (a1 +:+ String tab (a2 +:+ String tab (a3 +:+ String tab (a4 +:+ String tab
    (o +:+ String tab (str vc +:+ String tab
    (join " " (coords_of wps) +:+ String newline "")))))))))))) "")
    as [Hempty|_].
  { rewrite Hempty in Hfields. by cbn in Hfields. }
  assert (int (str vc) = Ok vc) as Hvc by (unfold int; by rewrite int_str).
  destruct wps as [|wp wps].
  - cbn [app]. rewrite decide_False by (cbn [length]; lia).
    unfold parse_parts. cbn [item lookup list_lookup mbind res_bind length].
    rewrite Hvb, Hvw, Hvh, Hsx, Hsy, Hgx, Hgy, Ho, Hvc.
    cbn [mbind res_bind]. by rewrite decide_False by lia.
  - cbn [app]. rewrite decide_False by (cbn [length]; lia).
    unfold parse_parts. cbn [item lookup list_lookup mbind res_bind length].
    rewrite Hvb, Hvw, Hvh, Hsx, Hsy, Hgx, Hgy, Ho, Hvc.
    cbn [mbind res_bind]. rewrite decide_True by lia.
    rewrite split_ws_join by apply coords_of_words.
    by rewrite parse_coords_of.
Qed.

Lemma coords_of_occurs (c : ascii) (wps : list (Z * Z)) :
  PyStr.is_digit c = false → Ascii.eqb "-" c = false →
  Forall (fun item => occurs c item = false) (coords_of wps).
Proof.
  intros Hd Hm. induction wps as [|wp wps IH]; [by constructor|].
  change (coords_of (wp :: wps)) with (str wp.1 :: str wp.2 :: coords_of wps).
  repeat constructor; try done; by apply occurs_str.
Qed.

Lemma rendered_line_is_line (b m w h a1 a2 a3 a4 o c : string)
    (wps : list (Z * Z)) :
  Forall no_line_end [b; m; w; h; a1; a2; a3; a4; o; c] →
  is_line
    (b +:+ String tab (m +:+ String tab (w +:+ String tab (h +:+ String tab
    (a1 +:+ String tab (a2 +:+ String tab (a3 +:+ String tab (a4 +:+ String tab
    (o +:+ String tab (c +:+ String tab
    (join " " (coords_of wps) +:+ String newline ""))))))))))).
Proof.
  intros Hall.
  set (J := join " " (coords_of wps)).
  set (sep := String tab "").
  exists (join sep ([b; m; w; h; a1; a2; a3; a4; o; c] ++ [J])). split.
  - change (b +:+ String tab (m +:+ String tab (w +:+ String tab (h +:+ String tab
      (a1 +:+ String tab (a2 +:+ String tab (a3 +:+ String tab (a4 +:+ String tab
      (o +:+ String tab (c +:+ String tab (J +:+ String newline "")))))))))))
      with (join sep ([b; m; w; h; a1; a2; a3; a4; o; c] ++ [J +:+ String newline ""])).
    rewrite !join_snoc by done. by rewrite !app_assoc_str.
  - split.
    + apply occurs_join; [done|]. apply Forall_app. split.
      * eapply Forall_impl; [exact Hall|]. by intros ? [? ?].
      * constructor; [|done]. apply occurs_join; [done|].
        by apply coords_of_occurs.
    + apply occurs_join; [done|]. apply Forall_app. split.
      * eapply Forall_impl; [exact Hall|]. by intros ? [? ?].
      * constructor; [|done]. apply occurs_join; [done|].
        by apply coords_of_occurs.
Qed.

Lemma no_line_end_split (sep : ascii) (s : string) :
  no_line_end s → Forall no_line_end (PyStr.split sep s).
Proof.
  intros [Hnl Hcr].
  pose proof (occurs_split newline sep s Hnl) as H1.
  pose proof (occurs_split carriage_return sep s Hcr) as H2.
  revert H1 H2. generalize (PyStr.split sep s). intros items H1.
  induction H1 as [|item items Hi _ IH]; intros H2; [done|].
  apply Forall_cons in H2 as [? ?]. constructor; [done|]. by apply IH.
Qed.

Lemma no_line_end_str (z : Z) : no_line_end (str z).
Proof. split; by apply occurs_str. Qed.

Lemma universal_newlines_no_cr (s : string) :
  occurs carriage_return (universal_newlines s) = false.
Proof.
  enough (occurs carriage_return (universal_newlines s) = false ∧
          ∀ c, occurs carriage_return (universal_newlines (String c s)) = false)
    as [H _] by done.
  induction s as [|c' s [IH1 IH2]].
  - split; [done|]. intros c. cbn [universal_newlines].
    destruct (Ascii.eqb c carriage_return) eqn:Hc; [done|].
    cbn [occurs]. by rewrite Hc.
  - split; [apply IH2|]. intros c.
    specialize (IH2 c').
    change (universal_newlines (String c (String c' s)))
      with (if Ascii.eqb c carriage_return
            then String newline (if Ascii.eqb c' newline
                                 then universal_newlines s
                                 else universal_newlines (String c' s))
            else String c (universal_newlines (String c' s))).
    destruct (Ascii.eqb c carriage_return) eqn:Hc.
    + cbn [occurs]. by destruct (Ascii.eqb c' newline).
    + cbn [occurs]. by rewrite Hc.
Qed.

Lemma keep_ends_shape (t : string) :
  occurs carriage_return t = false →
  Forall (fun l => ∃ body, no_line_end body ∧
                           (l = body ∨ l = body +:+ String newline ""))
         (keep_ends t).
Proof.
  induction t as [|c t IH]; intros Hcr; [by constructor|].
  cbn [occurs] in Hcr. apply orb_false_iff in Hcr as [Hc Hcr].
  specialize (IH Hcr). cbn [keep_ends].
  destruct (Ascii.eqb c newline) eqn:Hnl.
  - constructor; [|done]. exists "". split; [done|]. right.
    apply Ascii.eqb_eq in Hnl. by subst.
  - destruct (keep_ends t) as [|l ls].
    + constructor; [|done]. exists (String c ""). split; [|by left].
      split; cbn [occurs]; by rewrite ?Hnl, ?Hc.
    + apply Forall_cons in IH as [(body & [Hb1 Hb2] & Hl) IH].
      constructor; [|done]. exists (String c body). split.
      * split; cbn [occurs]; by rewrite ?Hnl, ?Hc.
      * rewrite app_cons_str. destruct Hl as [-> | ->]; auto.
Qed.

Lemma occurs_lstrip (c : ascii) (s : string) :
  occurs c s = false → occurs c (PyStr.lstrip s) = false.
Proof.
  induction s as [|c' s IH]; [done|]. intros Hs. cbn [PyStr.lstrip].
  destruct (PyStr.is_space c'); [|done].
  cbn [occurs] in Hs. apply orb_false_iff in Hs as [_ Hs]. by apply IH.
Qed.

Lemma occurs_rstrip (c : ascii) (s : string) :
  occurs c s = false → occurs c (PyStr.rstrip s) = false.
Proof.
  induction s as [|c' s IH]; [done|]. intros Hs.
  cbn [occurs] in Hs. apply orb_false_iff in Hs as [Hc Hs].
  specialize (IH Hs). cbn [PyStr.rstrip].
  destruct (PyStr.rstrip s) as [|c'' r].
  - destruct (PyStr.is_space c'); [done|]. cbn [occurs]. by rewrite Hc.
  - cbn [occurs] in IH |- *. by rewrite Hc, IH.
Qed.

Lemma lstrip_line (body : string) :
  PyStr.lstrip (body +:+ String newline "") = ""
  ∨ ∃ t, PyStr.lstrip (body +:+ String newline "") = t +:+ String newline ""
         ∧ ∀ c, occurs c body = false → occurs c t = false.
Proof.
  induction body as [|c' body IH].
  - by left.
  - rewrite app_cons_str. cbn [PyStr.lstrip].
    destruct (PyStr.is_space c').
    + destruct IH as [IH | (t & IH & Ht)]; [by left|].
      right. exists t. split; [done|]. intros c Hc.
      cbn [occurs] in Hc. apply orb_false_iff in Hc as [_ Hc]. by apply Ht.
    + right. exists (String c' body). split; [by rewrite app_cons_str|done].
Qed.

Lemma strip_line_no_line_end (body : string) :
  no_line_end body →
  no_line_end (PyStr.strip body) ∧
  no_line_end (PyStr.strip (body +:+ String newline "")).
Proof.
  intros [Hnl Hcr]. split.
  - split; by apply occurs_rstrip, occurs_lstrip.
  - unfold PyStr.strip.
    destruct (lstrip_line body) as [-> | (t & -> & Ht)]; [done|].
    rewrite rstrip_space by done.
    split; by apply occurs_rstrip, Ht.
Qed.

Lemma readlines_no_line_end (content : string) :
  Forall (fun line => no_line_end (PyStr.strip line)) (readlines content).
Proof.
  unfold readlines.
  eapply Forall_impl; [apply keep_ends_shape, universal_newlines_no_cr|].
  intros l (body & Hbody & [-> | ->]); by apply strip_line_no_line_end.
Qed.

Lemma parse_parts_length (parts : list string) (s : scenario) :
  parse_parts parts = Ok s → (10 ≤ length parts)%nat.
Proof.
  unfold parse_parts. intros Hparse.
  destruct (parts !! 9%nat) as [f9|] eqn:H9.
  - apply lookup_lt_Some in H9. lia.
  - exfalso. revert Hparse.
    assert (item parts 9 = Raise IndexError) as -> by (unfold item; by rewrite H9).
    destruct (item parts 0 ≫= int); [|done].
    destruct (item parts 1); [|done].
    destruct (item parts 2 ≫= int); [|done].
    destruct (item parts 3 ≫= int); [|done].
    destruct (item parts 4 ≫= int); [|done].
    destruct (item parts 5 ≫= int); [|done].
    destruct (item parts 6 ≫= int); [|done].
    destruct (item parts 7 ≫= int); [|done].
    by destruct (item parts 8 ≫= float).
Qed.

Lemma base_entry_fields (line : string) (base : scenario) :
  base_entry line = Ok base →
  ∃ f0 f1 f2 f3 f4 f5 f6 f7 f8 more,
    PyStr.split tab (PyStr.strip line)
    = f0 :: f1 :: f2 :: f3 :: f4 :: f5 :: f6 :: f7 :: f8 :: more ∧
    parse_parts [f0; f1; f2; f3; f4; f5; f6; f7; f8; "0"] = Ok base.
Proof.
  unfold base_entry. intros Hbase.
  pose proof (parse_parts_length _ _ Hbase) as Hlen.
  rewrite length_app, length_take in Hlen. cbn [length] in Hlen.
  destruct (PyStr.split tab (PyStr.strip line))
    as [|f0 [|f1 [|f2 [|f3 [|f4 [|f5 [|f6 [|f7 [|f8 more]]]]]]]]];
    cbn [length] in Hlen; try lia.
  by exists f0, f1, f2, f3, f4, f5, f6, f7, f8, more.
Qed.

Lemma base_entry_short (line : string) :
  (length (PyStr.split tab (PyStr.strip line)) < 8)%nat →
  ∃ e, base_entry line = Raise e.
Proof.
  intros Hlen. destruct (base_entry line) as [base|e] eqn:Hbase; [|by exists e].
  destruct (base_entry_fields _ _ Hbase) as (? & ? & ? & ? & ? & ? & ? & ? & ? & ? & Hsplit & _).
  rewrite Hsplit in Hlen. cbn [length] in Hlen. lia.
Qed.

Section GeneratorProperties.

Context {R : Type}.
Variable random_below_07 : R → bool * R.
Variable randbelow : R → Z → Z * R.

Lemma randint_spec (rng : R) (a b : Z) :
  a ≤ b →
  ∃ v rng', randint R randbelow rng a b = Ok (v, rng') ∧ a ≤ v ≤ b.
Proof.
  intros Hab. unfold randint. rewrite decide_True by done.
  destruct (randbelow rng (b - a + 1)) as [v rng'].
  eexists _, _. split; [done|].
  pose proof (Z.mod_pos_bound v (b - a + 1)). lia.
Qed.

Lemma generate_waypoint_spec (width height : string) (w h : Z)
    (st : gen_state R) (sx sy gx gy : Z) :
  pyval_int (g_start_x st) = Ok sx → pyval_int (g_start_y st) = Ok sy →
  pyval_int (g_goal_x st) = Ok gx → pyval_int (g_goal_y st) = Ok gy →
  int width = Ok w → int height = Ok h → 1 ≤ w → 1 ≤ h →
  ∃ wp rng',
    generate_waypoint R random_below_07 randbelow width height st
    = Ok (mk_gen (Py_int sx) (Py_int sy) (Py_int gx) (Py_int gy)
                 (g_waypoints st ++ coords_of [wp]) rng') ∧
    waypoint_in_reach (sx, sy) (gx, gy) w h wp.
Proof.
  intros Hsx Hsy Hgx Hgy Hw Hh Hw1 Hh1.
  unfold generate_waypoint. rewrite Hsx, Hsy, Hgx, Hgy.
  cbn [mbind res_bind].
  destruct (random_below_07 (g_rng st)) as [[|] rng1].
  - destruct (randint_spec rng1 (Z.min sx gx) (Z.max sx gx)) as (x & rng2 & -> & Hx);
      [lia|].
    cbn [mbind res_bind].
    destruct (randint_spec rng2 (Z.min sy gy) (Z.max sy gy)) as (y & rng3 & -> & Hy);
      [lia|].
    exists (x, y), rng3. split; [done|]. by left.
  - rewrite Hw. cbn [mbind res_bind].
    destruct (randint_spec rng1 0 (w - 1)) as (x & rng2 & -> & Hx); [lia|].
    cbn [mbind res_bind]. rewrite Hh. cbn [mbind res_bind].
    destruct (randint_spec rng2 0 (h - 1)) as (y & rng3 & -> & Hy); [lia|].
    exists (x, y), rng3. split; [done|]. right. cbn. lia.
Qed.

Lemma generate_loop_spec (width height : string) (w h sx sy gx gy : Z) (n : nat) :
  int width = Ok w → int height = Ok h → (n ≠ 0%nat → 1 ≤ w ∧ 1 ≤ h) →
  ∀ (i : nat) (st : gen_state R),
    pyval_int (g_start_x st) = Ok sx → pyval_int (g_start_y st) = Ok sy →
    pyval_int (g_goal_x st) = Ok gx → pyval_int (g_goal_y st) = Ok gy →
    ∃ wps rng',
      for_loop (fun st _ => generate_waypoint R random_below_07 randbelow
                              width height st) (seq i n) st
      = Ok (match n with
            | O => st
            | S _ => mk_gen (Py_int sx) (Py_int sy) (Py_int gx) (Py_int gy)
                            (g_waypoints st ++ coords_of wps) rng'
            end) ∧
      length wps = n ∧
      Forall (waypoint_in_reach (sx, sy) (gx, gy) w h) wps.
Proof.
  intros Hw Hh. induction n as [|n IH]; intros Hpos i st Hsx Hsy Hgx Hgy.
  - exists [], (g_rng st). by repeat split.
  - destruct Hpos as [Hw1 Hh1]; [done|].
    destruct (generate_waypoint_spec width height w h st sx sy gx gy)
      as (wp & rng1 & Hstep & Hreach); try done.
    cbn [seq for_loop]. rewrite Hstep. cbn [mbind res_bind].
    destruct (IH (fun _ => conj Hw1 Hh1) (S i)
                (mk_gen (Py_int sx) (Py_int sy) (Py_int gx) (Py_int gy)
                        (g_waypoints st ++ coords_of [wp]) rng1))
      as (wps & rng' & -> & Hlen & Hall); try done.
    destruct n as [|n].
    + exists [wp], rng1. split; [done|]. split; [done|].
      by apply Forall_singleton.
    + exists (wp :: wps), rng'. split; [|split].
      * cbn [g_waypoints]. by rewrite <- (assoc_L (++)).
      * cbn [length]. by rewrite Hlen.
      * by constructor.
Qed.

Lemma waypoint_line_spec (map_name line : string) (wp_count : Z) (rng : R)
    (f0 f1 f2 f3 f4 f5 f6 f7 f8 : string) (more : list string)
    (base : scenario) :
  occurs tab map_name = false →
  PyStr.split tab (PyStr.strip line)
  = f0 :: f1 :: f2 :: f3 :: f4 :: f5 :: f6 :: f7 :: f8 :: more →
  parse_parts [f0; f1; f2; f3; f4; f5; f6; f7; f8; "0"] = Ok base →
  (1 ≤ wp_count → 1 ≤ width base ∧ 1 ≤ height base) →
  ∃ l rng' wps,
    waypoint_line R random_below_07 randbelow map_name wp_count rng line
    = Ok (Some l, rng') ∧
    (∀ st, parse_line st l
           = (st.1 ++ [mk_scenario (bucket base) (map_name +:+ ".map")
                         (width base) (height base) (start base) (goal base)
                         (optimal_length base) wp_count wps], st.2)) ∧
    length wps = Z.to_nat wp_count ∧
    Forall (waypoint_in_reach (start base) (goal base) (width base) (height base))
           wps ∧
    (no_line_end map_name → no_line_end (PyStr.strip line) → is_line l).
Proof.
  intros Hmap Hsplit Hbase Hpos.
  assert (no_line_end map_name → no_line_end (PyStr.strip line) →
          Forall no_line_end [f0; map_name +:+ ".map"; f2; f3; f4; f5; f6; f7; f8]
          ∧ ∀ z, no_line_end (str z)) as Hends.
  { intros [Hm1 Hm2] Hline. split; [|apply no_line_end_str].
    pose proof (no_line_end_split tab _ Hline) as Hparts.
    rewrite Hsplit in Hparts.
    repeat match goal with
           | H : Forall _ (_ :: _) |- _ => apply Forall_cons in H as [? H]
           end.
    repeat first [apply Forall_nil_2 | apply Forall_cons_2]; try done.
    split; rewrite occurs_app; by rewrite ?Hm1, ?Hm2. }
  destruct (parse_parts_inv _ _ _ _ _ _ _ _ _ _ _ Hbase)
    as (Hb & _ & Hw & Hh & Hsx & Hsy & Hgx & Hgy & Ho & _ & _).
  destruct (first_field line f0 _ Hsplit) as (ch & Hfirst & Hch); [done|].
  pose proof (split_elements tab (PyStr.strip line)) as Htabs.
  rewrite Hsplit in Htabs.
  destruct (generate_loop_spec f2 f3 (width base) (height base)
              (start base).1 (start base).2 (goal base).1 (goal base).2
              (Z.to_nat wp_count) Hw Hh (fun H => Hpos ltac:(lia)) 0%nat
              (mk_gen (Py_str f4) (Py_str f5) (Py_str f6) (Py_str f7) [] rng))
    as (wps & rng' & Hloop & Hlen & Hall); try done.
  unfold waypoint_line. rewrite Hsplit.
  rewrite decide_False by (cbn [length]; lia).
  cbn [item lookup list_lookup mbind res_bind].
  rewrite Hloop. cbn [mbind res_bind mret res_ret].
  assert (Forall (waypoint_in_reach (start base) (goal base) (width base)
                    (height base)) wps) as Hall'.
  { by destruct (start base), (goal base). }
  assert (∀ z, int (str z) = Ok z) as Hstr.
  { intros z. unfold int. by rewrite int_str. }
  assert (∀ z, occurs tab (str z) = false) as Hstr_tab.
  { intros z. by apply occurs_str. }
  assert (occurs tab (map_name +:+ ".map") = false) as Hmap'.
  { rewrite occurs_app. by rewrite Hmap. }
  repeat match goal with
         | H : Forall _ (_ :: _) |- _ => apply Forall_cons in H as [? H]
         end.
  destruct (Z.to_nat wp_count) as [|n] eqn:Hn.
  - destruct wps; [|done].
    eexists _, _, []. split; [done|].
    cbn [g_start_x g_start_y g_goal_x g_goal_y g_waypoints pyval_format].
    destruct (start base) as [sx sy], (goal base) as [gx gy].
    rewrite <- (app_assoc_str map_name ".map").
    split; [|split; [done|split; [done|]]].
    + intros st.
      apply (rendered_line_parsed f0 (map_name +:+ ".map") f2 f3 f4 f5 f6 f7 f8 []
               ch); try done.
      by repeat constructor.
    + intros Hm Hline. destruct (Hends Hm Hline) as [Hfields Hz].
      apply (rendered_line_is_line f0 (map_name +:+ ".map") f2 f3 f4 f5 f6 f7 f8
               (str wp_count) []).
      repeat match goal with
             | H : Forall _ (_ :: _) |- _ => apply Forall_cons in H as [? H]
             end.
      repeat first [apply Forall_nil_2 | apply Forall_cons_2]; done.
  - eexists _, _, wps. split; [done|].
    cbn [g_start_x g_start_y g_goal_x g_goal_y g_waypoints pyval_format app].
    destruct (start base) as [sx sy], (goal base) as [gx gy].
    rewrite <- (app_assoc_str map_name ".map").
    split; [|split; [done|split; [done|]]].
    + intros st.
      apply (rendered_line_parsed f0 (map_name +:+ ".map") f2 f3
               (str sx) (str sy) (str gx) (str gy) f8 wps ch); try done.
      by repeat constructor.
    + intros Hm Hline. destruct (Hends Hm Hline) as [Hfields Hz].
      apply (rendered_line_is_line f0 (map_name +:+ ".map") f2 f3
               (str sx) (str sy) (str gx) (str gy) f8 (str wp_count) wps).
      repeat match goal with
             | H : Forall _ (_ :: _) |- _ => apply Forall_cons in H as [? H]
             end.
      repeat first [apply Forall_nil_2 | apply Forall_cons_2]; done.
Qed.

Lemma waypoint_lines_spec (map_name : string) (wp_count : Z) (body : list string) :
  occurs tab map_name = false → no_line_end map_name →
  Forall (fun line => no_line_end (PyStr.strip line) ∧ usable_base_line line)
         body →
  ∀ rng, ∃ written rng' entries,
    waypoint_lines R random_below_07 randbelow map_name wp_count rng body
    = Ok (written, rng') ∧
    Forall is_line written ∧
    (∀ st, foldl parse_line st written = (st.1 ++ entries, st.2)) ∧
    Forall2 (generated_from map_name wp_count)
            (omap (fun line => match base_entry line with
                               | Ok base => Some base
                               | Raise _ => None
                               end) body)
            entries.
Proof.
  intros Hmap Hends.
  induction 1 as [|line body [Hline [Hshort|(base & Hbase & Hw & Hh)]] _ IH];
    intros rng.
  - exists [], rng, []. split; [done|]. split; [done|]. split; [|done].
    intros [entries printed]. cbn. by rewrite app_nil_r.
  - destruct (IH rng) as (written & rng' & entries & Hrun & Hlines & Hparse & Hall).
    exists written, rng', entries.
    destruct (base_entry_short line Hshort) as [e He].
    cbn [waypoint_lines omap list_omap]. rewrite He.
    unfold waypoint_line. rewrite decide_True by done.
    cbn [mbind res_bind mret res_ret]. rewrite Hrun. by cbn.
  - destruct (base_entry_fields _ _ Hbase)
      as (f0 & f1 & f2 & f3 & f4 & f5 & f6 & f7 & f8 & more & Hsplit & Hparts).
    destruct (waypoint_line_spec map_name line wp_count rng
                f0 f1 f2 f3 f4 f5 f6 f7 f8 more base Hmap Hsplit Hparts
                (fun _ => conj Hw Hh))
      as (l & rng1 & wps & Hline_run & Hline_parse & Hlen & Hreach & Hisline).
    destruct (IH rng1) as (written & rng' & entries & Hrun & Hlines & Hparse & Hall).
    eexists (l :: written), rng', (_ :: entries).
    cbn [waypoint_lines omap list_omap]. rewrite Hbase, Hline_run.
    cbn [mbind res_bind mret res_ret]. rewrite Hrun.
    split; [done|]. split; [by constructor; auto|]. split.
    + intros st. cbn [foldl]. rewrite Hline_parse, Hparse.
      cbn [fst snd]. by rewrite <- (assoc_L (++)).
    + by constructor.
Qed.

Lemma waypoint_lines_raise (map_name : string) (wp_count : Z) (line : string)
    (e : exn) (body : list string) :
  (∀ rng, waypoint_line R random_below_07 randbelow map_name wp_count rng line
          = Raise e) →
  line ∈ body →
  ∀ rng, ∃ e',
    waypoint_lines R random_below_07 randbelow map_name wp_count rng body
    = Raise e'.
Proof.
  intros Hline. induction body as [|line' body IH]; intros Hin rng.
  { by apply elem_of_nil in Hin. }
  apply elem_of_cons in Hin as [<- | Hin].
  - exists e. cbn [waypoint_lines]. by rewrite Hline.
  - cbn [waypoint_lines].
    destruct (waypoint_line R random_below_07 randbelow map_name wp_count rng line')
      as [[written rng1]|e1]; [|exists e1; reflexivity].
    destruct (IH Hin rng1) as [e' He']. exists e'.
    cbn [mbind res_bind]. by rewrite He'.
Qed.

(** X10. A base line of exactly eight tab-separated fields passes the
    test [len(parts) < 8] and raises [IndexError] at [parts[8]]; since
    nothing catches it, [create_waypoint_scenarios] raises whenever such
    a line follows the first line of the base file and a waypoint count
    is asked for, whatever the random generator does. *)
Theorem eight_field_line_raises (map_name line : string) :
  length (PyStr.split tab (PyStr.strip line)) = 8%nat →
  (∀ wp_count rng,
     waypoint_line R random_below_07 randbelow map_name wp_count rng line
     = Raise IndexError) ∧
  (∀ lines waypoint_counts rng,
     line ∈ drop 1 lines → waypoint_counts ≠ [] →
     ∃ e, create_waypoint_scenarios R random_below_07 randbelow lines map_name
            waypoint_counts rng = Raise e).
Proof.
  intros Hlen.
  assert (∀ wp_count rng,
            waypoint_line R random_below_07 randbelow map_name wp_count rng line
            = Raise IndexError) as Hline.
  { intros wp_count rng. unfold waypoint_line.
    rewrite decide_False by lia.
    destruct (PyStr.split tab (PyStr.strip line))
      as [|f0 [|f1 [|f2 [|f3 [|f4 [|f5 [|f6 [|f7 [|f8 more]]]]]]]]];
      by cbn in Hlen |- *. }
  split; [exact Hline|].
  intros lines [|wp_count counts] rng Hin Hne; [done|].
  destruct (waypoint_lines_raise map_name wp_count line IndexError (drop 1 lines)
              (Hline wp_count) Hin rng) as [e He].
  exists e. cbn [create_waypoint_scenarios]. by rewrite He.
Qed.



End GeneratorProperties.

Lemma eight_field_line_raises_witness :
  (∀ wp_count rng,
     waypoint_line nat counting_test counting_below "empty-8-8" wp_count rng
       eight_fields = Raise IndexError) ∧
  (∀ lines waypoint_counts rng,
     eight_fields ∈ drop 1 lines → waypoint_counts ≠ [] →
     ∃ e, create_waypoint_scenarios nat counting_test counting_below lines
            "empty-8-8" waypoint_counts rng = Raise e).
Proof.
  exact (eight_field_line_raises counting_test counting_below "empty-8-8"
           eight_fields eq_refl).
Defined.



(** ** The temporary scenario file *)

Lemma first_char_str (z : Z) :
  ∃ ch, first_char (str z) = Some ch ∧ PyStr.is_space ch = false.
Proof.
  pose proof (has_space_str z) as Hsp. pose proof (str_not_empty z) as Hne.
  destruct (str z) as [|ch s]; [done|].
  exists ch. split; [done|].
  cbn [has_space] in Hsp. by apply orb_false_iff in Hsp as [? _].
Qed.

Lemma row_fields (row : instance_row) :
  occurs tab (row_map_name row) = false →
  PyStr.split tab (PyStr.strip (row_text row))
  = [str (Z.of_nat (row_bucket row)); row_map_name row; str (row_width row);
     str (row_height row); str (row_start row).1; str (row_start row).2;
     str (row_goal row).1; str (row_goal row).2; "0"].
Proof.
  intros Hmap. unfold row_text.
  set (b := str (Z.of_nat (row_bucket row))).
  set (fields := [b; row_map_name row; str (row_width row); str (row_height row);
                  str (row_start row).1; str (row_start row).2;
                  str (row_goal row).1; str (row_goal row).2]).
  set (sep := String tab "").
  change (PyStr.split tab (PyStr.strip
            (join sep (fields ++ ["0" +:+ String newline ""])))
          = fields ++ ["0"]).
  unfold PyStr.strip. rewrite lstrip_id.
  2:{ intros c Hc. destruct (first_char_str (Z.of_nat (row_bucket row)))
        as (ch & Hch & Hsp). fold b in Hch.
      destruct b as [|c1 b']; [done|].
      unfold fields in Hc. cbn [join app] in Hc. rewrite app_cons_str in Hc.
      cbn in Hch, Hc. congruence. }
  rewrite rstrip_join_keep by done.
  apply split_join; [done|].
  unfold fields, b.
  repeat first [apply Forall_nil_2 | apply Forall_cons_2];
    first [exact Hmap | by apply occurs_str | done].
Qed.

Lemma row_text_is_line (row : instance_row) :
  no_line_end (row_map_name row) → is_line (row_text row).
Proof.
  intros [Hnl Hcr].
  set (fields := [str (Z.of_nat (row_bucket row)); row_map_name row;
                  str (row_width row); str (row_height row);
                  str (row_start row).1; str (row_start row).2;
                  str (row_goal row).1; str (row_goal row).2]).
  exists (join (String tab "") (fields ++ ["0"])). split.
  - change (row_text row)
      with (join (String tab "") (fields ++ ["0" +:+ String newline ""])).
    rewrite !join_snoc by done. by rewrite !app_assoc_str.
  - split; (apply occurs_join; [done|]); unfold fields;
      repeat first [apply Forall_nil_2 | apply Forall_cons_2];
      first [exact Hnl | exact Hcr | by apply occurs_str | done].
Qed.

Lemma row_entry (row : instance_row) :
  occurs tab (row_map_name row) = false →
  base_entry (row_text row)
  = Ok (mk_scenario (Z.of_nat (row_bucket row)) (row_map_name row)
          (row_width row) (row_height row) (row_start row) (row_goal row)
          "0" 0 []).
Proof.
  intros Hmap. unfold base_entry. rewrite row_fields by done.
  cbn [take app]. unfold parse_parts.
  cbn [item lookup list_lookup mbind res_bind length].
  assert (∀ z, int (str z) = Ok z) as Hstr.
  { intros z. unfold int. by rewrite int_str. }
  rewrite !Hstr. cbn [mbind res_bind].
  by destruct (row_start row), (row_goal row).
Qed.

Lemma row_skipped (row : instance_row) (st : parser_state) :
  occurs tab (row_map_name row) = false →
  parse_line st (row_text row) = st.
Proof.
  intros Hmap. pose proof (row_fields row Hmap) as Hfields.
  unfold parse_line.
  destruct (String.eqb (PyStr.strip (row_text row)) ""); [done|].
  rewrite Hfields. by rewrite decide_True by (cbn [length]; lia).
Qed.

Lemma rows_map_name (map_name : string) (width height : Z)
    (pairs : list agent_pair) (k : nat) :
  Forall (fun row => row_map_name row = map_name)
         (imap (fun bucket '(start, goal) =>
                  mk_row (k + bucket) map_name width height start goal) pairs).
Proof.
  revert k. induction pairs as [|[s g] pairs IH]; intros k.
  - constructor.
  - cbn [imap]. constructor; [done|].
    rewrite (imap_ext _ (fun bucket '(start, goal) =>
               mk_row (S k + bucket) map_name width height start goal));
      [apply IH|].
    intros i [s' g'] _. cbn. f_equal. lia.
Qed.

Lemma rows_entries (map_name : string) (width height : Z)
    (pairs : list agent_pair) (k : nat) :
  occurs tab map_name = false →
  omap (fun line => match base_entry line with
                    | Ok base => Some base
                    | Raise _ => None
                    end)
       (row_text <$> imap (fun bucket '(start, goal) =>
                             mk_row (k + bucket) map_name width height start goal)
                          pairs)
  = imap (fun bucket '(start, goal) =>
            mk_scenario (Z.of_nat (k + bucket)) map_name width height start goal
                        "0" 0 []) pairs.
Proof.
  intros Hmap. revert k. induction pairs as [|[s g] pairs IH]; intros k; [done|].
  cbn [imap fmap list_fmap omap list_omap].
  rewrite row_entry by done.
  cbn [row_bucket row_map_name row_width row_height row_start row_goal].
  f_equal.
  rewrite (imap_ext _ (fun bucket '(start, goal) =>
             mk_row (S k + bucket) map_name width height start goal)).
  2:{ intros i [s' g'] _. cbn. f_equal. lia. }
  rewrite (imap_ext (fun bucket '(start, goal) =>
             mk_scenario (Z.of_nat (k + S bucket)) map_name width height
                         start goal "0" 0 [])
             (fun bucket '(start, goal) =>
             mk_scenario (Z.of_nat (S k + bucket)) map_name width height
                         start goal "0" 0 [])).
  2:{ intros i [s' g'] _. cbn. do 2 f_equal. lia. }
  apply IH.
Qed.

Lemma rows_skipped (rows : list instance_row) (st : parser_state) :
  Forall (fun row => occurs tab (row_map_name row) = false) rows →
  foldl parse_line st (row_text <$> rows) = st.
Proof.
  induction 1 as [|row rows Hrow _ IH]; [done|].
  cbn [fmap list_fmap foldl]. by rewrite row_skipped.
Qed.

(** X14. The temporary scenario file of a segment holds, after the
    version line, one line of nine fields for each agent pair: read as
    base entries these lines give back the pairs in order, with the
    position as bucket, the given map and size, and the optimal length
    [0]; [WaypointScenarioParser], which wants ten fields, reads no entry
    from such a file and prints nothing. *)
Theorem temp_scenario_round_trip (map_name : string) (width height : Z)
    (agent_pairs : list agent_pair) :
  occurs tab map_name = false → no_line_end map_name →
  let lines :=
    readlines (written_content (temp_scenario_text
      (_create_temp_scenario_multi map_name width height agent_pairs))) in
  base_entries lines
  = imap (fun bucket '(start, goal) =>
            mk_scenario (Z.of_nat bucket) map_name width height start goal
                        "0" 0 []) agent_pairs ∧
  _parse_scenarios lines = ([], []).
Proof.
  intros Hmap Hends lines. subst lines.
  pose proof (rows_map_name map_name width height agent_pairs 0) as Hrows.
  pose proof (rows_entries map_name width height agent_pairs 0 Hmap) as Hentries.
  unfold _create_temp_scenario_multi.
  change (imap (fun bucket '(start, goal) =>
                  mk_row bucket map_name width height start goal) agent_pairs)
    with (imap (fun bucket '(start, goal) =>
                  mk_row (0 + bucket) map_name width height start goal)
               agent_pairs).
  rewrite readlines_written.
  2:{ constructor; [by exists "version 1"|].
      apply Forall_fmap. eapply Forall_impl; [exact Hrows|].
      intros row Hrow. cbn. apply row_text_is_line. by rewrite Hrow. }
  unfold base_entries, _parse_scenarios, temp_scenario_text. cbn [drop].
  split; [exact Hentries|].
  apply rows_skipped. eapply Forall_impl; [exact Hrows|].
  intros row Hrow. cbn. by rewrite Hrow.
Qed.

Lemma temp_scenario_round_trip_witness :
  let lines :=
    readlines (written_content (temp_scenario_text
      (_create_temp_scenario_multi "empty-8-8.map" 8 8
         [((0, 0), (2, 2)); ((1, 1), (3, 3))]))) in
  base_entries lines
  = [mk_scenario 0 "empty-8-8.map" 8 8 (0, 0) (2, 2) "0" 0 [];
     mk_scenario 1 "empty-8-8.map" 8 8 (1, 1) (3, 3) "0" 0 []] ∧
  _parse_scenarios lines = ([], []).
Proof.
  exact (temp_scenario_round_trip "empty-8-8.map" 8 8
           [((0, 0), (2, 2)); ((1, 1), (3, 3))] eq_refl (conj eq_refl eq_refl)).
Defined.
